(** * histver: the release/runtime history table of the Syncthing docs

    A shallow embedding of [_script/histver]: the table rows and their
    CSV store ([tableRow], [writeTable], [readTable]), the version banner
    parser ([fromVersion]) and the release resolver of [synver.go]
    ([getReleaseVersion] and the functions below it).

    Go strings are byte sequences: they are modelled by [string], whose
    characters are the 256 byte values.  Functions of the Go standard
    library that the program calls are modelled next to their callers
    and carry the name of the package as a prefix ([strings_Trim],
    [path_Dir], [csv_Write], ...). *)

From Stdlib Require Import Bool Arith ZArith NArith Lia.
From Stdlib Require Import Ascii String DecimalString.
From Stdlib Require Import List Permutation Sorted.
From Stdlib Require OrderedTypeEx.
Import ListNotations.

Local Open Scope bool_scope.
Local Open Scope string_scope.
Local Open Scope list_scope.
Local Open Scope nat_scope.

(* ===================================================================== *)
(** * Results, errors and panics *)
(* ===================================================================== *)

(** A Go [error] value.  [errorString] is what [fmt.Errorf] and
    [errors.New] build from a constant message; [pkgError] stands for the
    error values that belong to a library package (io.EOF,
    tar.ErrHeader, a failed system call, ...). *)
Inductive error : Type :=
| errorString (msg : string)
| pkgError (pkg msg : string).

(** The pair [(T, error)] returned by a fallible Go function.  Every such
    function of the program returns the zero value of [T] next to a
    non-nil error, so the pair carries no more than this sum. *)
Inductive result (A : Type) : Type :=
| Ok (a : A)
| Err (e : error).
Arguments Ok {A} a.
Arguments Err {A} e.

(** A computation that may end in a run-time panic. *)
Inductive outcome (A : Type) : Type :=
| Returns (a : A)
| Panics (msg : string).
Arguments Returns {A} a.
Arguments Panics {A} msg.

Definition io_EOF : error := pkgError "io" "EOF".

(* ===================================================================== *)
(** * Bytes and the [strings] package *)
(* ===================================================================== *)

Definition byte_dquote : ascii := ascii_of_nat 34.
Definition byte_LF : ascii := ascii_of_nat 10.
Definition byte_CR : ascii := ascii_of_nat 13.

Definition str1 (c : ascii) : string := String c EmptyString.

(** [strings.Count(s, sep)] for a one-byte [sep]. *)
Fixpoint strings_Count (s : string) (sep : ascii) : nat :=
  match s with
  | EmptyString => 0
  | String c s' =>
      if Ascii.eqb c sep then S (strings_Count s' sep)
      else strings_Count s' sep
  end.

(** [strings.Index(s, sep)] for a one-byte [sep]: the first position, or -1. *)
Fixpoint strings_Index (s : string) (sep : ascii) : Z :=
  match s with
  | EmptyString => (-1)%Z
  | String c s' =>
      if Ascii.eqb c sep then 0%Z
      else let i := strings_Index s' sep in
           if (i <? 0)%Z then (-1)%Z else (i + 1)%Z
  end.

(** [strings.LastIndex(s, sep)] for a one-byte [sep]: the last position, or -1. *)
Fixpoint strings_LastIndex (s : string) (sep : ascii) : Z :=
  match s with
  | EmptyString => (-1)%Z
  | String c s' =>
      let i := strings_LastIndex s' sep in
      if (0 <=? i)%Z then (i + 1)%Z
      else if Ascii.eqb c sep then 0%Z else (-1)%Z
  end.

(** [strings.Contains(s, sep)] for a one-byte [sep]. *)
Definition strings_Contains (s : string) (sep : ascii) : bool :=
  (0 <=? strings_Index s sep)%Z.

Definition strings_HasPrefix (s pre : string) : bool := String.prefix pre s.

(** The slice expression [s[:i]]; an index out of range panics. *)
Definition slice_to (s : string) (i : Z) : outcome string :=
  if ((i <? 0) || (Z.of_nat (String.length s) <? i))%Z
  then Panics "slice bounds out of range"
  else Returns (substring 0 (Z.to_nat i) s).

Fixpoint trimLeftByte (s : string) (c : ascii) : string :=
  match s with
  | EmptyString => EmptyString
  | String a s' => if Ascii.eqb a c then trimLeftByte s' c else s
  end.

Fixpoint trimRightByte (s : string) (c : ascii) : string :=
  match s with
  | EmptyString => EmptyString
  | String a s' =>
      match trimRightByte s' c with
      | EmptyString => if Ascii.eqb a c then EmptyString else str1 a
      | t => String a t
      end
  end.

(** [strings.Trim(s, cutset)] for a one-byte ASCII [cutset], the fast path
    of the library: [trimLeftByte(trimRightByte(s, c), c)]. *)
Definition strings_Trim (s : string) (c : ascii) : string :=
  trimLeftByte (trimRightByte s c) c.

(** [cmp.Or(a, b)]: the first argument that is not the zero value. *)
Definition cmp_Or (a b : string) : string :=
  if String.eqb a "" then b else a.

(* ===================================================================== *)
(** * Table rows (tablerow.go) *)
(* ===================================================================== *)

Record tableRow : Type := mkRow {
  Version : string;
  Runtime : string;
  Date : string
}.

(** [func (t tableRow) merge(other tableRow) tableRow] *)
Definition merge (t other : tableRow) : tableRow :=
  {| Version := cmp_Or (Version other) (Version t);
     Runtime := cmp_Or (Runtime other) (Runtime t);
     Date := cmp_Or (Date other) (Date t) |}.

(** [func (r *tableRow) fromStrings(ss []string) error]; the row assigned
    through the receiver is the value of [Ok]. *)
Definition fromStrings (ss : list string) : result tableRow :=
  match ss with
  | s0 :: s1 :: s2 :: _ =>
      Ok {| Version := strings_Trim s0 "*";
            Runtime := strings_Trim s1 "*";
            Date := strings_Trim s2 "*" |}
  | _ => Err (errorString "not enough fields")
  end.

(** [func (r tableRow) toStrings() []string] *)
Definition toStrings (r : tableRow) : list string :=
  [Version r; Runtime r; Date r].

Definition tableHeader : list string := ["Version"; "Runtime"; "Date"].

(* ===================================================================== *)
(** * The [regexp] package, as far as [fromVersion] needs it *)
(* ===================================================================== *)

(** Abstract syntax of the regular expressions used by the program.
    [reStar] and [reQuest] are the greedy operators. *)
Inductive regex : Type :=
| reEmpty
| reLit (c : ascii)
| reDigit                          (* \d *)
| reAny                            (* .  : anything but a newline *)
| reCat (r1 r2 : regex)
| reStar (r : regex)
| reQuest (r : regex)
| reCap (i : nat) (r : regex).     (* the i-th capturing group *)

Definition rePlus (r : regex) : regex := reCat r (reStar r).

Fixpoint reRepeat (n : nat) (r : regex) : regex :=
  match n with
  | 0 => reEmpty
  | S n' => reCat r (reRepeat n' r)
  end.

Fixpoint reString (s : string) : regex :=
  match s with
  | EmptyString => reEmpty
  | String c s' => reCat (reLit c) (reString s')
  end.

Fixpoint reSeq (rs : list regex) : regex :=
  match rs with
  | [] => reEmpty
  | r :: rs' => reCat r (reSeq rs')
  end.

Definition isDigit (c : ascii) : bool :=
  let n := nat_of_ascii c in (48 <=? n) && (n <=? 57).

(** Capture registers: group number, start and end offset; the most
    recent assignment of a group comes first. *)
Definition captures : Type := list (nat * (nat * nat)).

(** A backtracking matcher in continuation-passing style.  It explores
    the alternatives in the priority order of Go's leftmost-first
    semantics: a greedy operator tries one more iteration before it tries
    to stop.  [pos] is the offset of [s] in the subject string.  An
    iteration of [reStar] has to consume input, so [String.length s]
    iterations are all there can be. *)
Fixpoint rmatch (r : regex) (pos : nat) (s : string) (cs : captures)
         (k : nat -> string -> captures -> option captures) {struct r}
  : option captures :=
  match r with
  | reEmpty => k pos s cs
  | reLit c =>
      match s with
      | String a s' => if Ascii.eqb a c then k (S pos) s' cs else None
      | EmptyString => None
      end
  | reDigit =>
      match s with
      | String a s' => if isDigit a then k (S pos) s' cs else None
      | EmptyString => None
      end
  | reAny =>
      match s with
      | String a s' => if Ascii.eqb a byte_LF then None else k (S pos) s' cs
      | EmptyString => None
      end
  | reCat r1 r2 =>
      rmatch r1 pos s cs (fun pos' s' cs' => rmatch r2 pos' s' cs' k)
  | reQuest r1 =>
      match rmatch r1 pos s cs k with
      | Some m => Some m
      | None => k pos s cs
      end
  | reStar r1 =>
      (fix iter (n : nat) (pos : nat) (s : string) (cs : captures)
         : option captures :=
         match n with
         | 0 => k pos s cs
         | S n' =>
             match rmatch r1 pos s cs
                     (fun pos' s' cs' =>
                        if pos <? pos' then iter n' pos' s' cs' else None)
             with
             | Some m => Some m
             | None => k pos s cs
             end
         end) (String.length s) pos s cs
  | reCap i r1 =>
      rmatch r1 pos s cs (fun pos' s' cs' => k pos' s' ((i, (pos, pos')) :: cs'))
  end.

(** The leftmost match: the first start offset at which the expression
    matches, with the registers of the preferred match there. *)
Fixpoint findFrom (re : regex) (start : nat) (s : string) : option captures :=
  match rmatch re start s [] (fun e _ cs => Some ((0, (start, e)) :: cs)) with
  | Some cs => Some cs
  | None =>
      match s with
      | EmptyString => None
      | String _ s' => findFrom re (S start) s'
      end
  end.

Fixpoint lookupCap (i : nat) (cs : captures) : option (nat * nat) :=
  match cs with
  | [] => None
  | (j, se) :: cs' => if i =? j then Some se else lookupCap i cs'
  end.

(** [re.FindStringSubmatch(s)] for an expression with [nsub] groups: nil
    when there is no match, else the text of the match followed by the
    text of each group (empty for a group that took no part). *)
Definition regexp_FindStringSubmatch (re : regex) (nsub : nat) (s : string)
  : list string :=
  match findFrom re 0 s with
  | None => []
  | Some cs =>
      map (fun i => match lookupCap i cs with
                    | Some (b, e) => substring b (e - b) s
                    | None => EmptyString
                    end)
          (seq 0 (S nsub))
  end.

(** [syncthing (v\d+\.\d+\.\d+).*(go\d+\.\d+(?:\.\d+)?).*(\d{4}-\d{2}-\d{2}) ]
    (the expression ends with a space). *)
Definition exp : regex :=
  reSeq
    [ reString "syncthing ";
      reCap 1 (reSeq [reLit "v"; rePlus reDigit; reLit "."; rePlus reDigit;
                      reLit "."; rePlus reDigit]);
      reStar reAny;
      reCap 2 (reSeq [reString "go"; rePlus reDigit; reLit "."; rePlus reDigit;
                      reQuest (reCat (reLit ".") (rePlus reDigit))]);
      reStar reAny;
      reCap 3 (reSeq [reRepeat 4 reDigit; reLit "-"; reRepeat 2 reDigit;
                      reLit "-"; reRepeat 2 reDigit]);
      reLit " " ].

(** [func (r *tableRow) fromVersion(ver string) error].  The submatch
    slice is nil or has four elements, so [m[1]], [m[2]] and [m[3]] are in
    range whenever the length test passes. *)
Definition fromVersion (ver : string) : result tableRow :=
  let m := regexp_FindStringSubmatch exp 3 ver in
  if List.length m <? 3 then Err (errorString "failed to parse version")
  else Ok {| Version := nth 1 m ""; Runtime := nth 2 m ""; Date := nth 3 m "" |}.

Definition sampleBanner : string :=
  ("syncthing v1.23.1-rc.1 " ++ str1 byte_dquote ++ "Fermium Flea"
   ++ str1 byte_dquote
   ++ " (go1.19.5 darwin-arm64) teamcity@build.syncthing.net 2023-01-12 03:30:17 UTC [stnoupgrade]")%string.

(* ===================================================================== *)
(** * The [encoding/csv] package with its default settings *)
(* ===================================================================== *)

(** ** Writer *)

Fixpoint anyByte (p : ascii -> bool) (s : string) : bool :=
  match s with
  | EmptyString => false
  | String c s' => p c || anyByte p s'
  end.

(** The bytes that force a field into quotes: newline, carriage return,
    the quote and the delimiter. *)
Definition csv_special (c : ascii) : bool :=
  Ascii.eqb c byte_LF || Ascii.eqb c byte_CR
  || Ascii.eqb c byte_dquote || Ascii.eqb c ",".

Definition utf8_RuneError : N := 65533%N.

Definition utf8_cont (b : N) : bool := ((128 <=? b) && (b <=? 191))%N.

(** [utf8.DecodeRuneInString]: the code point of the first UTF-8 sequence
    of [s], or [utf8_RuneError] when [s] is empty or starts with an
    invalid or incomplete sequence. *)
Definition utf8_DecodeRuneInString (s : string) : N :=
  match s with
  | EmptyString => utf8_RuneError
  | String c0 t =>
      let b0 := N_of_ascii c0 in
      if (b0 <? 128)%N then b0
      else if ((194 <=? b0) && (b0 <=? 223))%N then
        match t with
        | String c1 _ =>
            let b1 := N_of_ascii c1 in
            if utf8_cont b1 then ((b0 mod 32) * 64 + b1 mod 64)%N
            else utf8_RuneError
        | _ => utf8_RuneError
        end
      else if ((224 <=? b0) && (b0 <=? 239))%N then
        match t with
        | String c1 (String c2 _) =>
            let b1 := N_of_ascii c1 in
            let b2 := N_of_ascii c2 in
            let lo := if (b0 =? 224)%N then 160%N else 128%N in
            let hi := if (b0 =? 237)%N then 159%N else 191%N in
            if ((lo <=? b1) && (b1 <=? hi))%N && utf8_cont b2
            then ((b0 mod 16) * 4096 + (b1 mod 64) * 64 + b2 mod 64)%N
            else utf8_RuneError
        | _ => utf8_RuneError
        end
      else if ((240 <=? b0) && (b0 <=? 244))%N then
        match t with
        | String c1 (String c2 (String c3 _)) =>
            let b1 := N_of_ascii c1 in
            let b2 := N_of_ascii c2 in
            let b3 := N_of_ascii c3 in
            let lo := if (b0 =? 240)%N then 144%N else 128%N in
            let hi := if (b0 =? 244)%N then 143%N else 191%N in
            if ((lo <=? b1) && (b1 <=? hi))%N && utf8_cont b2 && utf8_cont b3
            then ((b0 mod 8) * 262144 + (b1 mod 64) * 4096
                  + (b2 mod 64) * 64 + b3 mod 64)%N
            else utf8_RuneError
        | _ => utf8_RuneError
        end
      else utf8_RuneError
  end.

(** [unicode.IsSpace]: the Latin-1 spaces, then the White_Space table. *)
Definition unicode_IsSpace (r : N) : bool :=
  if (r <=? 255)%N then
    ((9 <=? r) && (r <=? 13) || (r =? 32) || (r =? 133) || (r =? 160))%N
  else
    ((r =? 5760) || (8192 <=? r) && (r <=? 8202) || (r =? 8232) || (r =? 8233)
     || (r =? 8239) || (r =? 8287) || (r =? 12288))%N.

(** [func (w *Writer) fieldNeedsQuotes(field string) bool] *)
Definition csv_fieldNeedsQuotes (field : string) : bool :=
  if String.eqb field "" then false
  else if String.eqb field "\." then true
  else if anyByte csv_special field then true
  else unicode_IsSpace (utf8_DecodeRuneInString field).

(** The body of a quoted field: a quote is doubled, every other byte
    (carriage return and newline too, as [UseCRLF] is off) is copied. *)
Fixpoint csv_escape (field : string) : string :=
  match field with
  | EmptyString => EmptyString
  | String c t =>
      if Ascii.eqb c byte_dquote
      then String byte_dquote (String byte_dquote (csv_escape t))
      else String c (csv_escape t)
  end.

Definition csv_writeField (field : string) : string :=
  if csv_fieldNeedsQuotes field
  then (str1 byte_dquote ++ csv_escape field ++ str1 byte_dquote)%string
  else field.

(** [func (w *Writer) Write(record []string) error]: the bytes appended to
    the output.  The destination is a buffer that takes every byte, so the
    call has no error to report. *)
Definition csv_Write (record : list string) : string :=
  (String.concat "," (map csv_writeField record) ++ str1 byte_LF)%string.

(** ** Reader *)

Definition csv_ErrBareQuote : error :=
  pkgError "encoding/csv" "bare quote in non-quoted-field".
Definition csv_ErrQuote : error :=
  pkgError "encoding/csv" "extraneous or missing quote in quoted-field".
Definition csv_ErrFieldCount : error :=
  pkgError "encoding/csv" "wrong number of fields".

(** [bufio.Reader.ReadSlice('\n')]: the bytes up to and with the first
    newline (all of the input when it has none) and what follows them. *)
Fixpoint splitLine (s : string) : string * string :=
  match s with
  | EmptyString => (EmptyString, EmptyString)
  | String c t =>
      if Ascii.eqb c byte_LF then (str1 byte_LF, t)
      else let (l, r) := splitLine t in (String c l, r)
  end.

Fixpoint lastByte (s : string) : option ascii :=
  match s with
  | EmptyString => None
  | String c EmptyString => Some c
  | String _ t => lastByte t
  end.

Fixpoint dropLast (s : string) : string :=
  match s with
  | EmptyString => EmptyString
  | String _ EmptyString => EmptyString
  | String c t => String c (dropLast t)
  end.

Definition endsWith (c : ascii) (s : string) : bool :=
  match lastByte s with
  | Some a => Ascii.eqb a c
  | None => false
  end.

(** [lengthNL]: 1 when the line ends with a newline, else 0; the function
    below removes that many bytes from the end. *)
Definition chompNL (line : string) : string :=
  if endsWith byte_LF line then dropLast line else line.

(** [len(line) == lengthNL(line)] *)
Definition onlyNL (line : string) : bool :=
  String.eqb line "" || String.eqb line (str1 byte_LF).

(** [func (r *Reader) readLine() ([]byte, error)]: [None] is io.EOF.  A
    last line without newline loses a trailing carriage return; a line
    that ends with carriage return and newline keeps the newline only. *)
Definition csv_readLine (input : string) : option (string * string) :=
  if String.eqb input "" then None
  else
    let (line, rest) := splitLine input in
    let line :=
      if endsWith byte_LF line then line
      else if endsWith byte_CR line then dropLast line else line in
    let line :=
      if endsWith byte_LF line && endsWith byte_CR (dropLast line)
      then (dropLast (dropLast line) ++ str1 byte_LF)%string
      else line in
    Some (line, rest).

(** [line[:i]] and [line[i+1:]] for the first position [i] of [c]. *)
Fixpoint cut (c : ascii) (s : string) : option (string * string) :=
  match s with
  | EmptyString => None
  | String a t =>
      if Ascii.eqb a c then Some (EmptyString, t)
      else match cut c t with
           | Some (l, r) => Some (String a l, r)
           | None => None
           end
  end.

Definition fuelError : error := pkgError "model" "out of fuel".

(** The [parseField] loop of [readRecord].  [quoted] is [None] at the
    start of a field and [Some buf] inside a quoted field whose text so
    far is [buf]; [rest] is the input after the current line.  The result
    comes with the input that is left. *)
Fixpoint csv_parseField (fuel : nat) (line rest : string) (dst : list string)
         (quoted : option string) : result (list string) * string :=
  match fuel with
  | 0 => (Err fuelError, rest)
  | S fuel' =>
      match quoted with
      | None =>
          let unquoted :=
            match cut "," line with
            | Some (field, line') =>
                if anyByte (Ascii.eqb byte_dquote) field
                then (Err csv_ErrBareQuote, rest)
                else csv_parseField fuel' line' rest (dst ++ [field]) None
            | None =>
                let field := chompNL line in
                if anyByte (Ascii.eqb byte_dquote) field
                then (Err csv_ErrBareQuote, rest)
                else (Ok (dst ++ [field]), rest)
            end in
          match line with
          | String c line' =>
              if Ascii.eqb c byte_dquote
              then csv_parseField fuel' line' rest dst (Some EmptyString)
              else unquoted
          | EmptyString => unquoted
          end
      | Some buf =>
          match cut byte_dquote line with
          | Some (pre, line') =>
              let buf' := (buf ++ pre)%string in
              match line' with
              | String c line'' =>
                  if Ascii.eqb c byte_dquote then
                    csv_parseField fuel' line'' rest dst
                                   (Some (buf' ++ str1 byte_dquote)%string)
                  else if Ascii.eqb c "," then
                    csv_parseField fuel' line'' rest (dst ++ [buf']) None
                  else if onlyNL line' then (Ok (dst ++ [buf']), rest)
                  else (Err csv_ErrQuote, rest)
              | EmptyString => (Ok (dst ++ [buf']), rest)
              end
          | None =>
              match line with
              | EmptyString => (Err csv_ErrQuote, rest)
              | _ =>
                  match csv_readLine rest with
                  | Some (l, rest') =>
                      csv_parseField fuel' l rest' dst (Some (buf ++ line)%string)
                  | None =>
                      csv_parseField fuel' EmptyString EmptyString dst
                                     (Some (buf ++ line)%string)
                  end
              end
          end
      end
  end.

(** The state of a [csv.Reader]: the unread input and [FieldsPerRecord],
    which is 0 until the first record sets it. *)
Record csvReader : Type := mkReader {
  crInput : string;
  FieldsPerRecord : nat
}.

Definition csv_NewReader (input : string) : csvReader := mkReader input 0.

(** The first line of the input that is not empty; [None] is io.EOF. *)
Fixpoint csv_nextLine (fuel : nat) (input : string) : option (string * string) :=
  match fuel with
  | 0 => None
  | S fuel' =>
      match csv_readLine input with
      | None => None
      | Some (line, rest) =>
          if onlyNL line then csv_nextLine fuel' rest else Some (line, rest)
      end
  end.

(** [func (r *Reader) Read() (record []string, err error)] *)
Definition csv_Read (cr : csvReader) : result (list string) * csvReader :=
  let n := String.length (crInput cr) in
  match csv_nextLine (S n) (crInput cr) with
  | None => (Err io_EOF, mkReader EmptyString (FieldsPerRecord cr))
  | Some (line, rest) =>
      let (res, rest') := csv_parseField (S (S n)) line rest [] None in
      match res with
      | Err e => (Err e, mkReader rest' (FieldsPerRecord cr))
      | Ok rec =>
          if 0 <? FieldsPerRecord cr then
            if List.length rec =? FieldsPerRecord cr
            then (Ok rec, mkReader rest' (FieldsPerRecord cr))
            else (Err csv_ErrFieldCount, mkReader rest' (FieldsPerRecord cr))
          else (Ok rec, mkReader rest' (List.length rec))
      end
  end.

(* ===================================================================== *)
(** * The table store (tablerow.go) *)
(* ===================================================================== *)

(** The [less] function that [writeTable] hands to [sort.Slice]: newest
    date first, and the greater version first among rows of one date.
    Go compares strings byte by byte, as [String.ltb] does. *)
Definition rowLess (a b : tableRow) : bool :=
  if String.eqb (Date a) (Date b)
  then String.ltb (Version b) (Version a)
  else String.ltb (Date b) (Date a).

(** The inner loop of [insertionSortLessFunc],
    [for j := i; j > a && less(data[j], data[j-1]); j-- { swap(j, j-1) }]:
    [x] is the element [data[i]] and [before] the elements in front of
    it, the nearest one first; [x] moves to the front past every element
    that it is less than, and stops at the first one that it is not less
    than. *)
Fixpoint insertBy {A : Type} (less : A -> A -> bool) (x : A) (before : list A)
  : list A :=
  match before with
  | [] => [x]
  | y :: before' =>
      if less x y then y :: insertBy less x before' else x :: before
  end.

(** [insertionSortLessFunc(data, 0, len)]: the outer loop takes the
    elements from the first to the last; the part of the slice that is
    done is held with its last element first. *)
Definition insertionSortLessFunc {A : Type} (less : A -> A -> bool) (l : list A)
  : list A :=
  rev (fold_left (fun before x => insertBy less x before) l []).

(** [sort.Slice(rows, less)].  On a slice of at most twelve elements the
    library runs [insertionSortLessFunc], which leaves elements that
    [less] does not tell apart in the order they had.  On a longer slice
    it runs a pattern-defeating quicksort, which gives the same result
    when [less] is a strict order that tells all the elements apart, and
    which promises nothing about the order of the others; no statement
    below about a slice of any length depends on the order of elements
    that [less] does not tell apart. *)
Definition sort_Slice {A : Type} (less : A -> A -> bool) (l : list A) : list A :=
  insertionSortLessFunc less l.

(** [fmt.Sprintf("**%s**", s)] *)
Definition bold (s : string) : string := ("**" ++ s ++ "**")%string.

(** The two variables that the formatting loop of [writeTable] carries
    from one row to the next. *)
Record minors : Type := mkMinors {
  prevRunMinor : string;
  prevSynMinor : string
}.

(** The minor identifier of a runtime: the "go1.2" style with one dot is
    taken whole, every other string is cut at its last dot. *)
Definition runMinorOf (runtime : string) : outcome string :=
  if strings_Count runtime "." =? 1 then Returns runtime
  else slice_to runtime (strings_LastIndex runtime ".").

Definition synMinorOf (version : string) : outcome string :=
  slice_to version (strings_LastIndex version ".").

(** One turn of the formatting loop on the row [r]. *)
Definition boldRow (st : minors) (r : tableRow) : outcome (minors * tableRow) :=
  match runMinorOf (Runtime r) with
  | Panics msg => Panics msg
  | Returns runMinor =>
      let changedRun := negb (String.eqb runMinor (prevRunMinor st)) in
      let prevRun := if changedRun then runMinor else prevRunMinor st in
      let runtime := if changedRun then bold (Runtime r) else Runtime r in
      match synMinorOf (Version r) with
      | Panics msg => Panics msg
      | Returns synMinor =>
          let changedSyn := negb (String.eqb synMinor (prevSynMinor st)) in
          let prevSyn := if changedSyn then synMinor else prevSynMinor st in
          let version := if changedSyn then bold (Version r) else Version r in
          Returns (mkMinors prevRun prevSyn,
                   {| Version := version; Runtime := runtime; Date := Date r |})
      end
  end.

(** [for i := len(rows) - 1; i >= 0; i-- { ... }]: the last row is
    formatted first, so the rows behind a row are done before it. *)
Fixpoint boldRows (rows : list tableRow) : outcome (minors * list tableRow) :=
  match rows with
  | [] => Returns (mkMinors "" "", [])
  | r :: rest =>
      match boldRows rest with
      | Panics msg => Panics msg
      | Returns (st, rest') =>
          match boldRow st r with
          | Panics msg => Panics msg
          | Returns (st', r') => Returns (st', r' :: rest')
          end
      end
  end.

(** The slice [rows] as [writeTable] leaves it before it starts to write:
    sorted, then formatted. *)
Definition formatRows (rows : list tableRow) : outcome (list tableRow) :=
  match boldRows (sort_Slice rowLess rows) with
  | Panics msg => Panics msg
  | Returns (_, rows') => Returns rows'
  end.

(** [func writeTable(w io.Writer, rows []tableRow) error]: the bytes
    written to [w], a buffer that takes every byte. *)
Definition writeTable (rows : list tableRow) : outcome string :=
  match formatRows rows with
  | Panics msg => Panics msg
  | Returns rows' =>
      Returns (csv_Write tableHeader
               ++ String.concat "" (map (fun r => csv_Write (toStrings r)) rows'))%string
  end.

Definition error_eqb (a b : error) : bool :=
  match a, b with
  | errorString x, errorString y => String.eqb x y
  | pkgError p x, pkgError q y => String.eqb p q && String.eqb x y
  | _, _ => false
  end.

(** The loop of [readTable]; [rows] is the slice built so far. *)
Fixpoint readTable_loop (fuel : nat) (cr : csvReader) (rows : list tableRow)
  : result (list tableRow) :=
  match fuel with
  | 0 => Err fuelError
  | S fuel' =>
      match csv_Read cr with
      | (Err e, _) => if error_eqb e io_EOF then Ok rows else Err e
      | (Ok ss, cr') =>
          match ss with
          | [] => readTable_loop fuel' cr' rows
          | s0 :: _ =>
              if String.eqb s0 (hd "" tableHeader)
              then readTable_loop fuel' cr' rows
              else match fromStrings ss with
                   | Err e => Err e
                   | Ok row => readTable_loop fuel' cr' (rows ++ [row])
                   end
          end
      end
  end.

(** [func readTable(r io.Reader) ([]tableRow, error)] on the bytes of [r].
    A call of [csv_Read] that returns a record takes at least one byte of
    the input, so the loop runs at most [String.length input] times
    before the call that reports the end of the input. *)
Definition readTable (input : string) : result (list tableRow) :=
  readTable_loop (S (String.length input)) (csv_NewReader input) [].

(* ===================================================================== *)
(** * The [path] and [path/filepath] packages *)
(* ===================================================================== *)

Definition string_of_rev (l : list ascii) : string :=
  string_of_list_ascii (rev l).

(** The ".." case of [path.Clean] when it can backtrack: [out.w--], then
    again while [out.w > dotdot] and the byte just dropped is no slash.
    The buffer is kept in reverse. *)
Fixpoint cleanBacktrack (rout : list ascii) (dotdot : nat) : list ascii :=
  match rout with
  | [] => []
  | c :: rest =>
      if (dotdot <? List.length rest) && negb (Ascii.eqb c "/")
      then cleanBacktrack rest dotdot
      else rest
  end.

Definition atElementEnd (p : string) : bool :=
  match p with
  | EmptyString => true
  | String c _ => Ascii.eqb c "/"
  end.

(** The main loop of [path.Clean] over the unread part [p] of the path.
    [inElem] holds while the inner loop copies a path element; [rout] is
    the output buffer in reverse and [dotdot] the length below which the
    buffer must not shrink. *)
Fixpoint cleanLoop (p : string) (rooted inElem : bool) (rout : list ascii)
         (dotdot : nat) : list ascii :=
  match p with
  | EmptyString => rout
  | String c p' =>
      let element :=
        let rout1 :=
          if (rooted && negb (List.length rout =? 1))
             || (negb rooted && negb (List.length rout =? 0))
          then "/"%char :: rout else rout in
        cleanLoop p' rooted true (c :: rout1) dotdot in
      if inElem then
        if Ascii.eqb c "/" then cleanLoop p' rooted false rout dotdot
        else cleanLoop p' rooted true (c :: rout) dotdot
      else if Ascii.eqb c "/" then cleanLoop p' rooted false rout dotdot
      else if Ascii.eqb c "." && atElementEnd p' then
        cleanLoop p' rooted false rout dotdot
      else if Ascii.eqb c "." then
        match p' with
        | String c' p'' =>
            if Ascii.eqb c' "." && atElementEnd p'' then
              if dotdot <? List.length rout then
                cleanLoop p'' rooted false (cleanBacktrack rout dotdot) dotdot
              else if negb rooted then
                let rout1 := if 0 <? List.length rout then "/"%char :: rout else rout in
                let rout2 := "."%char :: "."%char :: rout1 in
                cleanLoop p'' rooted false rout2 (List.length rout2)
              else cleanLoop p'' rooted false rout dotdot
            else element
        | EmptyString => element
        end
      else element
  end.

(** [path.Clean] *)
Definition path_Clean (p : string) : string :=
  match p with
  | EmptyString => "."
  | String c p' =>
      let rout :=
        if Ascii.eqb c "/" then cleanLoop p' true false ["/"%char] 1
        else cleanLoop p false false [] 0 in
      match rout with
      | [] => "."
      | _ => string_of_rev rout
      end
  end.

(** [path.Dir]: [Clean] of the part up to and with the last slash. *)
Definition path_Dir (p : string) : string :=
  let i := strings_LastIndex p "/" in
  path_Clean (substring 0 (Z.to_nat (i + 1)) p).

(** [path.Base] *)
Definition path_Base (p : string) : string :=
  if String.eqb p "" then "."
  else
    let p1 := trimRightByte p "/" in
    let i := strings_LastIndex p1 "/" in
    let p2 := if (0 <=? i)%Z
              then substring (Z.to_nat (i + 1)) (String.length p1) p1 else p1 in
    if String.eqb p2 "" then "/" else p2.

(** [filepath.Ext] (with the slash as the only separator): the text from
    the last dot of the last element on, empty without such a dot. *)
Definition filepath_Ext (p : string) : string :=
  let i := strings_LastIndex p "." in
  let j := strings_LastIndex p "/" in
  if ((0 <=? i) && (j <? i))%Z
  then substring (Z.to_nat i) (String.length p) p else "".

(* ===================================================================== *)
(** * [time.Time.Format] on layouts of numeric date and clock fields *)
(* ===================================================================== *)

Record time : Type := mkTime {
  year : Z;
  month : nat;     (* 1 .. 12 *)
  day : nat;       (* 1 .. 31 *)
  hour : nat;
  minute : nat;
  second : nat
}.

Inductive stdChunk : Type :=
| stdLongYear        (* 2006 *)
| stdYear            (* 06 *)
| stdZeroMonth       (* 01 *)
| stdNumMonth        (* 1 *)
| stdZeroDay         (* 02 *)
| stdDay             (* 2 *)
| stdHour            (* 15 *)
| stdZeroMinute      (* 04 *)
| stdMinute          (* 4 *)
| stdZeroSecond      (* 05 *)
| stdSecond          (* 5 *)
| stdLiteral (c : ascii).

(** [nextStdChunk], applied until the layout is used up.  The reference
    time is Mon Jan 2 15:04:05 2006: in a layout "01" stands for the
    month and "02" for the day of the month.  [None] marks a layout with
    an element outside the numeric ones above (names of months and days,
    12-hour clock, time zones, fractions of a second, day of the year). *)
Fixpoint time_chunks (fuel : nat) (layout : string) : option (list stdChunk) :=
  match fuel with
  | 0 => None
  | S fuel' =>
      let more (c : stdChunk) (l : string) :=
        option_map (cons c) (time_chunks fuel' l) in
      match layout with
      | EmptyString => Some []
      | String "2" (String "0" (String "0" (String "6" l))) => more stdLongYear l
      | String "2" l => more stdDay l
      | String "0" (String "1" l) => more stdZeroMonth l
      | String "0" (String "2" l) => more stdZeroDay l
      | String "0" (String "4" l) => more stdZeroMinute l
      | String "0" (String "5" l) => more stdZeroSecond l
      | String "0" (String "6" l) => more stdYear l
      | String "0" (String "3" _) => None
      | String "0" (String "0" (String "2" _)) => None
      | String "1" (String "5" l) => more stdHour l
      | String "1" l => more stdNumMonth l
      | String "4" l => more stdMinute l
      | String "5" l => more stdSecond l
      | String "-" (String "0" (String "7" _)) => None
      | String c l =>
          if existsb (Ascii.eqb c)
                     ["J"; "M"; "_"; "P"; "p"; "Z"; "."; ","; "3"]%char
          then None
          else more (stdLiteral c) l
      end
  end.

Definition decimal (n : nat) : string :=
  DecimalString.NilEmpty.string_of_uint (Nat.to_uint n).

Fixpoint zeros (n : nat) : string :=
  match n with
  | 0 => EmptyString
  | S n' => String "0" (zeros n')
  end.

(** [appendInt(b, x, width)]: decimal, padded with zeros to [width]. *)
Definition appendInt (x : Z) (width : nat) : string :=
  let digits := decimal (Z.abs_nat x) in
  ((if (x <? 0)%Z then "-" else "")
   ++ zeros (width - String.length digits) ++ digits)%string.

Definition formatChunk (t : time) (c : stdChunk) : string :=
  match c with
  | stdLongYear => appendInt (year t) 4
  | stdYear => appendInt (Z.abs (year t) mod 100) 2
  | stdZeroMonth => appendInt (Z.of_nat (month t)) 2
  | stdNumMonth => appendInt (Z.of_nat (month t)) 0
  | stdZeroDay => appendInt (Z.of_nat (day t)) 2
  | stdDay => appendInt (Z.of_nat (day t)) 0
  | stdHour => appendInt (Z.of_nat (hour t)) 2
  | stdZeroMinute => appendInt (Z.of_nat (minute t)) 2
  | stdMinute => appendInt (Z.of_nat (minute t)) 0
  | stdZeroSecond => appendInt (Z.of_nat (second t)) 2
  | stdSecond => appendInt (Z.of_nat (second t)) 0
  | stdLiteral a => str1 a
  end.

(** [func (t Time) Format(layout string) string] *)
Definition time_Format (t : time) (layout : string) : option string :=
  match time_chunks (S (String.length layout)) layout with
  | None => None
  | Some cs => Some (String.concat "" (map (formatChunk t) cs))
  end.

(* ===================================================================== *)
(** * The world around the resolver (synver.go) *)
(* ===================================================================== *)

(** An [io.Reader]: it hands out [rdBytes] and then reports the end of the
    stream ([rdErr = None]) or the read error [rdErr]. *)
Record reader : Type := mkRd {
  rdBytes : string;
  rdErr : option error
}.

(** An entry [*zip.File] of a zip archive: its name and what [Open] returns. *)
Record zipFile : Type := mkZipFile {
  zfName : string;
  zfOpen : result reader
}.

(** What a [tar.Reader] over a gzip stream delivers: the entries that
    [Next] returns one by one, each with its contents, and the error with
    which [Next] answers after the last of them - [io_EOF] at the regular
    end of an archive, some other error when the stream is damaged. *)
Record tarStream : Type := mkTar {
  tarEntries : list (string * reader);
  tarEnd : error
}.

(** The temporary directory: the files in it, by name, with contents. *)
Definition fs : Type := list (string * string).

Definition fs_exists (name : string) (files : fs) : bool :=
  existsb (fun f => String.eqb (fst f) name) files.

Definition fs_remove (name : string) (files : fs) : fs :=
  filter (fun f => negb (String.eqb (fst f) name)) files.

Definition fs_write (name data : string) (files : fs) : fs :=
  (name, data) :: fs_remove name files.

(** Everything the program takes from its environment: the platform it
    was built for, the network, the archive decoders, the file system
    calls that can fail and the processes it starts. *)
Record world : Type := mkWorld {
  GOOS : string;
  GOARCH : string;
  (** [http.Get(url)] followed by [io.ReadAll(resp.Body)] *)
  http_Get : string -> result string;
  (** [zip.NewReader]: the entries [zr.File], or the error of a bad archive *)
  zip_NewReader : string -> result (list zipFile);
  (** [gzip.NewReader], which reads the gzip header, with a [tar.Reader]
      on top of it *)
  gzip_NewReader : string -> result tarStream;
  (** the name [os.CreateTemp("", "syncthing")] chooses *)
  os_CreateTemp : fs -> result string;
  os_Chmod : fs -> string -> option error;
  (** [exec.Command(name, args...).Output()] *)
  exec_Output : fs -> string -> list string -> result string
}.

(** A release of the GitHub API, as far as the program reads it. *)
Record asset : Type := mkAsset {
  Name : string;
  BrowserDownloadURL : string
}.

Record release : Type := mkRelease {
  TagName : string;
  CreatedAt : time;
  Assets : list asset
}.

(* ===================================================================== *)
(** * The prober *)
(* ===================================================================== *)

(** [func getVersionFromCommand(name string) (tableRow, error)] *)
Definition getVersionFromCommand (w : world) (name : string) (files : fs)
  : result tableRow :=
  match exec_Output w files name ["--version"] with
  | Err e => Err e
  | Ok out => fromVersion out
  end.

(** [func getVersionFromGo(name string) (tableRow, error)]: the text after
    the last space of the first line of [go version -m name]. *)
Definition getVersionFromGo (w : world) (name : string) (files : fs)
  : result tableRow :=
  match exec_Output w files "go" ["version"; "-m"; name] with
  | Err e => Err e
  | Ok out =>
      match cut byte_LF out with
      | None => Err (errorString "no version")
      | Some (line, _) =>
          let idx := strings_LastIndex line " " in
          if (idx <? 0)%Z then Err (errorString "no version")
          else Ok {| Version := "";
                     Runtime := substring (Z.to_nat (idx + 1))
                                          (String.length line) line;
                     Date := "" |}
      end
  end.

(** [func getVersionFromReader(r io.Reader) (tableRow, error)] with the
    temporary directory passed in and out.  The statement
    [defer os.Remove(fd.Name())] comes after the copy: the removal runs
    at every return that follows it and at none before it. *)
Definition getVersionFromReader (w : world) (r : reader) (files : fs)
  : result tableRow * fs :=
  match os_CreateTemp w files with
  | Err e => (Err e, files)
  | Ok name =>
      let created := fs_write name "" files in
      let copied := fs_write name (rdBytes r) created in
      match rdErr r with
      | Some e => (Err e, copied)
      | None =>
          let res :=
            match os_Chmod w copied name with
            | Some e => Err e
            | None =>
                match getVersionFromCommand w name copied with
                | Ok row => Ok row
                | Err _ => getVersionFromGo w name copied
                end
            end in
          (res, fs_remove name copied)
      end
  end.

(* ===================================================================== *)
(** * The archive extractors *)
(* ===================================================================== *)

Definition notFound : error := errorString "no syncthing binary found".

(** The test of the zip loop: [true] for an entry that is not skipped. *)
Definition zipWanted (f : zipFile) : bool :=
  negb (strings_Contains (path_Dir (zfName f)) "/")
  && String.eqb (path_Base (zfName f)) "syncthing".

(** [for _, f := range zr.File { ... }]: the entry at which the loop stops. *)
Fixpoint zipScan (files : list zipFile) : option zipFile :=
  match files with
  | [] => None
  | f :: rest =>
      if strings_Contains (path_Dir (zfName f)) "/" then zipScan rest
      else if negb (String.eqb (path_Base (zfName f)) "syncthing")
      then zipScan rest
      else Some f
  end.

(** [func getReleaseVersionZip(bs []byte) (tableRow, error)] *)
Definition getReleaseVersionZip (w : world) (bs : string) (files : fs)
  : result tableRow * fs :=
  match zip_NewReader w bs with
  | Err e => (Err e, files)
  | Ok entries =>
      match zipScan entries with
      | Some f =>
          match zfOpen f with
          | Err e => (Err e, files)
          | Ok rd => getVersionFromReader w rd files
          end
      | None => (Err notFound, files)
      end
  end.

(** The loop of [getReleaseVersionTarGz] over what [tr.Next()] returns:
    the entries one by one, then the error of the stream.  At that error
    the loop is left by [if err != nil { break }], at the regular end of
    the archive and at a damaged header alike: the error is not looked at. *)
Fixpoint tarScan (entries : list (string * reader)) : option reader :=
  match entries with
  | [] => None
  | (name, body) :: rest =>
      if negb (String.eqb (path_Base name) "syncthing")
      then tarScan rest
      else Some body
  end.

(** [func getReleaseVersionTarGz(bs []byte) (tableRow, error)] *)
Definition getReleaseVersionTarGz (w : world) (bs : string) (files : fs)
  : result tableRow * fs :=
  match gzip_NewReader w bs with
  | Err e => (Err e, files)
  | Ok tr =>
      match tarScan (tarEntries tr) with
      | Some body => getVersionFromReader w body files
      | None => (Err notFound, files)
      end
  end.

(* ===================================================================== *)
(** * The resolver and the driver *)
(* ===================================================================== *)

(** The row that [getReleaseVersion] builds from the release alone. *)
Definition seedRow (rel : release) : tableRow :=
  {| Version := TagName rel;
     Runtime := "";
     Date := match time_Format (CreatedAt rel) "2006-01-01" with
             | Some d => d
             | None => ""
             end |}.

Definition assetPrefix (w : world) : string :=
  let goos := if String.eqb (GOOS w) "darwin" then "macos" else GOOS w in
  ("syncthing-" ++ goos ++ "-" ++ GOARCH w)%string.

(** The loop over [rel.Assets]: the first asset with the prefix decides. *)
Fixpoint resolveAssets (w : world) (row : tableRow) (assets : list asset)
         (files : fs) : result tableRow * fs :=
  match assets with
  | [] => (Err (errorString "no asset found"), files)
  | a :: rest =>
      if strings_HasPrefix (Name a) (assetPrefix w) then
        match http_Get w (BrowserDownloadURL a) with
        | Err e => (Err e, files)
        | Ok bs =>
            let (res, files') :=
              if String.eqb (filepath_Ext (Name a)) ".zip"
              then getReleaseVersionZip w bs files
              else getReleaseVersionTarGz w bs files in
            match res with
            | Err e => (Err e, files')
            | Ok r => (Ok (merge row r), files')
            end
        end
      else resolveAssets w row rest files
  end.

(** [func getReleaseVersion(rel *github.RepositoryRelease) (tableRow, error)] *)
Definition getReleaseVersion (w : world) (rel : release) (files : fs)
  : result tableRow * fs :=
  resolveAssets w (seedRow rel) (Assets rel) files.

(** The set [seen] of [main]: the versions of the table as it was loaded. *)
Definition seenVersions (table : list tableRow) : list string :=
  map Version table.

Definition isSeen (seen : list string) (tag : string) : bool :=
  existsb (String.eqb tag) seen.

(** The loop of [main] over the releases: a release that is resolved adds
    its row to the table, one that is not is logged and left out. *)
Fixpoint resolveAll (w : world) (seen : list string) (releases : list release)
         (table : list tableRow) (files : fs) : list tableRow * fs :=
  match releases with
  | [] => (table, files)
  | rel :: rest =>
      if isSeen seen (TagName rel) then resolveAll w seen rest table files
      else
        match getReleaseVersion w rel files with
        | (Err _, files') => resolveAll w seen rest table files'
        | (Ok row, files') => resolveAll w seen rest (table ++ [row]) files'
        end
  end.

(** What [os.Open] of the versions file returns. *)
Inductive opened : Type :=
| NotExist                 (* an error with [os.IsNotExist(err)] *)
| OpenError (e : error)    (* any other error *)
| Opened (fd : reader).    (* the file *)

(** The versions file as [main] meets it: what [os.Open] returns, the
    error of [os.Create], the error of a write to the created file and
    the error of its [Close], if any. *)
Record disk : Type := mkDisk {
  os_Open : opened;
  os_Create : option error;
  tw_Write : option error;
  tw_Close : option error
}.

(** [readTable(fd)] on the file.  When a read of the file fails,
    [readTable] returns an error: the one of the read, unless a record in
    front of it has one of its own; [main] does not tell the two apart,
    and the model gives the one of the read. *)
Definition readTable_fd (fd : reader) : result (list tableRow) :=
  match rdErr fd with
  | Some e => Err e
  | None => readTable (rdBytes fd)
  end.

(** [writeTable(tw, table)] on a writer whose writes fail with [wr], if
    they fail: the table is sorted and formatted before the first byte is
    written, and an error of a write is what [writeTable] returns. *)
Definition writeTable_to (wr : option error) (rows : list tableRow)
  : outcome (result string) :=
  match writeTable rows with
  | Panics msg => Panics msg
  | Returns contents =>
      match wr with
      | Some e => Returns (Err e)
      | None => Returns (Ok contents)
      end
  end.

(** What a run of [main] ends with. *)
Inductive exit : Type :=
| Fatal (msg : string)          (* log.Fatalln *)
| Written (contents : string).  (* the versions file after the run *)

(** [func main()].  [releases] is what [getReleases] returns and [d] the
    versions file. *)
Definition main (w : world) (releases : result (list release))
           (d : disk) (files : fs) : outcome exit :=
  match releases with
  | Err _ => Returns (Fatal "Listing GitHub releases:")
  | Ok rels =>
      let loaded :=
        match os_Open d with
        | NotExist => Ok []
        | OpenError e => Err e
        | Opened fd => readTable_fd fd
        end in
      match loaded with
      | Err _ => Returns (Fatal "Reading existing versions:")
      | Ok table =>
          let (table', _) := resolveAll w (seenVersions table) rels table files in
          match os_Create d with
          | Some _ => Returns (Fatal "Creating versions table:")
          | None =>
              match writeTable_to (tw_Write d) table' with
              | Panics msg => Panics msg
              | Returns (Err _) => Returns (Fatal "Writing versions table:")
              | Returns (Ok contents) =>
                  match tw_Close d with
                  | Some _ => Returns (Fatal "Writing versions table:")
                  | None => Returns (Written contents)
                  end
              end
          end
      end
  end.

(* ===================================================================== *)
(** * Predicates of the statements *)
(* ===================================================================== *)

(** A row is fit for the formatting pass when its version and its
    runtime both hold a dot. *)
Definition hasDots (r : tableRow) : bool :=
  strings_Contains (Version r) "." && strings_Contains (Runtime r) ".".

(* ===================================================================== *)
(** * Concrete worlds and inputs for the examples *)
(* ===================================================================== *)

Definition fs_read (name : string) (files : fs) : option string :=
  match find (fun f => String.eqb (fst f) name) files with
  | Some f => Some (snd f)
  | None => None
  end.

Definition zip_ErrFormat : error := pkgError "archive/zip" "not a valid zip file".
Definition gzip_ErrHeader : error := pkgError "compress/gzip" "invalid header".
Definition tar_ErrHeader : error := pkgError "archive/tar" "invalid tar header".
Definition io_ErrUnexpectedEOF : error := pkgError "io" "unexpected EOF".

(** A small world: a Linux host without network on which no archive can
    be decoded.  A file that is run with [--version] prints its own
    bytes; the [go] tool is not installed. *)
Definition quietWorld : world :=
  {| GOOS := "linux";
     GOARCH := "amd64";
     http_Get := fun _ => Err (pkgError "net/http" "no such host");
     zip_NewReader := fun _ => Err zip_ErrFormat;
     gzip_NewReader := fun _ => Err gzip_ErrHeader;
     os_CreateTemp := fun _ => Ok "/tmp/syncthing2718281828";
     os_Chmod := fun _ _ => None;
     exec_Output := fun files name args =>
       if String.eqb name "go"
       then Err (pkgError "os/exec" "executable file not found in $PATH")
       else match fs_read name files with
            | Some data => Ok data
            | None => Err (pkgError "os/exec" "no such file or directory")
            end |}.

(** The same world with a network that serves [bs] for every URL and
    archive decoders that read every download as [entries] and [tr]. *)
Definition servingWorld (bs : string) (entries : result (list zipFile))
           (tr : result tarStream) : world :=
  {| GOOS := GOOS quietWorld;
     GOARCH := GOARCH quietWorld;
     http_Get := fun _ => Ok bs;
     zip_NewReader := fun _ => entries;
     gzip_NewReader := fun _ => tr;
     os_CreateTemp := os_CreateTemp quietWorld;
     os_Chmod := os_Chmod quietWorld;
     exec_Output := exec_Output quietWorld |}.

(** A versions file that does not exist yet and can be created and
    written, and one that holds [contents] and can be written again. *)
Definition newFile : disk :=
  {| os_Open := NotExist; os_Create := None; tw_Write := None; tw_Close := None |}.

Definition fileWith (contents : string) : disk :=
  {| os_Open := Opened (mkRd contents None);
     os_Create := None; tw_Write := None; tw_Close := None |}.

Definition olderBanner : string :=
  "syncthing v0.14.52 (go1.11.2 linux-amd64) jb@build 2018-11-20 09:12:44 UTC ".

Definition nestedEntry : zipFile :=
  mkZipFile "bin/syncthing" (Ok (mkRd olderBanner None)).

Definition topEntry : zipFile :=
  mkZipFile "syncthing" (Ok (mkRd sampleBanner None)).

Definition release_v1_23_1 : release :=
  {| TagName := "v1.23.1";
     CreatedAt := mkTime 2023 1 12 3 30 17;
     Assets := [mkAsset "syncthing-linux-amd64-v1.23.1.tar.gz"
                        "https://example.org/syncthing-linux-amd64-v1.23.1.tar.gz"] |}.

Definition release_without_assets : release :=
  {| TagName := "v1.0.0";
     CreatedAt := mkTime 2015 5 3 10 0 0;
     Assets := [mkAsset "syncthing-source-v1.0.0.tar.gz"
                        "https://example.org/syncthing-source-v1.0.0.tar.gz"] |}.

(** ** Predicates of the round trip through the store *)

Definition startsLF (s : string) : bool :=
  match s with
  | String b _ => Ascii.eqb b byte_LF
  | EmptyString => false
  end.

(** No carriage return of [s] is followed by a newline. *)
Fixpoint noCRLF (s : string) : bool :=
  match s with
  | EmptyString => true
  | String a t => negb (Ascii.eqb a byte_CR && startsLF t) && noCRLF t
  end.

(** A field that the store gives back as it is: without a carriage
    return before a newline and without an emphasis marker at either end. *)
Definition keptField (f : string) : bool :=
  noCRLF f && String.eqb (strings_Trim f "*") f.

Definition storable (r : tableRow) : bool :=
  hasDots r && keptField (Version r) && keptField (Runtime r) && keptField (Date r).

(** The row that [fromStrings] makes of the fields of a written row. *)
Definition stripRow (r : tableRow) : tableRow :=
  {| Version := strings_Trim (Version r) "*";
     Runtime := strings_Trim (Runtime r) "*";
     Date := strings_Trim (Date r) "*" |}.

(** The current line and the input behind it, for the input [x]. *)
Definition lineOf (x : string) : string := fst (splitLine x).
Definition restOf (x : string) : string := snd (splitLine x).

Definition hasLF (s : string) : bool := anyByte (fun c => Ascii.eqb c byte_LF) s.

(** The turns of [csv_parseField] inside a quoted field: one for each
    quote and each newline of the field, and one for the closing quote. *)
Fixpoint quotedTurns (f : string) : nat :=
  match f with
  | EmptyString => 0
  | String c t =>
      if Ascii.eqb c byte_dquote || Ascii.eqb c byte_LF
      then S (quotedTurns t) else quotedTurns t
  end.

Definition fieldTurns (f : string) : nat :=
  if csv_fieldNeedsQuotes f then S (S (quotedTurns f)) else 1.

Fixpoint recordTurns (fields : list string) : nat :=
  match fields with
  | [] => 0
  | f :: fs => fieldTurns f + recordTurns fs
  end.

(** What the writer puts behind a field: the fields that follow, each
    after a comma, and the newline that ends the record; [t] is the rest
    of the output. *)
Fixpoint recordTail (fields : list string) (t : string) : string :=
  match fields with
  | [] => String byte_LF t
  | f :: fs => String "," (csv_writeField f ++ recordTail fs t)
  end.

(** What [csv_parseField] goes on with behind a field: the next field
    after a comma, the end of the record after a newline. *)
Definition afterField (k : string) (dst : list string) (fuel : nat)
  : result (list string) * string :=
  match k with
  | String c k1 =>
      if Ascii.eqb c ","
      then csv_parseField fuel (lineOf k1) (restOf k1) dst None
      else (Ok dst, k1)
  | EmptyString => (Ok dst, EmptyString)
  end.

(** The text behind a field starts with a comma or a newline, has a
    newline, and no carriage return of it is followed by a newline. *)
Definition fieldEnd (k : string) : bool :=
  match k with
  | String c _ => Ascii.eqb c "," || Ascii.eqb c byte_LF
  | EmptyString => false
  end && hasLF k && noCRLF k.

Definition tableBody (rows : list tableRow) : string :=
  String.concat "" (map (fun r => csv_Write (toStrings r)) rows).

(** A written row that [readTable] takes for a row of the table: its
    fields are without a carriage return before a newline and its
    version is not the first word of the header. *)
Definition readable (r : tableRow) : bool :=
  noCRLF (Version r) && noCRLF (Runtime r) && noCRLF (Date r)
  && negb (String.eqb (Version r) "Version").
(** An ordinary name of a directory: not empty, without slash, and not
    starting with a dot (so neither "." nor ".."). *)
Definition plainName (d : string) : bool :=
  match d with
  | String c _ => negb (Ascii.eqb c ".")
  | EmptyString => false
  end && negb (strings_Contains d "/").

Definition release_three_assets : release :=
  {| TagName := "v1.0.0";
     CreatedAt := mkTime 2015 5 3 10 0 0;
     Assets := [mkAsset "syncthing-source-v1.0.0.tar.gz" "https://example.org/src";
                mkAsset "syncthing-linux-amd64-v1.0.0.tar.gz" "https://example.org/tgz";
                mkAsset "syncthing-linux-amd64-v1.0.0.zip" "https://example.org/zip"] |}.

(** A world in which no downloaded file can be run, and in which the
    [go] tool reports the build information of the file it is given. *)
Definition goToolWorld : world :=
  {| GOOS := GOOS quietWorld;
     GOARCH := GOARCH quietWorld;
     http_Get := http_Get quietWorld;
     zip_NewReader := zip_NewReader quietWorld;
     gzip_NewReader := gzip_NewReader quietWorld;
     os_CreateTemp := os_CreateTemp quietWorld;
     os_Chmod := os_Chmod quietWorld;
     exec_Output := fun _ name args =>
       if String.eqb name "go"
       then Ok (last args "" ++ ": go1.25.7" ++ str1 byte_LF
                ++ "path cmd/syncthing" ++ str1 byte_LF)%string
       else Err (pkgError "os/exec" "exec format error") |}.

(** A row whose fields the CSV reader gives back as they were written. *)
Definition csvSafe (r : tableRow) : bool :=
  noCRLF (Version r) && noCRLF (Runtime r) && noCRLF (Date r).

Definition notHeader (r : tableRow) : bool :=
  negb (String.eqb (Version r) "Version").

(** The last string of a list that is not empty, and the empty string
    when there is none. *)
Definition lastNonEmpty (l : list string) : string :=
  match find (fun s => negb (String.eqb s "")) (rev l) with
  | Some s => s
  | None => ""
  end.

(** A written row [r'] is the row [r] when the emphasis is left aside:
    the date is that of [r], and the version and the runtime are those
    of [r], plain or emphasised. *)
Definition sameRow (r r' : tableRow) : Prop :=
  Date r' = Date r
  /\ (Version r' = Version r \/ Version r' = bold (Version r))
  /\ (Runtime r' = Runtime r \/ Runtime r' = bold (Runtime r)).

(** The order of two rows of the file, the first one above the second:
    the date does not grow, and neither does the version among rows of
    one date. *)
Definition inFileOrder (a b : tableRow) : Prop :=
  String.ltb (Date a) (Date b) = false
  /\ (Date a = Date b -> String.ltb (Version a) (Version b) = false).

(** The minor identifiers that the formatting loop compares, for a
    version and a runtime with a dot. *)
Definition synMinor (version : string) : string :=
  substring 0 (Z.to_nat (strings_LastIndex version ".")) version.

Definition runMinor (runtime : string) : string :=
  if strings_Count runtime "." =? 1 then runtime
  else substring 0 (Z.to_nat (strings_LastIndex runtime ".")) runtime.

(** The rule of the emphasis without the variables of the loop: a field
    is emphasised when its minor identifier differs from that of the row
    below it, and in the last row when its minor identifier is not
    empty. *)
Fixpoint emphasised (rows rows' : list tableRow) : Prop :=
  match rows, rows' with
  | [], [] => True
  | r :: rest, r' :: rest' =>
      Version r'
      = (if String.eqb (synMinor (Version r))
                       (match rest with
                        | [] => ""
                        | below :: _ => synMinor (Version below)
                        end)
         then Version r else bold (Version r))
      /\ Runtime r'
         = (if String.eqb (runMinor (Runtime r))
                          (match rest with
                           | [] => ""
                           | below :: _ => runMinor (Runtime below)
                           end)
            then Runtime r else bold (Runtime r))
      /\ Date r' = Date r
      /\ emphasised rest rest'
  | _, _ => False
  end.

(** ** The language of a regular expression *)

(** The strings that a regular expression matches as a whole. *)
Inductive lang : regex -> string -> Prop :=
| lang_empty : lang reEmpty EmptyString
| lang_lit (c : ascii) : lang (reLit c) (str1 c)
| lang_digit (c : ascii) : isDigit c = true -> lang reDigit (str1 c)
| lang_any (c : ascii) : Ascii.eqb c byte_LF = false -> lang reAny (str1 c)
| lang_cat (r1 r2 : regex) (a b : string) :
    lang r1 a -> lang r2 b -> lang (reCat r1 r2) (a ++ b)
| lang_star_nil (r : regex) : lang (reStar r) EmptyString
| lang_star_cons (r : regex) (a b : string) :
    lang r a -> lang (reStar r) b -> lang (reStar r) (a ++ b)
| lang_quest_none (r : regex) : lang (reQuest r) EmptyString
| lang_quest_some (r : regex) (a : string) : lang r a -> lang (reQuest r) a
| lang_cap (i : nat) (r : regex) (a : string) : lang r a -> lang (reCap i r) a.

(** The capturing groups of an expression, with their numbers. *)
Fixpoint capsOf (r : regex) : list (nat * regex) :=
  match r with
  | reCat r1 r2 => capsOf r1 ++ capsOf r2
  | reStar r1 => capsOf r1
  | reQuest r1 => capsOf r1
  | reCap i r1 => (i, r1) :: capsOf r1
  | _ => []
  end.

(** The groups that take part in every match of an expression. *)
Fixpoint mustCap (r : regex) : list nat :=
  match r with
  | reCat r1 r2 => mustCap r1 ++ mustCap r2
  | reCap i r1 => i :: mustCap r1
  | _ => []
  end.

(** A register that holds the offsets of a piece of the subject which
    the group of its number matches. *)
Definition capValid (top : regex) (subj : string) (e : nat * (nat * nat)) : Prop :=
  exists ri pre mid post,
    In (fst e, ri) (capsOf top)
    /\ subj = (pre ++ mid ++ post)%string
    /\ fst (snd e) = String.length pre
    /\ snd (snd e) = String.length pre + String.length mid
    /\ lang ri mid.

(** The iteration of [rmatch] on a starred expression. *)
Definition starIter (r1 : regex) (k : nat -> string -> captures -> option captures)
  : nat -> nat -> string -> captures -> option captures :=
  fix iter (n : nat) (pos : nat) (s : string) (cs : captures) : option captures :=
    match n with
    | 0 => k pos s cs
    | S n' =>
        match rmatch r1 pos s cs
                (fun pos' s' cs' =>
                   if pos <? pos' then iter n' pos' s' cs' else None)
        with
        | Some m => Some m
        | None => k pos s cs
        end
    end.

(** What a successful run of the matcher hands to its continuation: the
    rest of the input behind a piece that the expression matches, and
    registers that are valid, keep the earlier ones and hold every group
    that takes part in every match. *)
Definition handsOver (top : regex) (subj : string) (r : regex) (done s : string)
           (cs : captures) (k : nat -> string -> captures -> option captures)
           (m : captures) : Prop :=
  exists pre s' cs',
    s = (pre ++ s')%string
    /\ lang r pre
    /\ Forall (capValid top subj) cs'
    /\ incl cs cs'
    /\ (forall i, In i (mustCap r) -> exists se, In (i, se) cs')
    /\ k (String.length done + String.length pre) s' cs' = Some m.

(** A string of decimal digits, at least one. *)
Definition allDigits (s : string) : bool :=
  negb (anyByte (fun c => negb (isDigit c)) s).

Definition digits (s : string) : bool :=
  negb (String.eqb s "") && allDigits s.

(** The three groups of [exp]. *)
Definition expVersion : regex :=
  reSeq [reLit "v"; rePlus reDigit; reLit "."; rePlus reDigit;
         reLit "."; rePlus reDigit].
Definition expRuntime : regex :=
  reSeq [reString "go"; rePlus reDigit; reLit "."; rePlus reDigit;
         reQuest (reCat (reLit ".") (rePlus reDigit))].
Definition expDate : regex :=
  reSeq [reRepeat 4 reDigit; reLit "-"; reRepeat 2 reDigit;
         reLit "-"; reRepeat 2 reDigit].
(* ===================================================================== *)
(** * Listing the releases ([getReleases]) *)
(* ===================================================================== *)

(** [t.After(u)] on two times of one zone, whose fields are in their
    ranges: the fields are compared from the year down to the second. *)
Definition time_key (t : time) : list Z :=
  [year t; Z.of_nat (month t); Z.of_nat (day t);
   Z.of_nat (hour t); Z.of_nat (minute t); Z.of_nat (second t)].

Fixpoint lexGt (a b : list Z) : bool :=
  match a, b with
  | x :: a', y :: b' => (y <? x)%Z || ((x =? y)%Z && lexGt a' b')
  | _, _ => false
  end.

Definition time_After (t u : time) : bool := lexGt (time_key t) (time_key u).

(** A [github.RepositoryRelease] as the listing gives it: the fields
    that the resolver reads, and the two that only [getReleases] reads. *)
Record listed : Type := mkListed {
  lsRelease : release;
  Prerelease : bool;
  PublishedAt : time
}.

(** [client.Repositories.ListReleases(ctx, "syncthing", "syncthing", opts)]
    as a function of [opts.Page]: the releases of the page with
    [resp.NextPage], or the error of the request. *)
Definition lister : Type := nat -> result (list listed * nat).

(** The [less] function that [getReleases] hands to [sort.Slice]. *)
Definition publishedAfter (a b : listed) : bool :=
  time_After (PublishedAt a) (PublishedAt b).

(** The loop of [getReleases] over the pages.  [opts.Page] starts as 0;
    the loop has no bound of its own, [fuel] counts the requests. *)
Fixpoint getReleases_loop (fuel : nat) (ListReleases : lister) (page : nat)
         (releases : list listed) : option (result (list listed)) :=
  match fuel with
  | 0 => None
  | S fuel' =>
      match ListReleases page with
      | Err e => Some (Err e)
      | Ok (rels, NextPage) =>
          let releases' :=
            (releases ++ filter (fun rel => negb (Prerelease rel)) rels)%list in
          if NextPage =? 0 then Some (Ok releases')
          else getReleases_loop fuel' ListReleases NextPage releases'
      end
  end.

(** [func getReleases(ctx context.Context) ([]*github.RepositoryRelease, error)] *)
Definition getReleases (fuel : nat) (ListReleases : lister)
  : option (result (list listed)) :=
  match getReleases_loop fuel ListReleases 0 [] with
  | Some (Ok releases) => Some (Ok (sort_Slice publishedAfter releases))
  | Some (Err e) => Some (Err e)
  | None => None
  end.

(** The listing hands out [pages] one after the other from [page] on,
    each with a next page, and the last of them points to page [to]. *)
Fixpoint leads (ListReleases : lister) (page : nat)
         (pages : list (list listed * nat)) (to : nat) : Prop :=
  match pages with
  | [] => page = to
  | (rels, NextPage) :: rest =>
      ListReleases page = Ok (rels, NextPage)
      /\ NextPage <> 0
      /\ leads ListReleases NextPage rest to
  end.

(** The releases of some pages that are no prereleases, in the order of
    the pages. *)
Definition stable (pages : list (list listed)) : list listed :=
  filter (fun rel => negb (Prerelease rel)) (concat pages).

(** No release stands behind one that was published before it. *)
Definition newestFirst (a b : listed) : Prop :=
  time_After (PublishedAt b) (PublishedAt a) = false.

(** A listing of two pages for the examples: a release, a prerelease and
    an older release on the first page, the newest release on the
    second; any other page is an error of the server. *)
Definition listed_v1_0_0 : listed :=
  mkListed release_without_assets false (mkTime 2015 5 3 10 15 0).
Definition listed_v1_23_1_rc : listed :=
  mkListed release_v1_23_1 true (mkTime 2023 1 5 8 0 0).
Definition listed_v0_14_52 : listed :=
  mkListed (mkRelease "v0.14.52" (mkTime 2018 11 20 9 12 44) [])
           false (mkTime 2018 11 20 9 30 0).
Definition listed_v1_23_1 : listed :=
  mkListed release_v1_23_1 false (mkTime 2023 1 12 4 0 0).

Definition twoPages : lister :=
  fun page =>
    match page with
    | 0 => Ok ([listed_v1_0_0; listed_v1_23_1_rc; listed_v0_14_52], 2)
    | 2 => Ok ([listed_v1_23_1], 0)
    | _ => Err (pkgError "github" "404 Not Found")
    end.

Definition brokenSecondPage : lister :=
  fun page =>
    match page with
    | 0 => Ok ([listed_v1_0_0; listed_v1_23_1_rc; listed_v0_14_52], 2)
    | _ => Err (pkgError "github" "502 Bad Gateway")
    end.

(* ===================================================================== *)
(** * Merging rows *)
(* ===================================================================== *)

(** C1, as stated, fails: a populated field of the first record is
    replaced by the populated field of the second one. *)
Lemma merge_overwrites_populated_field :
  let a := mkRow "v1.23.1" "" "2023-01-01" in
  let b := mkRow "v1.23.1" "go1.19.5" "2023-01-12" in
  Date a <> "" /\ Date (merge a b) <> Date a /\ Date (merge a b) = Date b.
Proof.
  cbv zeta. repeat split; try reflexivity; intro H; discriminate H.
Qed.

(** C1 (amended): every field of [merge a b] is the field of the second
    record [b] when that is not empty, and the field of [a] otherwise. *)
Theorem merge_second_record_wins (a b : tableRow) :
  Version (merge a b) = (if String.eqb (Version b) "" then Version a else Version b)
  /\ Runtime (merge a b) = (if String.eqb (Runtime b) "" then Runtime a else Runtime b)
  /\ Date (merge a b) = (if String.eqb (Date b) "" then Date a else Date b).
Proof. repeat split. Qed.

(** A field that is populated on either side is populated after the merge. *)
Lemma merge_keeps_populated (a b : tableRow) :
  (Version a <> "" -> Version (merge a b) <> "")
  /\ (Runtime a <> "" -> Runtime (merge a b) <> "")
  /\ (Date a <> "" -> Date (merge a b) <> "").
Proof.
  unfold merge, cmp_Or; cbn.
  repeat split; intros Ha;
    match goal with
    | |- (if String.eqb ?x "" then _ else _) <> _ =>
        destruct (String.eqb_spec x ""); assumption
    end.
Qed.

Lemma merge_idempotent (r : tableRow) : merge r r = r.
Proof.
  destruct r as [v rt d]. unfold merge, cmp_Or; cbn.
  f_equal;
    match goal with
    | |- (if String.eqb ?x "" then _ else _) = _ =>
        destruct (String.eqb_spec x ""); congruence
    end.
Qed.

(* ===================================================================== *)
(** * The seed row of a release *)
(* ===================================================================== *)

Lemma layout_of_seedRow :
  time_chunks 11 "2006-01-01"
  = Some [stdLongYear; stdLiteral "-"; stdZeroMonth; stdLiteral "-"; stdZeroMonth].
Proof. reflexivity. Qed.

(** The layout of [getReleaseVersion] names the month twice and the day
    of the month not at all. *)
Lemma seedRow_date_month_twice (rel : release) :
  Date (seedRow rel)
  = (appendInt (year (CreatedAt rel)) 4 ++ "-"
     ++ appendInt (Z.of_nat (month (CreatedAt rel))) 2 ++ "-"
     ++ appendInt (Z.of_nat (month (CreatedAt rel))) 2)%string.
Proof.
  unfold seedRow, time_Format. cbn [Date String.length].
  rewrite layout_of_seedRow. cbn [map formatChunk String.concat str1].
  reflexivity.
Qed.

Lemma iso_layout_names_the_day (t : time) :
  time_Format t "2006-01-02"
  = Some (appendInt (year t) 4 ++ "-" ++ appendInt (Z.of_nat (month t)) 2
          ++ "-" ++ appendInt (Z.of_nat (day t)) 2)%string.
Proof. reflexivity. Qed.

(** C2 fails on the code: the seed row of a release created on
    2023-01-12 carries the date 2023-01-01, which is not the ISO date
    that the layout 2006-01-02 gives. *)
Theorem seedRow_date_of_2023_01_12 :
  CreatedAt release_v1_23_1 = mkTime 2023 1 12 3 30 17
  /\ Date (seedRow release_v1_23_1) = "2023-01-01"
  /\ time_Format (CreatedAt release_v1_23_1) "2006-01-02" = Some "2023-01-12"
  /\ Some (Date (seedRow release_v1_23_1))
     <> time_Format (CreatedAt release_v1_23_1) "2006-01-02".
Proof.
  repeat split. vm_compute. intro H; discriminate H.
Qed.

(* ===================================================================== *)
(** * The banner parser *)
(* ===================================================================== *)

(** The submatch slice is nil or holds the match and the three groups. *)
Lemma FindStringSubmatch_length (re : regex) (nsub : nat) (s : string) :
  List.length (regexp_FindStringSubmatch re nsub s) = 0
  \/ List.length (regexp_FindStringSubmatch re nsub s) = S nsub.
Proof.
  unfold regexp_FindStringSubmatch.
  destruct (findFrom re 0 s); [right | left; reflexivity].
  now rewrite length_map, length_seq.
Qed.

(** C8: the banner of the comment in [fromVersion] parses to
    version v1.23.1, runtime go1.19.5 and date 2023-01-12. *)
Theorem fromVersion_sampleBanner :
  fromVersion sampleBanner
  = Ok {| Version := "v1.23.1"; Runtime := "go1.19.5"; Date := "2023-01-12" |}.
Proof. vm_compute. reflexivity. Qed.

Example fromVersion_no_match :
  fromVersion "syncthing v1.23.1 unknown-dev"
  = Err (errorString "failed to parse version").
Proof. vm_compute. reflexivity. Qed.

(* ===================================================================== *)
(** * The zip extractor *)
(* ===================================================================== *)

Lemma zipScan_skips (f : zipFile) (rest : list zipFile) :
  zipWanted f = false -> zipScan (f :: rest) = zipScan rest.
Proof.
  unfold zipWanted. cbn [zipScan].
  destruct (strings_Contains (path_Dir (zfName f)) "/"); [reflexivity |].
  cbn [negb andb]. intros ->. reflexivity.
Qed.

Lemma zipScan_takes (f : zipFile) (rest : list zipFile) :
  zipWanted f = true -> zipScan (f :: rest) = Some f.
Proof.
  unfold zipWanted. cbn [zipScan].
  destruct (strings_Contains (path_Dir (zfName f)) "/"); [discriminate |].
  cbn [negb andb]. intros ->. reflexivity.
Qed.

Lemma zipScan_Some (files : list zipFile) (f : zipFile) :
  zipScan files = Some f ->
  exists before after,
    files = before ++ f :: after
    /\ (forall g, In g before -> zipWanted g = false)
    /\ zipWanted f = true.
Proof.
  induction files as [| g files IH]; [discriminate |].
  destruct (zipWanted g) eqn:Hg.
  - rewrite (zipScan_takes _ _ Hg). intros [= <-].
    exists [], files. repeat split; [| exact Hg]. intros ? [].
  - rewrite (zipScan_skips _ _ Hg). intros Hf.
    destruct (IH Hf) as (before & after & -> & Hb & Hw).
    exists (g :: before), after. repeat split; [| exact Hw].
    intros h [<- | Hh]; [exact Hg | exact (Hb h Hh)].
Qed.

Lemma zipScan_None (files : list zipFile) :
  zipScan files = None -> forall g, In g files -> zipWanted g = false.
Proof.
  induction files as [| f files IH]; [intros _ ? [] |].
  destruct (zipWanted f) eqn:Hf.
  - rewrite (zipScan_takes _ _ Hf). discriminate.
  - rewrite (zipScan_skips _ _ Hf). intros Hn g [<- | Hg]; [exact Hf | now apply IH].
Qed.

Lemma zipWanted_spec (f : zipFile) :
  zipWanted f = true ->
  path_Base (zfName f) = "syncthing"
  /\ strings_Contains (path_Dir (zfName f)) "/" = false.
Proof.
  unfold zipWanted. intros H. apply andb_prop in H as [Hd Hb].
  split; [now apply String.eqb_eq | now apply negb_true_iff].
Qed.

(** C4, as stated, fails: with [bin/syncthing] ahead of [syncthing] in
    the archive the nested entry is the one that is extracted and run. *)
Lemma zip_nested_entry_extracted :
  let w := servingWorld "PK" (Ok [nestedEntry; topEntry]) (Err gzip_ErrHeader) in
  zfName nestedEntry = "bin/syncthing"
  /\ zfName topEntry = "syncthing"
  /\ zipScan [nestedEntry; topEntry] = Some nestedEntry
  /\ getReleaseVersionZip w "PK" []
     = (Ok {| Version := "v0.14.52"; Runtime := "go1.11.2"; Date := "2018-11-20" |}, []).
Proof. cbv zeta. repeat split. Qed.

(** C4 (amended): the zip extractor takes the first entry, in the order
    of the archive, whose base name is [syncthing] and whose directory
    ([path.Dir] of its name) holds no slash; without such an entry it
    fails with the error of a missing binary.  An entry one directory
    deep passes that test, so of [bin/syncthing] and [syncthing] the one
    that comes first is taken. *)
Theorem zip_extracts_first_wanted (w : world) (bs : string)
        (entries : list zipFile) (files : fs) :
  zip_NewReader w bs = Ok entries ->
  (forall f, zipScan entries = Some f ->
     (exists before after,
        entries = before ++ f :: after
        /\ forall g, In g before -> zipWanted g = false)
     /\ path_Base (zfName f) = "syncthing"
     /\ strings_Contains (path_Dir (zfName f)) "/" = false
     /\ getReleaseVersionZip w bs files
        = match zfOpen f with
          | Err e => (Err e, files)
          | Ok rd => getVersionFromReader w rd files
          end)
  /\ (zipScan entries = None ->
      (forall g, In g entries -> zipWanted g = false)
      /\ getReleaseVersionZip w bs files = (Err notFound, files))
  /\ (forall nested top rest,
        zfName nested = "bin/syncthing" -> zfName top = "syncthing" ->
        zipScan (nested :: top :: rest) = Some nested
        /\ zipScan (top :: nested :: rest) = Some top).
Proof.
  intros Hzip. split; [| split].
  - intros f Hf.
    destruct (zipScan_Some _ _ Hf) as (before & after & He & Hb & Hw).
    destruct (zipWanted_spec _ Hw) as [Hbase Hdir].
    split; [now exists before, after |].
    split; [exact Hbase |]. split; [exact Hdir |].
    unfold getReleaseVersionZip. now rewrite Hzip, Hf.
  - intros Hn. split; [now apply zipScan_None |].
    unfold getReleaseVersionZip. now rewrite Hzip, Hn.
  - intros nested top rest Hnested Htop. split; apply zipScan_takes;
      unfold zipWanted; rewrite ?Hnested, ?Htop; reflexivity.
Qed.

Lemma zip_extracts_first_wanted_witness :
  zipScan [nestedEntry; topEntry] = Some nestedEntry
  /\ path_Base (zfName nestedEntry) = "syncthing"
  /\ zipScan [mkZipFile "README.txt" (Err io_EOF)] = None
  /\ zipScan [topEntry; nestedEntry] = Some topEntry.
Proof.
  pose (w := servingWorld "PK" (Ok [nestedEntry; topEntry]) (Err gzip_ErrHeader)).
  destruct (zip_extracts_first_wanted w "PK" [nestedEntry; topEntry] [] eq_refl)
    as (Hsome & _ & Horders).
  destruct (Hsome nestedEntry eq_refl) as (_ & Hbase & _).
  destruct (Horders nestedEntry topEntry [] eq_refl eq_refl) as [Hnested Htop].
  split; [exact Hnested |]. split; [exact Hbase |].
  split; [reflexivity | exact Htop].
Defined.

(* ===================================================================== *)
(** * The temporary file of the prober *)
(* ===================================================================== *)

Lemma fs_exists_write (name data : string) (files : fs) :
  fs_exists name (fs_write name data files) = true.
Proof. unfold fs_exists, fs_write. cbn. now rewrite String.eqb_refl. Qed.

Lemma fs_exists_remove (name : string) (files : fs) :
  fs_exists name (fs_remove name files) = false.
Proof.
  unfold fs_exists, fs_remove.
  induction files as [| [n d] files IH]; [reflexivity |].
  cbn. destruct (String.eqb n name) eqn:E; cbn; [exact IH |].
  now rewrite E.
Qed.

(** Once the copy is done, the file is gone when the call returns ... *)
Lemma getVersionFromReader_removes (w : world) (r : reader) (files : fs)
      (name : string) :
  os_CreateTemp w files = Ok name -> rdErr r = None ->
  fs_exists name (snd (getVersionFromReader w r files)) = false.
Proof.
  intros Hn Hr. unfold getVersionFromReader. rewrite Hn, Hr. cbn [snd].
  apply fs_exists_remove.
Qed.

(** ... but a copy that fails returns ahead of the [defer] statement and
    leaves the file behind. *)
Lemma getVersionFromReader_leaves (w : world) (r : reader) (files : fs)
      (name : string) (e : error) :
  os_CreateTemp w files = Ok name -> rdErr r = Some e ->
  getVersionFromReader w r files
  = (Err e, fs_write name (rdBytes r) (fs_write name "" files))
  /\ fs_exists name (snd (getVersionFromReader w r files)) = true.
Proof.
  intros Hn Hr. unfold getVersionFromReader. rewrite Hn, Hr. cbn [snd].
  split; [reflexivity | apply fs_exists_write].
Qed.

(** C5 fails on the code: when the executable's bytes end in a read
    error, the probe returns that error and the temporary file stays in
    the temporary directory. *)
Theorem temp_file_left_after_failed_copy :
  let r := mkRd "ELF" (Some io_ErrUnexpectedEOF) in
  getVersionFromReader quietWorld r []
  = (Err io_ErrUnexpectedEOF, [("/tmp/syncthing2718281828", "ELF")])
  /\ fs_exists "/tmp/syncthing2718281828"
               (snd (getVersionFromReader quietWorld r [])) = true.
Proof. cbv zeta. split; reflexivity. Qed.

Example temp_file_removed_after_probe :
  getVersionFromReader quietWorld (mkRd sampleBanner None) []
  = (Ok {| Version := "v1.23.1"; Runtime := "go1.19.5"; Date := "2023-01-12" |}, []).
Proof. vm_compute. reflexivity. Qed.

(* ===================================================================== *)
(** * The errors of the extractors *)
(* ===================================================================== *)

(** The zip extractor hands on the error of a damaged archive. *)
Lemma zip_corrupt_archive (w : world) (bs : string) (files : fs) (e : error) :
  zip_NewReader w bs = Err e -> getReleaseVersionZip w bs files = (Err e, files).
Proof. intros H. unfold getReleaseVersionZip. now rewrite H. Qed.

(** So does the tar extractor for a damaged gzip header. *)
Lemma targz_corrupt_gzip_header (w : world) (bs : string) (files : fs) (e : error) :
  gzip_NewReader w bs = Err e -> getReleaseVersionTarGz w bs files = (Err e, files).
Proof. intros H. unfold getReleaseVersionTarGz. now rewrite H. Qed.

(** The error with which the tar stream ends has no part in the result. *)
Lemma targz_ignores_stream_error (w1 w2 : world) (bs : string) (files : fs)
      (entries : list (string * reader)) (e1 e2 : error) :
  gzip_NewReader w1 bs = Ok (mkTar entries e1) ->
  gzip_NewReader w2 bs = Ok (mkTar entries e2) ->
  tarScan entries = None ->
  getReleaseVersionTarGz w1 bs files = (Err notFound, files)
  /\ getReleaseVersionTarGz w2 bs files = (Err notFound, files).
Proof.
  intros H1 H2 Hn. unfold getReleaseVersionTarGz.
  rewrite H1, H2. cbn [tarEntries]. now rewrite Hn.
Qed.

(** C6 fails on the code: a tar stream with a damaged header after its
    first entry gives the very error of an intact archive without the
    executable, while the zip extractor reports a damaged archive with
    the error of the decoder. *)
Theorem targz_corrupt_stream_reported_as_not_found :
  let readme := ("README.txt", mkRd "Syncthing" None) in
  let damaged := servingWorld "gz" (Err zip_ErrFormat) (Ok (mkTar [readme] tar_ErrHeader)) in
  let intact := servingWorld "gz" (Err zip_ErrFormat) (Ok (mkTar [readme] io_EOF)) in
  getReleaseVersionTarGz damaged "gz" [] = (Err notFound, [])
  /\ getReleaseVersionTarGz intact "gz" [] = (Err notFound, [])
  /\ notFound = errorString "no syncthing binary found"
  /\ tar_ErrHeader <> io_EOF
  /\ getReleaseVersionZip damaged "gz" [] = (Err zip_ErrFormat, []).
Proof.
  cbv zeta. repeat split. intro H; discriminate H.
Qed.

(* ===================================================================== *)
(** * Releases that cannot be resolved *)
(* ===================================================================== *)

(** C3, as stated, fails: a release without an asset for the platform
    has a seed row with version and date, its resolution fails, and no
    row of it reaches the table that is written. *)
Lemma failed_release_not_written :
  let rel := release_without_assets in
  seedRow rel = {| Version := "v1.0.0"; Runtime := ""; Date := "2015-05-05" |}
  /\ getReleaseVersion quietWorld rel [] = (Err (errorString "no asset found"), [])
  /\ resolveAll quietWorld [] [rel] [] [] = ([], [])
  /\ ~ In (seedRow rel) (fst (resolveAll quietWorld [] [rel] [] []))
  /\ main quietWorld (Ok [rel]) newFile []
     = Returns (Written ("Version,Runtime,Date" ++ str1 byte_LF)).
Proof.
  cbv zeta. repeat split. intros [].
Qed.

(** C3 (amended): a release whose resolution fails adds no row to the
    table, seed row or other; the run goes on with the releases that
    follow. *)
Theorem failed_release_is_skipped (w : world) (seen : list string)
        (rel : release) (rest : list release) (table : list tableRow)
        (files files' : fs) (e : error) :
  getReleaseVersion w rel files = (Err e, files') ->
  resolveAll w seen (rel :: rest) table files
  = resolveAll w seen rest table (if isSeen seen (TagName rel) then files else files').
Proof.
  intros H. cbn [resolveAll]. rewrite H.
  destruct (isSeen seen (TagName rel)); reflexivity.
Qed.

Lemma failed_release_is_skipped_witness :
  getReleaseVersion quietWorld release_without_assets []
  = (Err (errorString "no asset found"), [])
  /\ resolveAll quietWorld [] [release_without_assets; release_without_assets] [] []
     = resolveAll quietWorld [] [release_without_assets] [] [].
Proof.
  split; [reflexivity |].
  exact (failed_release_is_skipped quietWorld [] release_without_assets
           [release_without_assets] [] [] [] _ eq_refl).
Defined.

(** A release that is resolved adds the merged row at the end. *)
Lemma resolved_release_is_appended (w : world) (seen : list string)
      (rel : release) (rest : list release) (table : list tableRow)
      (files files' : fs) (row : tableRow) :
  isSeen seen (TagName rel) = false ->
  getReleaseVersion w rel files = (Ok row, files') ->
  resolveAll w seen (rel :: rest) table files
  = resolveAll w seen rest (table ++ [row]) files'.
Proof. intros Hs H. cbn [resolveAll]. now rewrite Hs, H. Qed.

(** The same holds when the archive was fetched and turns out damaged. *)
Example corrupt_download_not_written :
  let w := servingWorld "gz" (Err zip_ErrFormat) (Err gzip_ErrHeader) in
  resolveAll w [] [release_v1_23_1] [] [] = ([], []).
Proof. reflexivity. Qed.

(** A release that is resolved: the fields that the probe found replace
    the fields of the seed row, here its date. *)
Example resolved_row_takes_probe_fields :
  let binary := ("syncthing-linux-amd64-v1.23.1/syncthing", mkRd sampleBanner None) in
  let w := servingWorld "gz" (Err zip_ErrFormat) (Ok (mkTar [binary] io_EOF)) in
  Date (seedRow release_v1_23_1) = "2023-01-01"
  /\ getReleaseVersion w release_v1_23_1 []
     = (Ok {| Version := "v1.23.1"; Runtime := "go1.19.5"; Date := "2023-01-12" |}, []).
Proof. cbv zeta. split; vm_compute; reflexivity. Qed.

(** The table only grows: the rows that were loaded stay in place and the
    rows of the resolved releases follow them. *)
Lemma resolveAll_extends (w : world) (seen : list string) (releases : list release) :
  forall (table : list tableRow) (files : fs),
  exists added,
    fst (resolveAll w seen releases table files) = table ++ added
    /\ List.length added <= List.length releases.
Proof.
  induction releases as [| rel rest IH]; intros table files.
  - exists []. cbn. now rewrite app_nil_r.
  - cbn [resolveAll List.length].
    destruct (isSeen seen (TagName rel)).
    + destruct (IH table files) as (added & -> & Hlen).
      exists added. split; [reflexivity | lia].
    + destruct (getReleaseVersion w rel files) as [[row | e] files'].
      * destruct (IH (table ++ [row]) files') as (added & -> & Hlen).
        exists (row :: added). rewrite <- app_assoc. split; [reflexivity |].
        cbn [List.length]. lia.
      * destruct (IH table files') as (added & -> & Hlen).
        exists added. split; [reflexivity | lia].
Qed.

(* ===================================================================== *)
(** * Bytes of a string *)
(* ===================================================================== *)

Lemma strings_LastIndex_range (s : string) (c : ascii) :
  (-1 <= strings_LastIndex s c < Z.of_nat (String.length s))%Z
  \/ (strings_LastIndex s c = -1)%Z.
Proof.
  induction s as [| a s IH]; [now right |].
  cbn [strings_LastIndex String.length].
  destruct (0 <=? strings_LastIndex s c)%Z eqn:E.
  - apply Z.leb_le in E. left. lia.
  - destruct (Ascii.eqb a c); [left; lia | now right].
Qed.

Lemma strings_Count_Index (s : string) (c : ascii) :
  strings_Count s c = 0 <-> (strings_Index s c < 0)%Z.
Proof.
  induction s as [| a s IH]; cbn [strings_Count strings_Index]; [split; lia |].
  destruct (Ascii.eqb a c); [split; [discriminate | lia] |].
  destruct (strings_Index s c <? 0)%Z eqn:E.
  - apply Z.ltb_lt in E. split; [lia | intros _; now apply IH].
  - apply Z.ltb_ge in E. split; [intros H; apply IH in H; lia | lia].
Qed.

Lemma strings_Count_LastIndex (s : string) (c : ascii) :
  strings_Count s c = 0 <-> (strings_LastIndex s c < 0)%Z.
Proof.
  induction s as [| a s IH]; cbn [strings_Count strings_LastIndex]; [split; lia |].
  destruct (0 <=? strings_LastIndex s c)%Z eqn:E.
  - apply Z.leb_le in E.
    destruct (Ascii.eqb a c); split; try discriminate; lia.
  - apply Z.leb_gt in E.
    destruct (Ascii.eqb a c); split; try discriminate; lia.
Qed.

Lemma strings_Contains_false (s : string) (c : ascii) :
  strings_Contains s c = false <-> strings_LastIndex s c = (-1)%Z.
Proof.
  unfold strings_Contains. rewrite Z.leb_gt, <- strings_Count_Index,
    strings_Count_LastIndex.
  destruct (strings_LastIndex_range s c); lia.
Qed.

Lemma strings_Contains_true (s : string) (c : ascii) :
  strings_Contains s c = true <->
  (0 <= strings_LastIndex s c < Z.of_nat (String.length s))%Z.
Proof.
  destruct (strings_Contains s c) eqn:E.
  - split; [intros _ | reflexivity].
    assert (strings_LastIndex s c <> (-1)%Z) as H
      by (intros H; apply strings_Contains_false in H; congruence).
    destruct (strings_LastIndex_range s c); lia.
  - apply strings_Contains_false in E. split; [discriminate | lia].
Qed.

Lemma strings_Contains_Count (s : string) (c : ascii) :
  strings_Contains s c = false <-> strings_Count s c = 0.
Proof.
  rewrite strings_Contains_false, strings_Count_LastIndex.
  destruct (strings_LastIndex_range s c); lia.
Qed.

(* ===================================================================== *)
(** * When the formatting pass panics *)
(* ===================================================================== *)

Lemma slice_to_in_range (s : string) (i : Z) :
  (0 <= i <= Z.of_nat (String.length s))%Z ->
  slice_to s i = Returns (substring 0 (Z.to_nat i) s).
Proof.
  intros H. unfold slice_to.
  destruct (i <? 0)%Z eqn:E1; [apply Z.ltb_lt in E1; lia |].
  destruct (Z.of_nat (String.length s) <? i)%Z eqn:E2;
    [apply Z.ltb_lt in E2; lia | reflexivity].
Qed.

Lemma synMinorOf_without_dot (v : string) :
  strings_Contains v "." = false ->
  synMinorOf v = Panics "slice bounds out of range".
Proof.
  intros H. apply strings_Contains_false in H.
  unfold synMinorOf. now rewrite H.
Qed.

Lemma synMinorOf_with_dot (v : string) :
  strings_Contains v "." = true ->
  synMinorOf v = Returns (substring 0 (Z.to_nat (strings_LastIndex v ".")) v).
Proof.
  intros H. apply strings_Contains_true in H.
  unfold synMinorOf. apply slice_to_in_range. lia.
Qed.

Lemma runMinorOf_without_dot (rt : string) :
  strings_Contains rt "." = false ->
  runMinorOf rt = Panics "slice bounds out of range".
Proof.
  intros H. unfold runMinorOf.
  rewrite (proj1 (strings_Contains_Count rt ".") H). cbn [Nat.eqb].
  apply strings_Contains_false in H. now rewrite H.
Qed.

Lemma runMinorOf_with_dot (rt : string) :
  strings_Contains rt "." = true -> exists m, runMinorOf rt = Returns m.
Proof.
  intros H. unfold runMinorOf.
  destruct (strings_Count rt "." =? 1); [now exists rt |].
  apply strings_Contains_true in H.
  rewrite slice_to_in_range by lia. eauto.
Qed.

Lemma boldRow_with_dots (st : minors) (r : tableRow) :
  hasDots r = true -> exists st' r', boldRow st r = Returns (st', r').
Proof.
  unfold hasDots. intros H. apply andb_prop in H as [Hv Hr].
  unfold boldRow.
  destruct (runMinorOf_with_dot _ Hr) as [m ->].
  rewrite (synMinorOf_with_dot _ Hv). eauto.
Qed.

Lemma boldRow_without_dots (st : minors) (r : tableRow) :
  hasDots r = false -> boldRow st r = Panics "slice bounds out of range".
Proof.
  unfold hasDots. intros H. unfold boldRow.
  destruct (strings_Contains (Runtime r) ".") eqn:Hr.
  - destruct (runMinorOf_with_dot _ Hr) as [m ->].
    rewrite andb_true_r in H. now rewrite (synMinorOf_without_dot _ H).
  - now rewrite (runMinorOf_without_dot _ Hr).
Qed.

Lemma boldRows_with_dots (rows : list tableRow) :
  forallb hasDots rows = true -> exists st rows', boldRows rows = Returns (st, rows').
Proof.
  induction rows as [| r rows IH]; cbn [forallb boldRows]; [eauto |].
  intros H. apply andb_prop in H as [Hr Hrows].
  destruct (IH Hrows) as (st & rows' & ->).
  destruct (boldRow_with_dots st r Hr) as (st' & r' & ->). eauto.
Qed.

Lemma boldRows_without_dots (rows : list tableRow) :
  forallb hasDots rows = false -> boldRows rows = Panics "slice bounds out of range".
Proof.
  induction rows as [| r rows IH]; cbn [forallb boldRows]; [discriminate |].
  intros H. destruct (forallb hasDots rows) eqn:Hrows.
  - destruct (boldRows_with_dots rows Hrows) as (st & rows' & ->).
    rewrite andb_true_r in H. now rewrite (boldRow_without_dots st r H).
  - now rewrite IH.
Qed.

(** ** The sort *)

Lemma insertBy_Permutation {A : Type} (less : A -> A -> bool) (x : A) (l : list A) :
  Permutation (x :: l) (insertBy less x l).
Proof.
  induction l as [| y l IH]; cbn [insertBy]; [reflexivity |].
  destruct (less x y); [| reflexivity].
  rewrite perm_swap. now apply perm_skip.
Qed.

Lemma insertion_loop_Permutation {A : Type} (less : A -> A -> bool) (l : list A) :
  forall before,
    Permutation (l ++ before)
                (fold_left (fun before x => insertBy less x before) l before).
Proof.
  induction l as [| x l IH]; intros before; cbn [fold_left app]; [reflexivity |].
  rewrite <- IH, <- (insertBy_Permutation less x before).
  apply Permutation_middle.
Qed.

Lemma sort_Slice_Permutation {A : Type} (less : A -> A -> bool) (l : list A) :
  Permutation l (sort_Slice less l).
Proof.
  unfold sort_Slice, insertionSortLessFunc.
  rewrite <- Permutation_rev, <- insertion_loop_Permutation.
  now rewrite app_nil_r.
Qed.

(** A list in order, read from its end, is in the opposite order. *)
Lemma Sorted_rev_append {A : Type} (R : A -> A -> Prop) (l : list A) :
  forall acc,
    Sorted R l -> Sorted (fun u v => R v u) acc ->
    (forall x, hd_error l = Some x -> HdRel (fun u v => R v u) x acc) ->
    Sorted (fun u v => R v u) (rev_append l acc).
Proof.
  induction l as [| x l IH]; intros acc Hl Hacc Hhd; cbn [rev_append];
    [exact Hacc |].
  inversion Hl as [| ? ? Hs Hh]; subst. apply IH.
  - exact Hs.
  - constructor; [exact Hacc | now apply Hhd].
  - intros x' Hx'. constructor. destruct l as [| y l]; [discriminate |].
    injection Hx' as ->. now inversion Hh.
Qed.

Lemma Sorted_rev {A : Type} (R : A -> A -> Prop) (l : list A) :
  Sorted R l -> Sorted (fun u v => R v u) (rev l).
Proof.
  intros H. rewrite rev_alt. apply Sorted_rev_append; [exact H | constructor |].
  intros x _. constructor.
Qed.

(** The result is in order: no row has to come before the row ahead of
    it.  This needs no more of [less] than that it never holds both ways. *)
Section InsertionSort.
Variable A : Type.
Variable less : A -> A -> bool.
Hypothesis less_asym : forall x y, less x y = true -> less y x = false.

Lemma insertBy_HdRel (a x : A) (l : list A) :
  less a x = false ->
  HdRel (fun u v => less u v = false) a l ->
  HdRel (fun u v => less u v = false) a (insertBy less x l).
Proof.
  intros Hax Hl. destruct l as [| y l]; cbn [insertBy]; [now constructor |].
  destruct (less x y); constructor; [now inversion Hl | exact Hax].
Qed.

Lemma insertBy_Sorted (x : A) (l : list A) :
  Sorted (fun u v => less u v = false) l ->
  Sorted (fun u v => less u v = false) (insertBy less x l).
Proof.
  induction 1 as [| y l Hl IH Hy]; cbn [insertBy]; [repeat constructor |].
  destruct (less x y) eqn:E.
  - constructor; [exact IH |]. apply insertBy_HdRel; [now apply less_asym | exact Hy].
  - constructor; [now constructor |]. now constructor.
Qed.

Lemma insertion_loop_Sorted (l : list A) :
  forall before,
    Sorted (fun u v => less u v = false) before ->
    Sorted (fun u v => less u v = false)
           (fold_left (fun before x => insertBy less x before) l before).
Proof.
  induction l as [| x l IH]; intros before H; cbn [fold_left]; [exact H |].
  now apply IH, insertBy_Sorted.
Qed.

Lemma sort_Slice_Sorted (l : list A) :
  Sorted (fun u v => less v u = false) (sort_Slice less l).
Proof.
  unfold sort_Slice, insertionSortLessFunc.
  apply (Sorted_rev (fun u v => less u v = false)).
  apply insertion_loop_Sorted. constructor.
Qed.
End InsertionSort.

(** Rows that [less] does not tell apart stay in the order they had. *)
Example sort_Slice_keeps_ties :
  sort_Slice rowLess [mkRow "v1.0.0" "go1.1" "2015-05-03";
                      mkRow "v1.0.1" "go1.4" "2015-06-01";
                      mkRow "v1.0.0" "go1.2" "2015-05-03"]
  = [mkRow "v1.0.1" "go1.4" "2015-06-01";
     mkRow "v1.0.0" "go1.1" "2015-05-03";
     mkRow "v1.0.0" "go1.2" "2015-05-03"].
Proof. reflexivity. Qed.

Lemma ltb_asym (s1 s2 : string) :
  String.ltb s1 s2 = true -> String.ltb s2 s1 = false.
Proof.
  unfold String.ltb. rewrite (String.compare_antisym s1 s2).
  now destruct (String.compare s2 s1).
Qed.

Lemma rowLess_asym (a b : tableRow) : rowLess a b = true -> rowLess b a = false.
Proof.
  unfold rowLess. rewrite (String.eqb_sym (Date b) (Date a)).
  destruct (String.eqb (Date a) (Date b)); apply ltb_asym.
Qed.

(** The rows of the file are in the order of [rowLess], newest first. *)
Lemma sort_rows_Sorted (rows : list tableRow) :
  Sorted (fun a b => rowLess b a = false) (sort_Slice rowLess rows).
Proof. apply sort_Slice_Sorted. exact rowLess_asym. Qed.

(** ** The order of the file when the versions are unique *)

Lemma ltb_false_cases (a b : string) :
  String.ltb a b = false <-> a = b \/ OrderedTypeEx.String_as_OT.lt b a.
Proof.
  unfold String.ltb.
  pose proof (OrderedTypeEx.String_as_OT.cmp_eq a b) as He.
  pose proof (OrderedTypeEx.String_as_OT.cmp_lt b a) as Hl.
  pose proof (OrderedTypeEx.String_as_OT.cmp_lt a b) as Hl'.
  pose proof (OrderedTypeEx.String_as_OT.cmp_antisym a b) as Ha.
  unfold OrderedTypeEx.String_as_OT.cmp in *.
  destruct (String.compare a b) eqn:E.
  - split; [intros _; left; now apply He | reflexivity].
  - split; [discriminate |]. intros [-> | H].
    + assert (String.compare b b = Eq) as E' by now apply OrderedTypeEx.String_as_OT.cmp_eq.
      congruence.
    + apply Hl in H. rewrite H in Ha. discriminate Ha.
  - split; [| reflexivity]. intros _. right. apply Hl.
    destruct (String.compare b a); cbn in Ha; congruence.
Qed.

Lemma ltb_false_trans (a b c : string) :
  String.ltb a b = false -> String.ltb b c = false -> String.ltb a c = false.
Proof.
  intros H1 H2. apply ltb_false_cases in H1, H2. apply ltb_false_cases.
  destruct H1 as [-> | H1], H2 as [-> | H2]; auto.
  right. eapply OrderedTypeEx.String_as_OT.lt_trans; eassumption.
Qed.

Lemma ltb_false_antisym (a b : string) :
  String.ltb a b = false -> String.ltb b a = false -> a = b.
Proof.
  intros H1 H2. apply ltb_false_cases in H1, H2.
  destruct H1 as [-> | H1], H2 as [E | H2]; auto.
  exfalso. apply (OrderedTypeEx.String_as_OT.lt_not_eq a a); [| reflexivity].
  eapply OrderedTypeEx.String_as_OT.lt_trans; eassumption.
Qed.

Lemma rowLess_false (a b : tableRow) :
  rowLess b a = false <->
  (Date a = Date b /\ String.ltb (Version a) (Version b) = false)
  \/ (Date a <> Date b /\ String.ltb (Date a) (Date b) = false).
Proof.
  unfold rowLess. destruct (String.eqb_spec (Date b) (Date a)) as [E | E].
  - split; [intros H; left; now split | intros [[_ H] | [H _]]; congruence].
  - split; [intros H; right; split; congruence | intros [[H _] | [_ H]]; congruence].
Qed.

Lemma rowLess_false_trans (a b c : tableRow) :
  rowLess b a = false -> rowLess c b = false -> rowLess c a = false.
Proof.
  rewrite !rowLess_false.
  intros [[E1 V1] | [N1 D1]] [[E2 V2] | [N2 D2]].
  - left. split; [congruence | now apply (ltb_false_trans _ (Version b))].
  - right. rewrite E1. now split.
  - right. rewrite <- E2. now split.
  - right. split; [| now apply (ltb_false_trans _ (Date b))].
    intros E. rewrite E in D1. apply N2. now apply ltb_false_antisym.
Qed.

(** Two lists in order that hold the same elements are equal when no two
    elements are each in order before the other. *)
Lemma StronglySorted_Permutation_eq {A : Type} (R : A -> A -> Prop) (l1 : list A) :
  forall l2,
    (forall a b, In a l1 -> In b l1 -> R a b -> R b a -> a = b) ->
    StronglySorted R l1 -> StronglySorted R l2 -> Permutation l1 l2 -> l1 = l2.
Proof.
  induction l1 as [| a l1 IH]; intros l2 Hanti H1 H2 HP.
  - apply Permutation_nil in HP. now subst.
  - destruct l2 as [| b l2];
      [apply Permutation_sym, Permutation_nil in HP; discriminate HP |].
    inversion H1 as [| ? ? S1 F1]; inversion H2 as [| ? ? S2 F2]; subst.
    assert (a = b) as <-.
    { assert (In b (a :: l1)) as Hb
          by (eapply Permutation_in; [apply Permutation_sym, HP | now left]).
      assert (In a (b :: l2)) as Ha
          by (eapply Permutation_in; [exact HP | now left]).
      destruct Hb as [Hb | Hb]; [exact Hb |].
      destruct Ha as [Ha | Ha]; [now symmetry |].
      rewrite Forall_forall in F1, F2.
      apply Hanti; [now left | now right | now apply F1 | now apply F2]. }
    f_equal. apply IH; try assumption.
    + intros x y Hx Hy. apply Hanti; now right.
    + now apply Permutation_cons_inv in HP.
Qed.

Lemma NoDup_map_In {A B : Type} (f : A -> B) (l : list A) (a b : A) :
  NoDup (map f l) -> In a l -> In b l -> f a = f b -> a = b.
Proof.
  induction l as [| x l IH]; [intros _ [] |]. cbn [map].
  intros Hn Ha Hb E. inversion Hn as [| ? ? Hx Hl]; subst.
  destruct Ha as [-> | Ha], Hb as [-> | Hb]; try reflexivity.
  - exfalso. apply Hx. rewrite E. now apply in_map.
  - exfalso. apply Hx. rewrite <- E. now apply in_map.
  - now apply IH.
Qed.

Lemma sort_rows_StronglySorted_less (rows : list tableRow) :
  StronglySorted (fun a b => rowLess b a = false) (sort_Slice rowLess rows).
Proof.
  apply Sorted_StronglySorted; [| apply sort_rows_Sorted].
  intros a b c. apply rowLess_false_trans.
Qed.

(** With unique versions [rowLess] tells all the rows apart, and the
    order of the file is the same for every order of the rows given:
    there is one list in the order of [rowLess] that holds these rows. *)
Lemma sort_rows_unique (rows sorted : list tableRow) :
  NoDup (map Version rows) ->
  Permutation rows sorted ->
  Sorted (fun a b => rowLess b a = false) sorted ->
  sorted = sort_Slice rowLess rows.
Proof.
  intros Hn HP Hs. symmetry.
  apply (StronglySorted_Permutation_eq (fun a b => rowLess b a = false)).
  - intros a b Ha Hb Hab Hba.
    apply (NoDup_map_In Version (sort_Slice rowLess rows)); try assumption.
    + eapply Permutation_NoDup; [| exact Hn].
      apply Permutation_map, sort_Slice_Permutation.
    + apply rowLess_false in Hab, Hba.
      destruct Hab as [[E V] | [N D]], Hba as [[E' V'] | [N' D']];
        try congruence.
      * now apply ltb_false_antisym.
      * exfalso. apply N. now apply ltb_false_antisym.
  - apply sort_rows_StronglySorted_less.
  - apply Sorted_StronglySorted; [| exact Hs].
    intros a b c. apply rowLess_false_trans.
  - rewrite <- HP. apply Permutation_sym, sort_Slice_Permutation.
Qed.

Lemma forallb_Permutation {A : Type} (p : A -> bool) (l l' : list A) :
  Permutation l l' -> forallb p l = forallb p l'.
Proof.
  induction 1; cbn; try congruence.
  - now rewrite andb_assoc, (andb_comm (p y)), andb_assoc.
Qed.

Lemma formatRows_with_dots (rows : list tableRow) :
  forallb hasDots rows = true -> exists rows', formatRows rows = Returns rows'.
Proof.
  intros H. unfold formatRows.
  rewrite (forallb_Permutation _ _ _ (sort_Slice_Permutation rowLess rows)) in H.
  destruct (boldRows_with_dots _ H) as (st & rows' & ->). eauto.
Qed.

Lemma formatRows_without_dots (rows : list tableRow) :
  forallb hasDots rows = false -> formatRows rows = Panics "slice bounds out of range".
Proof.
  intros H. unfold formatRows.
  rewrite (forallb_Permutation _ _ _ (sort_Slice_Permutation rowLess rows)) in H.
  now rewrite (boldRows_without_dots _ H).
Qed.

(** C10: [writeTable] returns for the tables whose rows all have a dot in
    the version and in the runtime, and for no other table: a row whose
    version or runtime has no dot makes the formatting pass slice that
    field at index -1, and the call panics. *)
Theorem writeTable_panics_iff_row_without_dot (rows : list tableRow) :
  ((exists r, In r rows
              /\ (strings_Contains (Version r) "." = false
                  \/ strings_Contains (Runtime r) "." = false)) ->
   writeTable rows = Panics "slice bounds out of range")
  /\ ((forall r, In r rows ->
                 strings_Contains (Version r) "." = true
                 /\ strings_Contains (Runtime r) "." = true) ->
      exists out, writeTable rows = Returns out)
  /\ (forall s, strings_Contains s "." = false ->
                strings_LastIndex s "." = (-1)%Z
                /\ synMinorOf s = slice_to s (-1)
                /\ runMinorOf s = slice_to s (-1)).
Proof.
  split; [| split].
  - intros (r & Hin & Hr). unfold writeTable.
    rewrite formatRows_without_dots; [reflexivity |].
    destruct (forallb hasDots rows) eqn:E; [| reflexivity].
    rewrite forallb_forall in E. specialize (E r Hin).
    unfold hasDots in E. apply andb_prop in E as [Ev Er].
    destruct Hr; congruence.
  - intros H. unfold writeTable.
    destruct (formatRows_with_dots rows) as [rows' ->]; [| eauto].
    apply forallb_forall. intros r Hin. destruct (H r Hin) as [Hv Hr].
    unfold hasDots. now rewrite Hv, Hr.
  - intros s Hs. split; [now apply strings_Contains_false |].
    rewrite synMinorOf_without_dot, runMinorOf_without_dot by assumption.
    now split.
Qed.

Lemma writeTable_panics_iff_row_without_dot_witness :
  writeTable [mkRow "v1.0.0" "" "2015-05-03"] = Panics "slice bounds out of range"
  /\ (exists out, writeTable [mkRow "v1.0.0" "go1.4.2" "2015-05-03"] = Returns out)
  /\ strings_LastIndex "" "." = (-1)%Z.
Proof.
  split; [| split].
  - apply (proj1 (writeTable_panics_iff_row_without_dot _)).
    exists (mkRow "v1.0.0" "" "2015-05-03").
    split; [left; reflexivity | right; reflexivity].
  - apply (proj1 (proj2 (writeTable_panics_iff_row_without_dot _))).
    intros r [<- | []]. split; reflexivity.
  - apply (proj2 (proj2 (writeTable_panics_iff_row_without_dot []))).
    reflexivity.
Defined.

(* ===================================================================== *)
(** * Which rows are emphasised *)
(* ===================================================================== *)

Lemma Permutation_three {A : Type} (a b c : A) (l : list A) :
  Permutation l [a; b; c] ->
  l = [a; b; c] \/ l = [a; c; b] \/ l = [b; a; c]
  \/ l = [b; c; a] \/ l = [c; a; b] \/ l = [c; b; a].
Proof.
  intros H. destruct (Permutation_vs_cons_inv H) as (l1 & l2 & ->).
  apply Permutation_sym, Permutation_cons_app_inv, Permutation_length_2_inv in H.
  destruct l1 as [| x [| y [| z l1]]]; cbn in H |- *;
    destruct H as [H | H]; inversion H; subst;
    try (destruct l1; discriminate); tauto.
Qed.

(** One turn of the loop on a row whose two minor identifiers exist. *)
Lemma boldRow_Returns (st : minors) (r : tableRow) (m n : string) :
  runMinorOf (Runtime r) = Returns m -> synMinorOf (Version r) = Returns n ->
  boldRow st r
  = Returns
      (mkMinors (if negb (String.eqb m (prevRunMinor st)) then m else prevRunMinor st)
                (if negb (String.eqb n (prevSynMinor st)) then n else prevSynMinor st),
       {| Version := if negb (String.eqb n (prevSynMinor st))
                     then bold (Version r) else Version r;
          Runtime := if negb (String.eqb m (prevRunMinor st))
                     then bold (Runtime r) else Runtime r;
          Date := Date r |}).
Proof. intros Hm Hn. unfold boldRow. now rewrite Hm, Hn. Qed.

(** C7 (amended): for the rows v1.2.0 of 2021-01-01, v1.2.1 of 2021-02-01
    and v1.3.0 of 2021-03-01, given in any order, each with a runtime
    that holds a dot, the formatting pass returns and leaves the rows
    newest first with the versions of v1.3.0 and v1.2.0 emphasised and
    that of v1.2.1 plain. *)
Theorem emphasis_of_first_row_per_minor (rt1 rt2 rt3 : string)
        (rows : list tableRow) :
  strings_Contains rt1 "." = true ->
  strings_Contains rt2 "." = true ->
  strings_Contains rt3 "." = true ->
  Permutation rows [mkRow "v1.2.0" rt1 "2021-01-01";
                    mkRow "v1.2.1" rt2 "2021-02-01";
                    mkRow "v1.3.0" rt3 "2021-03-01"] ->
  exists rows',
    formatRows rows = Returns rows'
    /\ map Version rows' = ["**v1.3.0**"; "v1.2.1"; "**v1.2.0**"]
    /\ map Date rows' = ["2021-03-01"; "2021-02-01"; "2021-01-01"].
Proof.
  intros H1 H2 H3 HP.
  destruct (runMinorOf_with_dot _ H1) as [m1 E1].
  destruct (runMinorOf_with_dot _ H2) as [m2 E2].
  destruct (runMinorOf_with_dot _ H3) as [m3 E3].
  assert (sort_Slice rowLess rows
          = [mkRow "v1.3.0" rt3 "2021-03-01";
             mkRow "v1.2.1" rt2 "2021-02-01";
             mkRow "v1.2.0" rt1 "2021-01-01"]) as Hs.
  { destruct (Permutation_three _ _ _ _ HP)
      as [-> | [-> | [-> | [-> | [-> | ->]]]]]; vm_compute; reflexivity. }
  unfold formatRows. rewrite Hs. cbn [boldRows].
  rewrite (boldRow_Returns _ _ m1 "v1.2") by (try exact E1; reflexivity).
  rewrite (boldRow_Returns _ _ m2 "v1.2") by (try exact E2; reflexivity).
  rewrite (boldRow_Returns _ _ m3 "v1.3") by (try exact E3; reflexivity).
  eexists. repeat split.
Qed.

Lemma emphasis_of_first_row_per_minor_witness :
  exists rows',
    formatRows [mkRow "v1.2.1" "go1.15.8" "2021-02-01";
                mkRow "v1.3.0" "go1.16" "2021-03-01";
                mkRow "v1.2.0" "go1.15.6" "2021-01-01"] = Returns rows'
    /\ map Version rows' = ["**v1.3.0**"; "v1.2.1"; "**v1.2.0**"].
Proof.
  destruct (emphasis_of_first_row_per_minor "go1.15.6" "go1.15.8" "go1.16"
              [mkRow "v1.2.1" "go1.15.8" "2021-02-01";
               mkRow "v1.3.0" "go1.16" "2021-03-01";
               mkRow "v1.2.0" "go1.15.6" "2021-01-01"]
              eq_refl eq_refl eq_refl)
    as (rows' & Hf & Hv & _).
  - apply Permutation_sym. apply perm_trans with
      (l' := [mkRow "v1.2.1" "go1.15.8" "2021-02-01";
              mkRow "v1.2.0" "go1.15.6" "2021-01-01";
              mkRow "v1.3.0" "go1.16" "2021-03-01"]).
    + apply perm_swap.
    + apply perm_skip, perm_swap.
  - exists rows'. split; assumption.
Defined.

(** C7, as stated, fails: the three rows of the claim, with the runtime
    not known yet, make the formatting pass panic when it slices the
    runtime, so no version is emphasised and nothing is saved. *)
Lemma emphasis_rows_without_runtime_panic :
  let rows := [mkRow "v1.2.0" "" "2021-01-01";
               mkRow "v1.2.1" "" "2021-02-01";
               mkRow "v1.3.0" "" "2021-03-01"] in
  map Version rows = ["v1.2.0"; "v1.2.1"; "v1.3.0"]
  /\ map Date rows = ["2021-01-01"; "2021-02-01"; "2021-03-01"]
  /\ formatRows rows = Panics "slice bounds out of range"
  /\ writeTable rows = Panics "slice bounds out of range"
  /\ ~ (exists rows', formatRows rows = Returns rows').
Proof.
  cbv zeta. repeat split. intros [rows' H]. discriminate H.
Qed.

Example emphasis_sample_file :
  writeTable [mkRow "v1.2.1" "go1.15.8" "2021-02-01";
              mkRow "v1.3.0" "go1.16" "2021-03-01";
              mkRow "v1.2.0" "go1.15.6" "2021-01-01"]
  = Returns ("Version,Runtime,Date" ++ str1 byte_LF
             ++ "**v1.3.0**,**go1.16**,2021-03-01" ++ str1 byte_LF
             ++ "v1.2.1,go1.15.8,2021-02-01" ++ str1 byte_LF
             ++ "**v1.2.0**,**go1.15.6**,2021-01-01" ++ str1 byte_LF)%string.
Proof. vm_compute. reflexivity. Qed.

(* ===================================================================== *)
(** * The round trip through the store *)
(* ===================================================================== *)

(** ** Strings *)

Lemma append_assoc (a b c : string) : ((a ++ b) ++ c = a ++ (b ++ c))%string.
Proof. induction a as [| x a IH]; cbn; [reflexivity | now rewrite IH]. Qed.

Lemma append_nil_r (a : string) : (a ++ "" = a)%string.
Proof. induction a as [| x a IH]; cbn; [reflexivity | now rewrite IH]. Qed.

Lemma append_length (a b : string) :
  String.length (a ++ b) = String.length a + String.length b.
Proof. induction a as [| x a IH]; cbn; [reflexivity | now rewrite IH]. Qed.

Lemma anyByte_app (p : ascii -> bool) (a b : string) :
  anyByte p (a ++ b) = anyByte p a || anyByte p b.
Proof.
  induction a as [| x a IH]; cbn; [reflexivity |].
  now rewrite IH, orb_assoc.
Qed.

Lemma anyByte_weaken (p q : ascii -> bool) (s : string) :
  (forall c, q c = true -> p c = true) ->
  anyByte p s = false -> anyByte q s = false.
Proof.
  intros Hpq. induction s as [| x s IH]; cbn; [reflexivity |].
  intros H. apply orb_false_elim in H as [Hx Hs].
  rewrite (IH Hs), orb_false_r.
  destruct (q x) eqn:E; [| reflexivity].
  apply Hpq in E. congruence.
Qed.

Lemma cut_hit (c : ascii) (a b : string) :
  anyByte (fun x => Ascii.eqb x c) a = false ->
  cut c (a ++ String c b) = Some (a, b).
Proof.
  induction a as [| x a IH]; cbn.
  - intros _. now rewrite Ascii.eqb_refl.
  - intros H. apply orb_false_elim in H as [Hx Ha].
    now rewrite Hx, (IH Ha).
Qed.

Lemma cut_miss (c : ascii) (a : string) :
  anyByte (fun x => Ascii.eqb x c) a = false -> cut c a = None.
Proof.
  induction a as [| x a IH]; cbn; [reflexivity |].
  intros H. apply orb_false_elim in H as [Hx Ha].
  now rewrite Hx, (IH Ha).
Qed.

Lemma lastByte_app1 (a : string) (c : ascii) :
  lastByte (a ++ str1 c) = Some c.
Proof.
  induction a as [| x a IH]; [reflexivity |].
  cbn [append lastByte]. rewrite IH.
  destruct (a ++ str1 c)%string eqn:E; [| reflexivity].
  destruct a; discriminate.
Qed.

Lemma dropLast_app1 (a : string) (c : ascii) : dropLast (a ++ str1 c) = a.
Proof.
  induction a as [| x a IH]; [reflexivity |].
  cbn [append dropLast]. rewrite IH.
  destruct (a ++ str1 c)%string eqn:E; [| reflexivity].
  destruct a; discriminate.
Qed.

Lemma chompNL_app (a : string) : chompNL (a ++ str1 byte_LF) = a.
Proof.
  unfold chompNL, endsWith. rewrite lastByte_app1, Ascii.eqb_refl.
  apply dropLast_app1.
Qed.

(** ** Lines *)

Lemma splitLine_cons (c : ascii) (x : string) :
  Ascii.eqb c byte_LF = false ->
  splitLine (String c x) = (String c (lineOf x), restOf x).
Proof.
  intros Hc. unfold lineOf, restOf. cbn [splitLine]. rewrite Hc.
  now destruct (splitLine x).
Qed.

Lemma lineOf_cons (c : ascii) (x : string) :
  Ascii.eqb c byte_LF = false -> lineOf (String c x) = String c (lineOf x).
Proof. intros Hc. unfold lineOf at 1. now rewrite splitLine_cons. Qed.

Lemma restOf_cons (c : ascii) (x : string) :
  Ascii.eqb c byte_LF = false -> restOf (String c x) = restOf x.
Proof. intros Hc. unfold restOf at 1. now rewrite splitLine_cons. Qed.

Lemma lineOf_LF (x : string) : lineOf (String byte_LF x) = str1 byte_LF.
Proof. reflexivity. Qed.

Lemma restOf_LF (x : string) : restOf (String byte_LF x) = x.
Proof. reflexivity. Qed.

Lemma lineOf_app (a x : string) :
  hasLF a = false -> lineOf (a ++ x) = (a ++ lineOf x)%string.
Proof.
  induction a as [| c a IH]; cbn [append]; [reflexivity |].
  unfold hasLF; cbn [anyByte]. intros H. apply orb_false_elim in H as [Hc Ha].
  rewrite lineOf_cons by exact Hc. now rewrite (IH Ha).
Qed.

Lemma restOf_app (a x : string) :
  hasLF a = false -> restOf (a ++ x) = restOf x.
Proof.
  induction a as [| c a IH]; cbn [append]; [reflexivity |].
  unfold hasLF; cbn [anyByte]. intros H. apply orb_false_elim in H as [Hc Ha].
  rewrite restOf_cons by exact Hc. exact (IH Ha).
Qed.

Lemma startsLF_lineOf (x : string) : startsLF (lineOf x) = startsLF x.
Proof.
  destruct x as [| c x]; [reflexivity |].
  destruct (Ascii.eqb c byte_LF) eqn:E.
  - apply Ascii.eqb_eq in E. subst c. reflexivity.
  - rewrite lineOf_cons by exact E. reflexivity.
Qed.

(** The line of an input with a newline ends with that newline, and
    without a carriage return before it when the input has none before
    a newline. *)
Lemma lineOf_ends (x : string) :
  hasLF x = true -> noCRLF x = true ->
  endsWith byte_LF (lineOf x) = true
  /\ endsWith byte_CR (dropLast (lineOf x)) = false.
Proof.
  induction x as [| c x IH]; [discriminate |].
  unfold hasLF; cbn [anyByte noCRLF]. intros Hlf Hcr.
  apply andb_prop in Hcr as [Hc Hx].
  destruct (Ascii.eqb c byte_LF) eqn:E.
  - apply Ascii.eqb_eq in E. subst c. split; reflexivity.
  - cbn [orb] in Hlf. destruct (IH Hlf Hx) as [IH1 IH2].
    rewrite lineOf_cons by exact E.
    pose proof (startsLF_lineOf x) as Hs.
    destruct (lineOf x) as [| d l]; [discriminate |].
    split; [exact IH1 |].
    cbn [dropLast]. destruct l as [| d' l].
    + unfold endsWith in IH1; cbn in IH1.
      cbn in Hs. rewrite IH1 in Hs. rewrite <- Hs, andb_true_r in Hc.
      unfold endsWith; cbn. now apply negb_true_iff.
    + exact IH2.
Qed.

Lemma csv_readLine_line (x : string) :
  hasLF x = true -> noCRLF x = true ->
  csv_readLine x = Some (lineOf x, restOf x).
Proof.
  intros Hlf Hcr. destruct (lineOf_ends x Hlf Hcr) as [H1 H2].
  unfold csv_readLine. destruct x as [| c x]; [discriminate |].
  cbn [String.eqb]. unfold lineOf, restOf in *.
  destruct (splitLine (String c x)) as [line rest]. cbn [fst snd] in *.
  cbv zeta. rewrite !H1. cbv iota. now rewrite H2.
Qed.

(** ** Reading back one field *)

Lemma noCRLF_tail (c : ascii) (s : string) :
  noCRLF (String c s) = true -> noCRLF s = true.
Proof. cbn [noCRLF]. intros H. now apply andb_prop in H. Qed.

Lemma startsLF_escape_app (f k : string) :
  startsLF (csv_escape f ++ String byte_dquote k) = startsLF f.
Proof.
  destruct f as [| c f]; [reflexivity |]. cbn [csv_escape].
  destruct (Ascii.eqb c byte_dquote) eqn:E; [| reflexivity].
  apply Ascii.eqb_eq in E. now subst c.
Qed.

Lemma noCRLF_escape_app (f k : string) :
  noCRLF f = true -> noCRLF k = true ->
  noCRLF (csv_escape f ++ String byte_dquote k) = true.
Proof.
  intros Hf Hk. induction f as [| c f IH]; [exact Hk |].
  cbn [noCRLF] in Hf. apply andb_prop in Hf as [Hc Hf].
  specialize (IH Hf). cbn [csv_escape].
  destruct (Ascii.eqb c byte_dquote) eqn:E.
  - cbn [append noCRLF startsLF]. now rewrite IH.
  - cbn [append noCRLF]. now rewrite startsLF_escape_app, Hc, IH.
Qed.

Lemma hasLF_cons (c : ascii) (k : string) :
  hasLF (String c k) = Ascii.eqb c byte_LF || hasLF k.
Proof. reflexivity. Qed.

Lemma hasLF_app_r (a k : string) : hasLF k = true -> hasLF (a ++ k) = true.
Proof. intros H. unfold hasLF in *. rewrite anyByte_app, H. apply orb_true_r. Qed.

Lemma fieldEnd_hasLF (k : string) : fieldEnd k = true -> hasLF k = true.
Proof.
  unfold fieldEnd. intros H. apply andb_prop in H as [H _].
  now apply andb_prop in H.
Qed.

Lemma fieldEnd_noCRLF (k : string) : fieldEnd k = true -> noCRLF k = true.
Proof. unfold fieldEnd. intros H. now apply andb_prop in H. Qed.

Lemma lineOf_nonempty (x : string) : x <> "" -> lineOf x <> "".
Proof.
  destruct x as [| c x]; [contradiction |]. intros _.
  destruct (Ascii.eqb c byte_LF) eqn:E.
  - apply Ascii.eqb_eq in E. subst c. discriminate.
  - rewrite lineOf_cons by exact E. discriminate.
Qed.

(** Inside a quoted field a byte other than the quote moves from the
    line to the text of the field without a turn of the loop. *)
Lemma parseField_shift (fuel : nat) (c : ascii) (line rest : string)
      (dst : list string) (buf : string) :
  Ascii.eqb c byte_dquote = false -> line <> "" ->
  csv_parseField (S fuel) (String c line) rest dst (Some buf)
  = csv_parseField (S fuel) line rest dst (Some (buf ++ str1 c)%string).
Proof.
  intros Hc Hl. cbn [csv_parseField cut]. rewrite Hc.
  destruct (cut byte_dquote line) as [[pre l2] |].
  - replace ((buf ++ str1 c) ++ pre)%string with (buf ++ String c pre)%string
      by now rewrite append_assoc.
    reflexivity.
  - destruct line as [| d line]; [contradiction |].
    replace ((buf ++ str1 c) ++ String d line)%string
      with (buf ++ String c (String d line))%string
      by now rewrite append_assoc.
    reflexivity.
Qed.

(** The end of a field: behind the closing quote, or behind the text of
    a field without quotes. *)
Lemma parseField_closing (fuel : nat) (k : string) (dst : list string)
      (buf : string) :
  fieldEnd k = true ->
  csv_parseField (S fuel) (lineOf (String byte_dquote k))
                 (restOf (String byte_dquote k)) dst (Some buf)
  = afterField k (dst ++ [buf]) fuel.
Proof.
  intros Hk. rewrite lineOf_cons, restOf_cons by reflexivity.
  cbn [csv_parseField cut]. rewrite Ascii.eqb_refl, append_nil_r.
  destruct k as [| c k1]; [discriminate |].
  unfold fieldEnd in Hk. apply andb_prop in Hk as [Hk _].
  apply andb_prop in Hk as [Hc _]. cbn [afterField].
  destruct (Ascii.eqb c ",") eqn:E.
  - apply Ascii.eqb_eq in E. subst c.
    rewrite lineOf_cons, restOf_cons by reflexivity. reflexivity.
  - cbn [orb] in Hc. apply Ascii.eqb_eq in Hc. subst c. reflexivity.
Qed.

Lemma parseField_quoted (f : string) :
  forall (buf : string) (dst : list string) (fuel : nat) (k : string),
    noCRLF f = true -> fieldEnd k = true ->
    csv_parseField (quotedTurns f + S fuel)
                   (lineOf (csv_escape f ++ String byte_dquote k))
                   (restOf (csv_escape f ++ String byte_dquote k))
                   dst (Some buf)
    = afterField k (dst ++ [(buf ++ f)%string]) fuel.
Proof.
  induction f as [| c f IH]; intros buf dst fuel k Hf Hk.
  - cbn [csv_escape append quotedTurns Nat.add]. rewrite append_nil_r.
    now apply parseField_closing.
  - pose proof (noCRLF_tail _ _ Hf) as Hf'.
    assert (((buf ++ str1 c) ++ f)%string = (buf ++ String c f)%string) as Hbuf
        by now rewrite append_assoc.
    cbn [csv_escape quotedTurns].
    destruct (Ascii.eqb c byte_dquote) eqn:Eq.
    + apply Ascii.eqb_eq in Eq. subst c. cbn [orb append Nat.add].
      rewrite !lineOf_cons, !restOf_cons by reflexivity.
      cbn [csv_parseField cut]. rewrite !Ascii.eqb_refl, append_nil_r.
      rewrite IH by assumption. now rewrite Hbuf.
    + destruct (Ascii.eqb c byte_LF) eqn:El.
      * apply Ascii.eqb_eq in El. subst c. cbn [orb append Nat.add].
        rewrite lineOf_LF, restOf_LF.
        cbn [csv_parseField]. cbn [cut str1].
        change (Ascii.eqb byte_LF byte_dquote) with false. cbv iota.
        rewrite csv_readLine_line.
        -- rewrite IH by assumption. now rewrite Hbuf.
        -- apply hasLF_app_r. rewrite hasLF_cons, (fieldEnd_hasLF _ Hk).
           apply orb_true_r.
        -- apply noCRLF_escape_app; [exact Hf' | now apply fieldEnd_noCRLF].
      * cbn [orb append]. rewrite lineOf_cons, restOf_cons by exact El.
        rewrite Nat.add_succ_r, parseField_shift.
        -- rewrite <- Nat.add_succ_r, IH by assumption. now rewrite Hbuf.
        -- exact Eq.
        -- apply lineOf_nonempty. now destruct (csv_escape f).
Qed.

Lemma unquoted_special (f : string) :
  csv_fieldNeedsQuotes f = false -> anyByte csv_special f = false.
Proof.
  unfold csv_fieldNeedsQuotes.
  destruct (String.eqb_spec f ""); [now subst f |].
  destruct (String.eqb f "\."); [discriminate |].
  now destruct (anyByte csv_special f).
Qed.

Lemma special_no_LF (f : string) :
  anyByte csv_special f = false -> hasLF f = false.
Proof.
  apply anyByte_weaken. intros c Hc. unfold csv_special. now rewrite Hc.
Qed.

Lemma special_no_CR (f : string) :
  anyByte csv_special f = false ->
  anyByte (fun c => Ascii.eqb c byte_CR) f = false.
Proof.
  apply anyByte_weaken. intros c Hc. unfold csv_special.
  rewrite Hc. now rewrite orb_true_r.
Qed.

Lemma special_no_quote (f : string) :
  anyByte csv_special f = false ->
  anyByte (fun c => Ascii.eqb c byte_dquote) f = false.
Proof.
  apply anyByte_weaken. intros c Hc. unfold csv_special.
  rewrite Hc. now rewrite orb_true_r.
Qed.

Lemma special_no_quote' (f : string) :
  anyByte csv_special f = false -> anyByte (Ascii.eqb byte_dquote) f = false.
Proof.
  apply anyByte_weaken. intros c Hc. unfold csv_special.
  rewrite Ascii.eqb_sym in Hc. rewrite Hc. now rewrite orb_true_r.
Qed.

Lemma special_no_comma (f : string) :
  anyByte csv_special f = false ->
  anyByte (fun c => Ascii.eqb c ",") f = false.
Proof.
  apply anyByte_weaken. intros c Hc. unfold csv_special.
  rewrite Hc. now rewrite !orb_true_r.
Qed.

(** A turn of the loop at the start of a field that opens without quote. *)
Lemma parseField_plain_turn (fuel : nat) (line rest : string) (dst : list string) :
  match line with
  | String a _ => Ascii.eqb a byte_dquote
  | EmptyString => false
  end = false ->
  csv_parseField (S fuel) line rest dst None
  = match cut "," line with
    | Some (field, line') =>
        if anyByte (Ascii.eqb byte_dquote) field
        then (Err csv_ErrBareQuote, rest)
        else csv_parseField fuel line' rest (dst ++ [field]) None
    | None =>
        if anyByte (Ascii.eqb byte_dquote) (chompNL line)
        then (Err csv_ErrBareQuote, rest)
        else (Ok (dst ++ [chompNL line]), rest)
    end.
Proof.
  intros H. cbn [csv_parseField].
  destruct line as [| a line]; [reflexivity |]. now rewrite H.
Qed.

Lemma parseField_unquoted (f : string) (dst : list string) (fuel : nat)
      (k : string) :
  anyByte csv_special f = false -> fieldEnd k = true ->
  csv_parseField (S fuel) (lineOf (f ++ k)) (restOf (f ++ k)) dst None
  = afterField k (dst ++ [f]) fuel.
Proof.
  intros Hf Hk.
  rewrite lineOf_app, restOf_app by now apply special_no_LF.
  destruct k as [| c k1]; [discriminate |].
  unfold fieldEnd in Hk. apply andb_prop in Hk as [Hk _].
  apply andb_prop in Hk as [Hc _].
  rewrite parseField_plain_turn.
  - cbn [afterField]. destruct (Ascii.eqb c ",") eqn:E.
    + apply Ascii.eqb_eq in E. subst c.
      rewrite lineOf_cons, restOf_cons by reflexivity.
      rewrite cut_hit by now apply special_no_comma.
      now rewrite special_no_quote'.
    + cbn [orb] in Hc. apply Ascii.eqb_eq in Hc. subst c.
      rewrite lineOf_LF, restOf_LF, chompNL_app.
      rewrite cut_miss, special_no_quote'; [reflexivity | exact Hf |].
      rewrite anyByte_app, special_no_comma by exact Hf. reflexivity.
  - destruct f as [| a f].
    + cbn [append]. destruct (Ascii.eqb c ",") eqn:E.
      * apply Ascii.eqb_eq in E. subst c. now rewrite lineOf_cons.
      * cbn [orb] in Hc. apply Ascii.eqb_eq in Hc. now subst c.
    + cbn [append]. apply special_no_quote in Hf. cbn [anyByte] in Hf.
      now apply orb_false_elim in Hf.
Qed.

Lemma writeField_quoted_app (f k : string) :
  ((str1 byte_dquote ++ csv_escape f ++ str1 byte_dquote) ++ k)%string
  = String byte_dquote (csv_escape f ++ String byte_dquote k).
Proof. cbn [str1 append]. now rewrite append_assoc. Qed.

Lemma parseField_open (fuel : nat) (line rest : string) (dst : list string) :
  csv_parseField (S fuel) (String byte_dquote line) rest dst None
  = csv_parseField fuel line rest dst (Some EmptyString).
Proof. cbn [csv_parseField]. now rewrite Ascii.eqb_refl. Qed.

(** Reading back one field that the writer wrote, quoted or not. *)
Lemma parseField_field (f : string) (dst : list string) (fuel : nat) (k : string) :
  noCRLF f = true -> fieldEnd k = true ->
  csv_parseField (fieldTurns f + fuel)
                 (lineOf (csv_writeField f ++ k))
                 (restOf (csv_writeField f ++ k)) dst None
  = afterField k (dst ++ [f]) fuel.
Proof.
  intros Hf Hk. unfold csv_writeField, fieldTurns.
  destruct (csv_fieldNeedsQuotes f) eqn:E.
  - rewrite writeField_quoted_app.
    rewrite lineOf_cons, restOf_cons by reflexivity.
    replace (S (S (quotedTurns f)) + fuel) with (S (quotedTurns f + S fuel)) by lia.
    rewrite parseField_open, parseField_quoted by assumption.
    reflexivity.
  - apply parseField_unquoted; [now apply unquoted_special | exact Hk].
Qed.

(** ** Reading back one record *)

Lemma noCRLF_app_noCR (a k : string) :
  anyByte (fun c => Ascii.eqb c byte_CR) a = false ->
  noCRLF (a ++ k) = noCRLF k.
Proof.
  induction a as [| c a IH]; [reflexivity |].
  cbn [anyByte append noCRLF]. intros H. apply orb_false_elim in H as [Hc Ha].
  now rewrite Hc, (IH Ha).
Qed.

Lemma noCRLF_writeField_app (f k : string) :
  noCRLF f = true -> noCRLF k = true -> noCRLF (csv_writeField f ++ k) = true.
Proof.
  intros Hf Hk. unfold csv_writeField.
  destruct (csv_fieldNeedsQuotes f) eqn:E.
  - rewrite writeField_quoted_app. cbn [noCRLF].
    now rewrite noCRLF_escape_app.
  - rewrite noCRLF_app_noCR; [exact Hk |].
    now apply special_no_CR, unquoted_special.
Qed.

Lemma hasLF_recordTail (fs : list string) (t : string) :
  hasLF (recordTail fs t) = true.
Proof.
  induction fs as [| f fs IH]; [reflexivity |].
  cbn [recordTail]. rewrite hasLF_cons.
  change (Ascii.eqb "," byte_LF) with false. cbn [orb].
  now apply hasLF_app_r.
Qed.

Lemma noCRLF_recordTail (fs : list string) (t : string) :
  forallb noCRLF fs = true -> noCRLF t = true ->
  noCRLF (recordTail fs t) = true.
Proof.
  intros Hfs Ht. induction fs as [| f fs IH]; [exact Ht |].
  cbn [forallb] in Hfs. apply andb_prop in Hfs as [Hf Hfs].
  cbn [recordTail]. change (noCRLF (String "," ?x)) with (noCRLF x).
  apply noCRLF_writeField_app; [exact Hf | now apply IH].
Qed.

Lemma fieldEnd_recordTail (fs : list string) (t : string) :
  forallb noCRLF fs = true -> noCRLF t = true ->
  fieldEnd (recordTail fs t) = true.
Proof.
  intros Hfs Ht. unfold fieldEnd.
  rewrite hasLF_recordTail, noCRLF_recordTail by assumption.
  now destruct fs.
Qed.

Lemma parseField_record (fs : list string) :
  forall (f : string) (dst : list string) (fuel : nat) (t : string),
    noCRLF f = true -> forallb noCRLF fs = true -> noCRLF t = true ->
    csv_parseField (recordTurns (f :: fs) + fuel)
                   (lineOf (csv_writeField f ++ recordTail fs t))
                   (restOf (csv_writeField f ++ recordTail fs t)) dst None
    = (Ok (dst ++ f :: fs), t).
Proof.
  induction fs as [| g fs IH]; intros f dst fuel t Hf Hfs Ht.
  - cbn [recordTurns recordTail]. rewrite Nat.add_0_r.
    rewrite parseField_field; [reflexivity | exact Hf |].
    apply (fieldEnd_recordTail [] t eq_refl Ht).
  - cbn [forallb] in Hfs. pose proof Hfs as Hfs'.
    apply andb_prop in Hfs' as [Hg Hfs'].
    change (recordTurns (f :: g :: fs)) with (fieldTurns f + recordTurns (g :: fs)).
    rewrite <- Nat.add_assoc, parseField_field;
      [| exact Hf | now apply (fieldEnd_recordTail (g :: fs))].
    cbn [recordTail afterField]. cbn [Ascii.eqb Bool.eqb].
    rewrite IH by assumption. now rewrite <- app_assoc.
Qed.

Lemma csv_Write_app (f : string) (fs : list string) (t : string) :
  (csv_Write (f :: fs) ++ t)%string
  = (csv_writeField f ++ recordTail fs t)%string.
Proof.
  unfold csv_Write. rewrite append_assoc. cbn [str1 append].
  revert f. induction fs as [| g fs IH]; intros f; [reflexivity |].
  cbn [map recordTail]. specialize (IH g). cbn [map] in IH.
  rewrite <- IH. cbn [String.concat]. now rewrite append_assoc.
Qed.

Lemma quotedTurns_le (f : string) :
  quotedTurns f <= String.length (csv_escape f).
Proof.
  induction f as [| c f IH]; [apply Nat.le_refl |].
  cbn [quotedTurns csv_escape].
  destruct (Ascii.eqb c byte_dquote); cbn [orb String.length]; [lia |].
  destruct (Ascii.eqb c byte_LF); lia.
Qed.

Lemma fieldTurns_le (f : string) :
  fieldTurns f <= S (String.length (csv_writeField f)).
Proof.
  unfold fieldTurns, csv_writeField.
  destruct (csv_fieldNeedsQuotes f); [| lia].
  rewrite !append_length. cbn [str1 String.length].
  pose proof (quotedTurns_le f). lia.
Qed.

Lemma recordTurns_le (fs : list string) (t : string) :
  S (recordTurns fs) <= String.length (recordTail fs t).
Proof.
  induction fs as [| f fs IH]; cbn [recordTurns recordTail String.length]; [lia |].
  rewrite append_length. pose proof (fieldTurns_le f). lia.
Qed.

Lemma startsLF_writeField_field (f g : string) (t : string) :
  startsLF (csv_writeField f ++ String "," t) = false.
Proof.
  unfold csv_writeField. destruct (csv_fieldNeedsQuotes f) eqn:E.
  - now rewrite writeField_quoted_app.
  - apply unquoted_special, special_no_LF in E.
    destruct f as [| a f]; [reflexivity |].
    unfold hasLF in E. cbn [anyByte] in E.
    now apply orb_false_elim in E.
Qed.

Lemma onlyNL_lineOf (x : string) :
  x <> "" -> startsLF x = false -> onlyNL (lineOf x) = false.
Proof.
  destruct x as [| c x]; [contradiction |]. cbn [startsLF]. intros _ Hc.
  rewrite lineOf_cons by exact Hc. unfold onlyNL.
  cbn [String.eqb str1]. now rewrite Hc.
Qed.

(** [csv_Read] gives back a record of two or more fields that the
    writer wrote, and leaves the input behind the record. *)
Lemma csv_Read_written (f g : string) (fs : list string) (t : string) (n : nat) :
  noCRLF f = true -> forallb noCRLF (g :: fs) = true -> noCRLF t = true ->
  n = 0 \/ n = List.length (f :: g :: fs) ->
  csv_Read (mkReader (csv_Write (f :: g :: fs) ++ t) n)
  = (Ok (f :: g :: fs), mkReader t (List.length (f :: g :: fs))).
Proof.
  intros Hf Hfs Ht Hn. rewrite csv_Write_app.
  pose proof (fieldEnd_recordTail (g :: fs) t Hfs Ht) as Hk.
  set (x := (csv_writeField f ++ recordTail (g :: fs) t)%string).
  assert (hasLF x = true) as Hlf
      by (apply hasLF_app_r; now apply fieldEnd_hasLF).
  assert (noCRLF x = true) as Hcr
      by (apply noCRLF_writeField_app; [exact Hf | now apply fieldEnd_noCRLF]).
  assert (x <> "") as Hne by (intros E; now rewrite E in Hlf).
  assert (startsLF x = false) as Hs
      by (apply (startsLF_writeField_field f g)).
  unfold csv_Read. cbn [crInput FieldsPerRecord csv_nextLine].
  rewrite csv_readLine_line, onlyNL_lineOf by assumption.
  assert (recordTurns (f :: g :: fs) <= S (S (String.length x))) as Hfuel.
  { subst x. rewrite append_length. cbn [recordTurns].
    pose proof (fieldTurns_le f). pose proof (recordTurns_le (g :: fs) t).
    cbn [recordTurns] in *. lia. }
  replace (S (S (String.length x)))
    with (recordTurns (f :: g :: fs)
          + (S (S (String.length x)) - recordTurns (f :: g :: fs))) by lia.
  subst x. rewrite parseField_record by assumption.
  cbn [app]. destruct Hn as [-> | ->].
  - reflexivity.
  - cbn [Nat.ltb Nat.leb]. now rewrite Nat.eqb_refl.
Qed.

(** ** Emphasis and trimming *)

Lemma trimRightByte_app1 (s : string) (c : ascii) :
  trimRightByte (s ++ str1 c) c = trimRightByte s c.
Proof.
  induction s as [| a s IH]; cbn [append trimRightByte str1].
  - now rewrite Ascii.eqb_refl.
  - now rewrite IH.
Qed.

Lemma strings_Trim_bold (f : string) :
  strings_Trim (bold f) "*" = strings_Trim f "*".
Proof.
  unfold strings_Trim, bold.
  change ("**" ++ f ++ "**")%string
    with (String "*" (String "*" (f ++ "**")))%string.
  replace (f ++ "**")%string with ((f ++ str1 "*") ++ str1 "*")%string
    by now rewrite append_assoc.
  cbn [trimRightByte]. rewrite !trimRightByte_app1.
  destruct (trimRightByte f "*"); reflexivity.
Qed.

Lemma startsLF_app (a k : string) :
  startsLF (a ++ k) = match a with EmptyString => startsLF k | _ => startsLF a end.
Proof. now destruct a. Qed.

Lemma noCRLF_app (a k : string) :
  startsLF k = false -> noCRLF (a ++ k) = noCRLF a && noCRLF k.
Proof.
  intros Hk. induction a as [| c a IH]; [reflexivity |].
  cbn [append noCRLF]. rewrite IH, startsLF_app, andb_assoc.
  destruct a; [now rewrite Hk | reflexivity].
Qed.

Lemma noCRLF_bold (f : string) : noCRLF (bold f) = noCRLF f.
Proof.
  unfold bold.
  change ("**" ++ f ++ "**")%string
    with (String "*" (String "*" (f ++ "**")))%string.
  change (noCRLF (String "*" (String "*" ?x))) with (noCRLF x).
  rewrite noCRLF_app by reflexivity. apply andb_true_r.
Qed.

Lemma keptField_spec (f : string) :
  keptField f = true -> noCRLF f = true /\ strings_Trim f "*" = f.
Proof.
  unfold keptField. intros H. apply andb_prop in H as [H1 H2].
  split; [exact H1 | now apply String.eqb_eq].
Qed.

(** A field as the formatting pass leaves it, emphasised or not. *)
Lemma written_field (f : string) (b : bool) :
  keptField f = true ->
  noCRLF (if b then bold f else f) = true
  /\ strings_Trim (if b then bold f else f) "*" = f.
Proof.
  intros H. destruct (keptField_spec f H) as [H1 H2].
  destruct b; [| now split].
  now rewrite noCRLF_bold, strings_Trim_bold.
Qed.

Lemma written_version (v : string) (b : bool) :
  strings_Contains v "." = true ->
  String.eqb (if b then bold v else v) "Version" = false.
Proof.
  intros H. destruct b; [reflexivity |].
  apply String.eqb_neq. intros ->. discriminate H.
Qed.

Lemma boldRow_storable (st : minors) (r : tableRow) :
  storable r = true ->
  exists st' r', boldRow st r = Returns (st', r')
                 /\ stripRow r' = r /\ readable r' = true.
Proof.
  unfold storable. intros H.
  apply andb_prop in H as [H Hd]. apply andb_prop in H as [H Hr].
  apply andb_prop in H as [Hdots Hv].
  unfold hasDots in Hdots. apply andb_prop in Hdots as [Hvd Hrd].
  destruct (runMinorOf_with_dot _ Hrd) as [m Hm].
  rewrite (boldRow_Returns st r m _ Hm (synMinorOf_with_dot _ Hvd)).
  eexists _, _. split; [reflexivity |].
  destruct (written_field _ (negb (String.eqb m (prevRunMinor st))) Hr) as [R1 R2].
  destruct (keptField_spec _ Hd) as [D1 D2].
  set (n := substring 0 (Z.to_nat (strings_LastIndex (Version r) ".")) (Version r)).
  destruct (written_field _ (negb (String.eqb n (prevSynMinor st))) Hv) as [V1 V2].
  split.
  - unfold stripRow. cbn [Version Runtime Date].
    rewrite V2, R2, D2. now destruct r.
  - unfold readable. cbn [Version Runtime Date].
    now rewrite V1, R1, D1, written_version.
Qed.

Lemma boldRows_storable (rows : list tableRow) :
  forallb storable rows = true ->
  exists st rows', boldRows rows = Returns (st, rows')
                   /\ map stripRow rows' = rows
                   /\ forallb readable rows' = true.
Proof.
  induction rows as [| r rows IH]; cbn [forallb boldRows].
  - intros _. now exists (mkMinors "" ""), [].
  - intros H. apply andb_prop in H as [Hr Hrows].
    destruct (IH Hrows) as (st & rows' & -> & Hs & Hread).
    destruct (boldRow_storable st r Hr) as (st' & r' & -> & Hs' & Hread').
    exists st', (r' :: rows'). cbn [map forallb].
    now rewrite Hs, Hs', Hread, Hread'.
Qed.

(** ** Reading back the table *)

Lemma concat_empty_cons (x : string) (xs : list string) :
  String.concat "" (x :: xs) = (x ++ String.concat "" xs)%string.
Proof.
  destruct xs as [| y xs]; cbn [String.concat]; [now rewrite append_nil_r |].
  reflexivity.
Qed.

Lemma tableBody_cons (r : tableRow) (rows : list tableRow) :
  tableBody (r :: rows) = (csv_Write (toStrings r) ++ tableBody rows)%string.
Proof. unfold tableBody. cbn [map]. apply concat_empty_cons. Qed.

Lemma readable_spec (r : tableRow) :
  readable r = true ->
  noCRLF (Version r) = true /\ noCRLF (Runtime r) = true
  /\ noCRLF (Date r) = true /\ String.eqb (Version r) "Version" = false.
Proof.
  unfold readable. intros H.
  apply andb_prop in H as [H H4]. apply andb_prop in H as [H H3].
  apply andb_prop in H as [H1 H2]. apply negb_true_iff in H4. tauto.
Qed.

Lemma noCRLF_tableBody (rows : list tableRow) :
  forallb readable rows = true -> noCRLF (tableBody rows) = true.
Proof.
  induction rows as [| r rows IH]; [reflexivity |].
  cbn [forallb]. intros H. apply andb_prop in H as [Hr Hrows].
  destruct (readable_spec r Hr) as (H1 & H2 & H3 & _).
  rewrite tableBody_cons. unfold toStrings. rewrite csv_Write_app.
  apply noCRLF_writeField_app; [exact H1 |].
  apply noCRLF_recordTail; [| now apply IH].
  cbn [forallb]. now rewrite H2, H3.
Qed.

Lemma tableBody_length (rows : list tableRow) :
  List.length rows <= String.length (tableBody rows).
Proof.
  induction rows as [| r rows IH]; [apply Nat.le_refl |].
  rewrite tableBody_cons, append_length. unfold csv_Write.
  rewrite append_length. cbn [List.length str1 String.length]. lia.
Qed.

Lemma readTable_loop_body (rows : list tableRow) :
  forall (acc : list tableRow) (fuel : nat),
    forallb readable rows = true -> List.length rows < fuel ->
    readTable_loop fuel (mkReader (tableBody rows) 3) acc
    = Ok (acc ++ map stripRow rows).
Proof.
  induction rows as [| r rows IH]; intros acc fuel Hrows Hfuel.
  - destruct fuel as [| fuel]; [inversion Hfuel |].
    cbn [map]. rewrite app_nil_r. reflexivity.
  - destruct fuel as [| fuel]; [inversion Hfuel |].
    cbn [forallb] in Hrows. apply andb_prop in Hrows as [Hr Hrows].
    destruct (readable_spec r Hr) as (H1 & H2 & H3 & H4).
    rewrite tableBody_cons. unfold toStrings. cbn [readTable_loop].
    rewrite csv_Read_written;
      [| exact H1 | cbn [forallb]; now rewrite H2, H3
       | now apply noCRLF_tableBody | now right].
    cbn [tableHeader hd]. rewrite H4. cbn [fromStrings].
    rewrite IH; [| exact Hrows | cbn [List.length] in Hfuel; lia].
    cbn [map]. now rewrite <- app_assoc.
Qed.

Lemma readTable_written (rows : list tableRow) :
  forallb readable rows = true ->
  readTable (csv_Write tableHeader ++ tableBody rows) = Ok (map stripRow rows).
Proof.
  intros Hrows. unfold readTable, csv_NewReader, tableHeader.
  cbn [readTable_loop].
  rewrite csv_Read_written;
    [| reflexivity | reflexivity | now apply noCRLF_tableBody | now left].
  cbn [hd]. cbn [String.eqb Ascii.eqb Bool.eqb].
  apply (readTable_loop_body rows []); [exact Hrows |].
  rewrite append_length. pose proof (tableBody_length rows).
  unfold csv_Write. rewrite append_length. cbn [str1 String.length]. lia.
Qed.

(** C9 (amended): for every table with unique versions whose rows have a
    dot in version and runtime (the tables that [writeTable] can format)
    and whose fields have no emphasis marker at either end and no
    carriage return before a newline, [readTable] applied to what
    [writeTable] writes returns the rows of the table, in the order of
    the file. *)
Theorem load_save_roundtrip (rows : list tableRow) :
  NoDup (map Version rows) ->
  forallb storable rows = true ->
  exists out,
    writeTable rows = Returns out
    /\ readTable out = Ok (sort_Slice rowLess rows)
    /\ Permutation rows (sort_Slice rowLess rows).
Proof.
  intros _ H.
  rewrite (forallb_Permutation _ _ _ (sort_Slice_Permutation rowLess rows)) in H.
  destruct (boldRows_storable _ H) as (st & rows' & Hb & Hs & Hr).
  unfold writeTable, formatRows. rewrite Hb.
  eexists. split; [reflexivity |]. split.
  - fold (tableBody rows'). rewrite readTable_written by exact Hr.
    now rewrite Hs.
  - apply sort_Slice_Permutation.
Qed.

Lemma load_save_roundtrip_witness :
  exists out,
    writeTable [mkRow "v1.2.1" "go1.15.8, patched" "2021-02-01";
                mkRow "v1.3.0" "go1.16" "2021-03-01"] = Returns out
    /\ readTable out = Ok [mkRow "v1.3.0" "go1.16" "2021-03-01";
                           mkRow "v1.2.1" "go1.15.8, patched" "2021-02-01"].
Proof.
  destruct (load_save_roundtrip
              [mkRow "v1.2.1" "go1.15.8, patched" "2021-02-01";
               mkRow "v1.3.0" "go1.16" "2021-03-01"])
    as (out & Hw & Hr & _).
  - constructor; [intros [H | []]; discriminate H |].
    constructor; [intros [] | constructor].
  - reflexivity.
  - exists out. split; [exact Hw | exact Hr].
Defined.

(** C9, as stated, fails.  A field with a carriage return before a
    newline comes back without the carriage return, and a table with a
    row that has no runtime is not written at all; both tables have one
    row and no emphasis marker in any field. *)
Lemma load_save_loses_rows :
  let crlf := String byte_CR (String byte_LF EmptyString) in
  let t1 := [mkRow "v1.0.0" "go1.4.2" ("2015-05-03" ++ crlf ++ "(rebuilt)")] in
  let t2 := [mkRow "v1.0.0" "" "2015-05-03"] in
  NoDup (map Version t1) /\ NoDup (map Version t2)
  /\ map stripRow t1 = t1 /\ map stripRow t2 = t2
  /\ ~ (exists out rows', writeTable t1 = Returns out
                          /\ readTable out = Ok rows' /\ Permutation t1 rows')
  /\ ~ (exists out, writeTable t2 = Returns out).
Proof.
  cbv zeta. repeat split.
  - constructor; [intros [] | constructor].
  - constructor; [intros [] | constructor].
  - intros (out & rows' & Hw & Hr & Hp).
    vm_compute in Hw. injection Hw as <-.
    vm_compute in Hr. injection Hr as <-.
    apply Permutation_length_1 in Hp. discriminate Hp.
  - intros (out & Hw). discriminate Hw.
Qed.

Example load_save_drops_carriage_return :
  let crlf := String byte_CR (String byte_LF EmptyString) in
  match writeTable [mkRow "v1.0.0" "go1.4.2" ("2015-05-03" ++ crlf ++ "(rebuilt)")] with
  | Returns out => readTable out
  | Panics _ => Err fuelError
  end
  = Ok [mkRow "v1.0.0" "go1.4.2" ("2015-05-03" ++ str1 byte_LF ++ "(rebuilt)")].
Proof. vm_compute. reflexivity. Qed.
(* ===================================================================== *)
(** * More on merging rows *)
(* ===================================================================== *)

Lemma cmp_Or_assoc (a b c : string) :
  cmp_Or c (cmp_Or b a) = cmp_Or (cmp_Or c b) a.
Proof.
  unfold cmp_Or. destruct (String.eqb_spec c ""); [reflexivity |].
  now destruct (String.eqb_spec c "").
Qed.

Lemma cmp_Or_empty_r (a : string) : cmp_Or a "" = a.
Proof. unfold cmp_Or. now destruct (String.eqb_spec a ""). Qed.

Lemma lastNonEmpty_snoc (l : list string) (s : string) :
  lastNonEmpty (l ++ [s]) = cmp_Or s (lastNonEmpty l).
Proof.
  unfold lastNonEmpty, cmp_Or. rewrite rev_app_distr. cbn [rev app find].
  now destruct (String.eqb s "").
Qed.

Lemma fold_cmp_Or_last (l : list string) (x : string) :
  fold_left (fun acc s => cmp_Or s acc) l x = lastNonEmpty (x :: l).
Proof.
  induction l as [| s l IH] using rev_ind.
  - unfold lastNonEmpty. cbn. now destruct (String.eqb_spec x "").
  - rewrite fold_left_app. cbn [fold_left]. rewrite IH.
    now rewrite app_comm_cons, lastNonEmpty_snoc.
Qed.

Lemma fold_merge_fields (rows : list tableRow) :
  forall init,
    Version (fold_left merge rows init)
    = fold_left (fun acc s => cmp_Or s acc) (map Version rows) (Version init)
    /\ Runtime (fold_left merge rows init)
       = fold_left (fun acc s => cmp_Or s acc) (map Runtime rows) (Runtime init)
    /\ Date (fold_left merge rows init)
       = fold_left (fun acc s => cmp_Or s acc) (map Date rows) (Date init).
Proof.
  induction rows as [| r rows IH]; intros init; [now repeat split |].
  cbn [fold_left map]. destruct (IH (merge init r)) as (Hv & Hr & Hd).
  rewrite Hv, Hr, Hd. now repeat split.
Qed.

(** X1: a chain of merges [init.merge(r1). ... .merge(rn)] gives, field
    by field, the last value of [init], [r1], ..., [rn] that is not
    empty, and the empty string when all are empty; merging is
    associative, and the empty row is neutral on both sides. *)
Theorem merge_chain_last_non_empty (init a b c : tableRow) (rows : list tableRow) :
  (Version (fold_left merge rows init) = lastNonEmpty (map Version (init :: rows))
   /\ Runtime (fold_left merge rows init) = lastNonEmpty (map Runtime (init :: rows))
   /\ Date (fold_left merge rows init) = lastNonEmpty (map Date (init :: rows)))
  /\ merge (merge a b) c = merge a (merge b c)
  /\ merge a (mkRow "" "" "") = a
  /\ merge (mkRow "" "" "") a = a.
Proof.
  split.
  - destruct (fold_merge_fields rows init) as (Hv & Hr & Hd).
    rewrite Hv, Hr, Hd. cbn [map]. now rewrite !fold_cmp_Or_last.
  - destruct a as [va ra da], b as [vb rb db], c as [vc rc dc].
    unfold merge. cbn [Version Runtime Date].
    rewrite !cmp_Or_assoc, !cmp_Or_empty_r. repeat split.
Qed.

(* ===================================================================== *)
(** * Loading rows *)
(* ===================================================================== *)

Lemma trimLeftByte_idem (s : string) (c : ascii) :
  trimLeftByte (trimLeftByte s c) c = trimLeftByte s c.
Proof.
  induction s as [| a s IH]; [reflexivity |]. cbn [trimLeftByte].
  destruct (Ascii.eqb a c) eqn:E; [exact IH |]. cbn [trimLeftByte]. now rewrite E.
Qed.

Lemma trimRightByte_idem (s : string) (c : ascii) :
  trimRightByte (trimRightByte s c) c = trimRightByte s c.
Proof.
  induction s as [| a s IH]; [reflexivity |]. cbn [trimRightByte].
  destruct (trimRightByte s c) as [| b t] eqn:E.
  - destruct (Ascii.eqb a c) eqn:Ea; [reflexivity |].
    cbn [trimRightByte str1]. now rewrite Ea.
  - cbn [trimRightByte]. cbn [trimRightByte] in IH. rewrite IH. reflexivity.
Qed.

Lemma trimRight_trimLeft (x : string) (c : ascii) :
  trimRightByte x c = x -> trimRightByte (trimLeftByte x c) c = trimLeftByte x c.
Proof.
  induction x as [| a x IH]; [reflexivity |]. cbn [trimLeftByte].
  intros H. destruct (Ascii.eqb a c) eqn:E; [| exact H].
  apply IH. cbn [trimRightByte] in H.
  destruct (trimRightByte x c) as [| b t]; [| now injection H].
  rewrite E in H. discriminate H.
Qed.

Lemma strings_Trim_idem (s : string) (c : ascii) :
  strings_Trim (strings_Trim s c) c = strings_Trim s c.
Proof.
  unfold strings_Trim.
  rewrite trimRight_trimLeft by apply trimRightByte_idem.
  apply trimLeftByte_idem.
Qed.

Lemma trimLeftByte_head (s : string) (c : ascii) :
  match trimLeftByte s c with
  | String a _ => Ascii.eqb a c = false
  | EmptyString => True
  end.
Proof.
  induction s as [| a s IH]; [exact I |]. cbn [trimLeftByte].
  destruct (Ascii.eqb a c) eqn:E; [exact IH | exact E].
Qed.

Lemma endsWith_cons (c a : ascii) (s : string) :
  endsWith c (String a s)
  = match s with EmptyString => Ascii.eqb a c | _ => endsWith c s end.
Proof. unfold endsWith. cbn [lastByte]. now destruct s. Qed.

Lemma trimRightByte_last (s : string) (c : ascii) :
  endsWith c (trimRightByte s c) = false.
Proof.
  induction s as [| a s IH]; [reflexivity |]. cbn [trimRightByte].
  destruct (trimRightByte s c) as [| b t] eqn:E.
  - destruct (Ascii.eqb a c) eqn:Ea; [reflexivity |].
    unfold endsWith. cbn. exact Ea.
  - rewrite endsWith_cons. exact IH.
Qed.

Lemma trimLeftByte_last (x : string) (c : ascii) :
  endsWith c x = false -> endsWith c (trimLeftByte x c) = false.
Proof.
  induction x as [| a x IH]; [reflexivity |]. cbn [trimLeftByte].
  intros H. destruct (Ascii.eqb a c) eqn:E; [| exact H].
  apply IH. rewrite endsWith_cons in H.
  destruct x; [congruence | exact H].
Qed.

Lemma prefix_byte (c : ascii) (s : string) :
  match s with
  | String a _ => Ascii.eqb a c = false
  | EmptyString => True
  end ->
  String.prefix (str1 c) s = false.
Proof.
  destruct s as [| a s]; [reflexivity |]. intros H. cbn.
  destruct (ascii_dec c a) as [<- | _]; [| reflexivity].
  now rewrite Ascii.eqb_refl in H.
Qed.

(** A string without the cutset byte at its head and at its end. *)
Lemma strings_Trim_ends (s : string) (c : ascii) :
  match strings_Trim s c with
  | String a _ => Ascii.eqb a c = false
  | EmptyString => True
  end
  /\ endsWith c (strings_Trim s c) = false.
Proof.
  unfold strings_Trim. split; [apply trimLeftByte_head |].
  apply trimLeftByte_last, trimRightByte_last.
Qed.

Lemma fromStrings_stripped (ss : list string) (r : tableRow) :
  fromStrings ss = Ok r -> stripRow r = r.
Proof.
  destruct ss as [| s0 [| s1 [| s2 more]]]; try discriminate.
  intros [= <-]. unfold stripRow. cbn [Version Runtime Date].
  now rewrite !strings_Trim_idem.
Qed.

Lemma readTable_loop_stripped (fuel : nat) :
  forall (cr : csvReader) (acc rows : list tableRow),
    Forall (fun r => stripRow r = r) acc ->
    readTable_loop fuel cr acc = Ok rows ->
    Forall (fun r => stripRow r = r) rows.
Proof.
  induction fuel as [| fuel IH]; intros cr acc rows Hacc; [discriminate |].
  cbn [readTable_loop]. destruct (csv_Read cr) as [[ss | e] cr'].
  - destruct ss as [| s0 ss]; [now apply IH |].
    destruct (String.eqb s0 (hd "" tableHeader)); [now apply IH |].
    destruct (fromStrings (s0 :: ss)) as [row | e] eqn:E; [| discriminate].
    apply IH. apply Forall_app. split; [exact Hacc |].
    constructor; [| constructor]. now apply (fromStrings_stripped (s0 :: ss)).
  - destruct (error_eqb e io_EOF); [| discriminate]. now intros [= <-].
Qed.

(** X2: whatever the input, no field of a row that [readTable] returns
    starts or ends with the emphasis marker: loading a row a second time
    would change nothing. *)
Theorem readTable_rows_stripped (input : string) (rows : list tableRow) (r : tableRow) :
  readTable input = Ok rows -> In r rows ->
  stripRow r = r
  /\ endsWith "*" (Version r) = false
  /\ endsWith "*" (Runtime r) = false
  /\ endsWith "*" (Date r) = false
  /\ String.prefix "*" (Version r) = false
  /\ String.prefix "*" (Runtime r) = false
  /\ String.prefix "*" (Date r) = false.
Proof.
  intros Hread Hin.
  assert (stripRow r = r) as Hr.
  { pose proof (readTable_loop_stripped _ _ [] rows (Forall_nil _) Hread) as H.
    rewrite Forall_forall in H. now apply H. }
  split; [exact Hr |]. rewrite <- Hr. unfold stripRow. cbn [Version Runtime Date].
  pose proof (strings_Trim_ends (Version r) "*") as [V1 V2].
  pose proof (strings_Trim_ends (Runtime r) "*") as [R1 R2].
  pose proof (strings_Trim_ends (Date r) "*") as [D1 D2].
  repeat split; try assumption; now apply (prefix_byte "*").
Qed.

Lemma readTable_rows_stripped_witness :
  readTable ("**v1.2.0**,**go1.15.6**,2021-01-01" ++ str1 byte_LF)
  = Ok [mkRow "v1.2.0" "go1.15.6" "2021-01-01"]
  /\ String.prefix "*" "v1.2.0" = false.
Proof.
  assert (readTable ("**v1.2.0**,**go1.15.6**,2021-01-01" ++ str1 byte_LF)
          = Ok [mkRow "v1.2.0" "go1.15.6" "2021-01-01"]) as H
      by (vm_compute; reflexivity).
  split; [exact H |].
  apply (readTable_rows_stripped _ _ (mkRow "v1.2.0" "go1.15.6" "2021-01-01") H).
  now left.
Defined.

(* ===================================================================== *)
(** * More on the prober *)
(* ===================================================================== *)

Lemma cut_Some (c : ascii) (s l r : string) :
  cut c s = Some (l, r) ->
  s = (l ++ String c r)%string /\ anyByte (fun x => Ascii.eqb x c) l = false.
Proof.
  revert l. induction s as [| a s IH]; intros l; [discriminate |].
  cbn [cut]. destruct (Ascii.eqb a c) eqn:E.
  - intros [= <- <-]. apply Ascii.eqb_eq in E. now subst a.
  - destruct (cut c s) as [[l' r'] |]; [| discriminate].
    intros [= <- <-]. destruct (IH l' eq_refl) as [-> Hl].
    cbn [append anyByte]. now rewrite E, Hl.
Qed.

Lemma cut_None (c : ascii) (s : string) :
  cut c s = None -> anyByte (fun x => Ascii.eqb x c) s = false.
Proof.
  induction s as [| a s IH]; [reflexivity |].
  cbn [cut anyByte]. destruct (Ascii.eqb a c); [discriminate |].
  destruct (cut c s) as [[l r] |]; [discriminate | exact IH].
Qed.

Lemma substring_all (s : string) (n : nat) :
  String.length s <= n -> substring 0 n s = s.
Proof.
  revert n. induction s as [| a s IH]; intros n Hn.
  - now destruct n.
  - destruct n as [| n]; [cbn in Hn; lia |].
    cbn [substring]. rewrite IH; [reflexivity | cbn in Hn; lia].
Qed.

Lemma substring_skip (a b : string) (n : nat) :
  substring (String.length a) n (a ++ b) = substring 0 n b.
Proof. induction a as [| x a IH]; [reflexivity | exact IH]. Qed.

Lemma strings_LastIndex_none (s : string) (c : ascii) :
  (strings_LastIndex s c < 0)%Z ->
  anyByte (fun x => Ascii.eqb x c) s = false.
Proof.
  induction s as [| a s IH]; [reflexivity |].
  cbn [strings_LastIndex anyByte].
  destruct (0 <=? strings_LastIndex s c)%Z eqn:E.
  - apply Z.leb_le in E. lia.
  - apply Z.leb_gt in E. destruct (Ascii.eqb a c); [lia |].
    intros _. now apply IH.
Qed.

(** The last position of a byte splits the string at that byte, with no
    such byte behind it. *)
Lemma strings_LastIndex_split (s : string) (c : ascii) :
  (0 <= strings_LastIndex s c)%Z ->
  exists pre post,
    s = (pre ++ String c post)%string
    /\ strings_LastIndex s c = Z.of_nat (String.length pre)
    /\ anyByte (fun x => Ascii.eqb x c) post = false.
Proof.
  induction s as [| a s IH]; cbn [strings_LastIndex]; [lia |].
  destruct (0 <=? strings_LastIndex s c)%Z eqn:E.
  - apply Z.leb_le in E. intros _.
    destruct (IH E) as (pre & post & -> & Hi & Hp).
    exists (String a pre), post. cbn [append String.length].
    repeat split; [lia | exact Hp].
  - apply Z.leb_gt in E. destruct (Ascii.eqb a c) eqn:Ea; [| lia].
    intros _. apply Ascii.eqb_eq in Ea. subst a.
    exists EmptyString, s. repeat split. now apply strings_LastIndex_none.
Qed.

(** X3: when the [go] tool answers, [getVersionFromGo] fails with "no
    version" exactly if the answer has no newline or its first line has
    no space; otherwise the row has nothing but a runtime, which is the
    text between the last space of the first line and its end, so it
    holds neither a space nor a newline. *)
Theorem getVersionFromGo_last_word (w : world) (name out : string) (files : fs) :
  exec_Output w files "go" ["version"; "-m"; name] = Ok out ->
  (exists line rest pre rt,
      out = (line ++ String byte_LF rest)%string
      /\ hasLF line = false
      /\ line = (pre ++ String " " rt)%string
      /\ anyByte (fun x => Ascii.eqb x " ") rt = false
      /\ getVersionFromGo w name files = Ok (mkRow "" rt ""))
  \/ (getVersionFromGo w name files = Err (errorString "no version")
      /\ (hasLF out = false
          \/ exists line rest,
               out = (line ++ String byte_LF rest)%string
               /\ hasLF line = false
               /\ anyByte (fun x => Ascii.eqb x " ") line = false)).
Proof.
  intros Hexec. unfold getVersionFromGo. rewrite Hexec.
  destruct (cut byte_LF out) as [[line rest] |] eqn:Hcut.
  - destruct (cut_Some _ _ _ _ Hcut) as [-> Hline].
    destruct (strings_LastIndex line " " <? 0)%Z eqn:E.
    + apply Z.ltb_lt in E. right. split; [reflexivity |]. right.
      exists line, rest. repeat split; [exact Hline |].
      now apply strings_LastIndex_none.
    + apply Z.ltb_ge in E. left.
      destruct (strings_LastIndex_split _ _ E) as (pre & rt & Hl & Hi & Hrt).
      exists line, rest, pre, rt. repeat split; try assumption.
      rewrite Hi. replace (Z.to_nat (Z.of_nat (String.length pre) + 1))
        with (String.length (pre ++ " ")) by (rewrite append_length; cbn; lia).
      rewrite Hl at 2.
      replace (pre ++ String " " rt)%string with ((pre ++ " ") ++ rt)%string
        by now rewrite append_assoc.
      rewrite substring_skip, substring_all; [reflexivity |].
      rewrite Hl, append_length. cbn. lia.
  - right. split; [reflexivity |]. left. now apply cut_None.
Qed.

Lemma getVersionFromGo_last_word_witness :
  getVersionFromGo goToolWorld "/tmp/syncthing1" [] = Ok (mkRow "" "go1.25.7" "").
Proof.
  destruct (getVersionFromGo_last_word goToolWorld "/tmp/syncthing1" _ [] eq_refl)
    as [(line & rest & pre & rt & _ & _ & _ & _ & H) | [H _]].
  - rewrite H. vm_compute in H. injection H as <-. reflexivity.
  - vm_compute in H. discriminate H.
Defined.

Lemma fs_remove_absent (name : string) (files : fs) :
  fs_exists name files = false -> fs_remove name files = files.
Proof.
  unfold fs_exists, fs_remove. induction files as [| [n d] files IH]; [reflexivity |].
  cbn [existsb filter fst]. intros H. apply orb_false_elim in H as [Hn Hf].
  rewrite Hn. cbn [negb]. now rewrite IH.
Qed.

Lemma fs_remove_write (name data : string) (files : fs) :
  fs_remove name (fs_write name data files) = fs_remove name files.
Proof.
  unfold fs_write. unfold fs_remove at 1. cbn [filter fst].
  rewrite String.eqb_refl. cbn [negb].
  apply fs_remove_absent, fs_exists_remove.
Qed.

(** X4: a probe that gets past the copy leaves the temporary directory
    as it found it, whether the probe succeeds or fails; so does a probe
    that cannot create its file. *)
Theorem getVersionFromReader_restores (w : world) (r : reader) (files : fs) :
  rdErr r = None ->
  match os_CreateTemp w files with
  | Ok name => fs_exists name files = false
  | Err _ => True
  end ->
  snd (getVersionFromReader w r files) = files.
Proof.
  intros Hr Hfresh. unfold getVersionFromReader.
  destruct (os_CreateTemp w files) as [name | e]; [| reflexivity].
  rewrite Hr. cbn [snd]. rewrite !fs_remove_write.
  now apply fs_remove_absent.
Qed.

Lemma getVersionFromReader_restores_witness :
  snd (getVersionFromReader quietWorld (mkRd sampleBanner None)
                            [("/tmp/other", "data")])
  = [("/tmp/other", "data")].
Proof.
  apply getVersionFromReader_restores; reflexivity.
Defined.

Lemma getVersionFromGo_shape (w : world) (name : string) (files : fs) (row : tableRow) :
  getVersionFromGo w name files = Ok row -> Version row = "" /\ Date row = "".
Proof.
  unfold getVersionFromGo.
  destruct (exec_Output w files "go" ["version"; "-m"; name]); [| discriminate].
  destruct (cut byte_LF a) as [[line rest] |]; [| discriminate].
  destruct (strings_LastIndex line " " <? 0)%Z; [discriminate |].
  now intros [= <-].
Qed.

(** X5: the two strategies of the probe in their order.  The row of the
    self-report is the result whenever the self-report succeeds; when
    it fails, the result is that of the build information, and merged
    onto the seed row of a release it keeps the tag and the date of the
    seed and adds the runtime. *)
Theorem probe_falls_back_to_build_info (w : world) (r : reader) (files : fs)
        (name : string) (rel : release) :
  os_CreateTemp w files = Ok name -> rdErr r = None ->
  let copied := fs_write name (rdBytes r) (fs_write name "" files) in
  os_Chmod w copied name = None ->
  (forall row, getVersionFromCommand w name copied = Ok row ->
               fst (getVersionFromReader w r files) = Ok row)
  /\ (forall e, getVersionFromCommand w name copied = Err e ->
                fst (getVersionFromReader w r files) = getVersionFromGo w name copied
                /\ forall row, getVersionFromGo w name copied = Ok row ->
                               merge (seedRow rel) row
                               = mkRow (TagName rel) (Runtime row) (Date (seedRow rel))).
Proof.
  intros Hn Hr copied Hc. unfold getVersionFromReader. rewrite Hn, Hr.
  fold copied. rewrite Hc. cbn [fst]. split.
  - now intros row ->.
  - intros e ->. split; [reflexivity |]. intros row Hrow.
    destruct (getVersionFromGo_shape _ _ _ _ Hrow) as [Hv Hd].
    unfold merge. rewrite Hv, Hd. cbn [seedRow Version Runtime Date].
    now rewrite cmp_Or_empty_r.
Qed.

Lemma probe_falls_back_to_build_info_witness :
  fst (getVersionFromReader goToolWorld (mkRd "#!/bin/sh" None) [])
  = Ok (mkRow "" "go1.25.7" "").
Proof.
  destruct (probe_falls_back_to_build_info goToolWorld (mkRd "#!/bin/sh" None) []
              "/tmp/syncthing2718281828" release_v1_23_1 eq_refl eq_refl eq_refl)
    as [_ H].
  destruct (H (pkgError "os/exec" "exec format error") eq_refl) as [-> _].
  reflexivity.
Defined.

(* ===================================================================== *)
(** * More on the extractors *)
(* ===================================================================== *)

Lemma strings_Contains_anyByte (s : string) (c : ascii) :
  strings_Contains s c = false -> anyByte (fun x => Ascii.eqb x c) s = false.
Proof.
  intros H. apply strings_LastIndex_none.
  apply strings_Contains_false in H. lia.
Qed.

Lemma trimRightByte_absent (s : string) (c : ascii) :
  anyByte (fun x => Ascii.eqb x c) s = false -> trimRightByte s c = s.
Proof.
  induction s as [| a s IH]; [reflexivity |]. cbn [anyByte trimRightByte].
  intros H. apply orb_false_elim in H as [Ha Hs]. rewrite (IH Hs), Ha.
  now destruct s.
Qed.

Lemma trimRightByte_app_keep (a b : string) (c : ascii) :
  trimRightByte b c <> "" ->
  trimRightByte (a ++ b) c = (a ++ trimRightByte b c)%string.
Proof.
  intros Hb. induction a as [| x a IH]; [reflexivity |].
  cbn [append trimRightByte]. rewrite IH.
  destruct (a ++ trimRightByte b c)%string eqn:E; [| reflexivity].
  destruct a; [contradiction | discriminate].
Qed.

Lemma strings_LastIndex_app (a b : string) (c : ascii) :
  strings_LastIndex (a ++ b) c
  = if (0 <=? strings_LastIndex b c)%Z
    then (Z.of_nat (String.length a) + strings_LastIndex b c)%Z
    else strings_LastIndex a c.
Proof.
  induction a as [| x a IH].
  - cbn [append String.length strings_LastIndex].
    destruct (0 <=? strings_LastIndex b c)%Z eqn:E; [lia |].
    apply Z.leb_gt in E. destruct (strings_LastIndex_range b c); lia.
  - cbn [append String.length strings_LastIndex]. rewrite IH.
    destruct (0 <=? strings_LastIndex b c)%Z eqn:E; [| reflexivity].
    apply Z.leb_le in E.
    destruct (0 <=? Z.of_nat (String.length a) + strings_LastIndex b c)%Z eqn:E2;
      [lia | apply Z.leb_gt in E2; lia].
Qed.

(** The base name of an entry [syncthing] in whatever directory. *)
Lemma path_Base_in_dir (dir : string) :
  path_Base (dir ++ "/syncthing") = "syncthing".
Proof.
  assert (strings_LastIndex (dir ++ "/syncthing") "/"
          = Z.of_nat (String.length dir)) as Hi.
  { rewrite strings_LastIndex_app.
    change (strings_LastIndex "/syncthing" "/") with 0%Z.
    change (0 <=? 0)%Z with true. cbv iota. lia. }
  unfold path_Base.
  replace (String.eqb (dir ++ "/syncthing") "") with false by now destruct dir.
  rewrite trimRightByte_app_keep by discriminate.
  change (trimRightByte "/syncthing" "/") with "/syncthing".
  rewrite Hi.
  replace (0 <=? Z.of_nat (String.length dir))%Z with true
    by (symmetry; apply Z.leb_le; lia).
  replace (Z.to_nat (Z.of_nat (String.length dir) + 1))
    with (String.length (dir ++ "/")) by (rewrite append_length; cbn; lia).
  replace (dir ++ "/syncthing")%string with ((dir ++ "/") ++ "syncthing")%string
    by now rewrite append_assoc.
  rewrite substring_skip, substring_all; [reflexivity |].
  rewrite append_length. cbn. lia.
Qed.

Lemma tarScan_first (before after : list (string * reader)) (name : string)
      (body : reader) :
  (forall n b, In (n, b) before -> path_Base n <> "syncthing") ->
  path_Base name = "syncthing" ->
  tarScan (before ++ (name, body) :: after) = Some body.
Proof.
  intros Hb Hn. induction before as [| [n b] before IH]; cbn [app tarScan].
  - now rewrite Hn.
  - destruct (String.eqb_spec (path_Base n) "syncthing") as [E | _]; cbn [negb].
    + exfalso. apply (Hb n b); [now left | exact E].
    + apply IH. intros n' b' H. apply (Hb n' b'). now right.
Qed.

Lemma tarScan_none (entries : list (string * reader)) :
  (forall n b, In (n, b) entries -> path_Base n <> "syncthing") ->
  tarScan entries = None.
Proof.
  induction entries as [| [n b] entries IH]; intros H; [reflexivity |].
  cbn [tarScan].
  destruct (String.eqb_spec (path_Base n) "syncthing") as [E | _]; cbn [negb].
  - exfalso. apply (H n b); [now left | exact E].
  - apply IH. intros n' b' Hin. apply (H n' b'). now right.
Qed.

(** X6: when the gzip header is read, the tar extractor probes the first
    entry of the archive whose base name is [syncthing], whatever
    entries stand in front of it and behind it; an entry [syncthing] in
    any directory, at any depth, has that base name, so unlike the zip
    extractor there is no test on the directory.  An archive without
    such an entry gives "no syncthing binary found" and touches no
    file. *)
Theorem targz_extracts_first_base_name (w : world) (bs : string)
        (tr : tarStream) (files : fs) :
  gzip_NewReader w bs = Ok tr ->
  (forall before name body after,
      tarEntries tr = before ++ (name, body) :: after ->
      (forall n b, In (n, b) before -> path_Base n <> "syncthing") ->
      path_Base name = "syncthing" ->
      getReleaseVersionTarGz w bs files = getVersionFromReader w body files)
  /\ ((forall n b, In (n, b) (tarEntries tr) -> path_Base n <> "syncthing") ->
      getReleaseVersionTarGz w bs files
      = (Err (errorString "no syncthing binary found"), files))
  /\ (forall dir, path_Base (dir ++ "/syncthing") = "syncthing").
Proof.
  intros Hgz. split; [| split].
  - intros before name body after He Hb Hn. unfold getReleaseVersionTarGz.
    now rewrite Hgz, He, (tarScan_first before after name body Hb Hn).
  - intros Hnone. unfold getReleaseVersionTarGz.
    now rewrite Hgz, (tarScan_none _ Hnone).
  - apply path_Base_in_dir.
Qed.

Lemma targz_extracts_first_base_name_witness :
  let readme := ("syncthing-linux-amd64-v1.23.1/README.txt", mkRd "Syncthing" None) in
  let deep := ("syncthing-linux-amd64-v1.23.1/bin/syncthing", mkRd sampleBanner None) in
  let other := ("syncthing-linux-amd64-v1.23.1/etc/syncthing", mkRd olderBanner None) in
  let w := servingWorld "gz" (Err zip_ErrFormat)
                        (Ok (mkTar [readme; deep; other] io_EOF)) in
  getReleaseVersionTarGz w "gz" []
  = getVersionFromReader w (mkRd sampleBanner None) [].
Proof.
  cbv zeta.
  refine (proj1 (targz_extracts_first_base_name
                   (servingWorld "gz" (Err zip_ErrFormat)
                      (Ok (mkTar [("syncthing-linux-amd64-v1.23.1/README.txt",
                                   mkRd "Syncthing" None);
                                  ("syncthing-linux-amd64-v1.23.1/bin/syncthing",
                                   mkRd sampleBanner None);
                                  ("syncthing-linux-amd64-v1.23.1/etc/syncthing",
                                   mkRd olderBanner None)] io_EOF)))
                   "gz" _ [] eq_refl)
                [("syncthing-linux-amd64-v1.23.1/README.txt", mkRd "Syncthing" None)]
                "syncthing-linux-amd64-v1.23.1/bin/syncthing"
                (mkRd sampleBanner None)
                [("syncthing-linux-amd64-v1.23.1/etc/syncthing", mkRd olderBanner None)]
                eq_refl _ _).
  - intros n b [[= <- <-] | []]. vm_compute. discriminate.
  - vm_compute. reflexivity.
Defined.

(** ** The directory test of the zip extractor *)

Lemma path_Dir_top (name : string) :
  strings_Contains name "/" = false -> path_Dir name = ".".
Proof.
  intros H. apply strings_Contains_false in H. unfold path_Dir. rewrite H.
  now destruct name.
Qed.

Lemma path_Base_top (name : string) :
  strings_Contains name "/" = false -> name <> "" -> path_Base name = name.
Proof.
  intros H Hne. unfold path_Base.
  destruct (String.eqb_spec name ""); [contradiction |].
  rewrite trimRightByte_absent by now apply strings_Contains_anyByte.
  apply strings_Contains_false in H. rewrite H.
  change (0 <=? -1)%Z with false. cbv iota.
  now destruct (String.eqb_spec name "").
Qed.

(** The inner loop of [path.Clean] copies an element up to its slash. *)
Lemma cleanLoop_copy (d rest : string) (rooted : bool) (rout : list ascii) (dd : nat) :
  anyByte (fun x => Ascii.eqb x "/") d = false ->
  cleanLoop (d ++ String "/" rest) rooted true rout dd
  = cleanLoop rest rooted false (rev (list_ascii_of_string d) ++ rout) dd.
Proof.
  revert rout. induction d as [| c d IH]; intros rout Hd.
  - reflexivity.
  - cbn [anyByte] in Hd. apply orb_false_elim in Hd as [Hc Hd].
    cbn [append cleanLoop]. rewrite Hc, (IH _ Hd).
    cbn [list_ascii_of_string rev]. now rewrite <- app_assoc.
Qed.

(** The outer loop of [path.Clean] at the start of an ordinary element. *)
Lemma cleanLoop_element (d rest : string) (rout : list ascii) (dd : nat) :
  plainName d = true ->
  cleanLoop (d ++ String "/" rest) false false rout dd
  = cleanLoop rest false false
      (rev (list_ascii_of_string d)
           ++ match rout with [] => [] | _ => "/"%char :: rout end) dd.
Proof.
  unfold plainName. intros H. apply andb_prop in H as [Hc Hs].
  apply negb_true_iff, strings_Contains_anyByte in Hs.
  destruct d as [| c d]; [discriminate |].
  apply negb_true_iff in Hc. cbn [anyByte] in Hs.
  apply orb_false_elim in Hs as [Hc' Hd].
  cbn [append cleanLoop]. rewrite Hc', Hc. cbn [andb negb orb].
  rewrite (cleanLoop_copy d rest false _ dd Hd).
  cbn [list_ascii_of_string rev]. rewrite <- app_assoc. cbn [app].
  now destruct rout.
Qed.

Lemma string_of_rev_rev (s : string) (l : list ascii) :
  string_of_rev (rev (list_ascii_of_string s) ++ l)
  = (string_of_list_ascii (rev l) ++ s)%string.
Proof.
  unfold string_of_rev. rewrite rev_app_distr, rev_involutive.
  generalize (rev l) as k. intros k.
  induction k as [| x k IH]; cbn; [apply string_of_list_ascii_of_string |].
  now rewrite IH.
Qed.

Lemma path_Clean_relative (c : ascii) (p : string) (rout : list ascii) :
  Ascii.eqb c "/" = false ->
  cleanLoop (String c p) false false [] 0 = rout -> rout <> [] ->
  path_Clean (String c p) = string_of_rev rout.
Proof.
  intros Hc Hl Hne. unfold path_Clean. rewrite Hc, Hl.
  now destruct rout.
Qed.

Lemma rev_chars_nonempty (c : ascii) (d : string) (l : list ascii) :
  rev (list_ascii_of_string (String c d)) ++ l <> [].
Proof.
  intros E. apply (f_equal (@List.length ascii)) in E.
  cbn [list_ascii_of_string rev] in E. rewrite !length_app in E.
  cbn [List.length] in E. lia.
Qed.

Lemma plainName_head (d : string) :
  plainName d = true ->
  exists c d', d = String c d' /\ Ascii.eqb c "/" = false.
Proof.
  unfold plainName. intros H. apply andb_prop in H as [H0 Hs].
  apply negb_true_iff, strings_Contains_anyByte in Hs.
  destruct d as [| c d]; [discriminate H0 |].
  cbn [anyByte] in Hs. apply orb_false_elim in Hs as [Hc _]. eauto.
Qed.

Lemma string_of_list_ascii_app (l k : list ascii) :
  string_of_list_ascii (l ++ k)
  = (string_of_list_ascii l ++ string_of_list_ascii k)%string.
Proof. induction l as [| x l IH]; cbn; [reflexivity | now rewrite IH]. Qed.

Lemma path_Clean_one (d : string) :
  plainName d = true -> path_Clean (d ++ "/") = d.
Proof.
  intros H. destruct (plainName_head d H) as (c & d' & -> & Hc).
  change (String c d' ++ "/")%string with (String c (d' ++ "/"))%string.
  rewrite (path_Clean_relative c (d' ++ "/")
             (rev (list_ascii_of_string (String c d')) ++ [])).
  - rewrite string_of_rev_rev. reflexivity.
  - exact Hc.
  - change (String c (d' ++ "/"))%string with (String c d' ++ String "/" "")%string.
    now rewrite cleanLoop_element.
  - apply rev_chars_nonempty.
Qed.

Lemma path_Clean_two (d1 d2 : string) :
  plainName d1 = true -> plainName d2 = true ->
  path_Clean (d1 ++ "/" ++ d2 ++ "/") = (d1 ++ "/" ++ d2)%string.
Proof.
  intros H1 H2. destruct (plainName_head d1 H1) as (c & d' & -> & Hc).
  change (String c d' ++ "/" ++ d2 ++ "/")%string
    with (String c (d' ++ "/" ++ d2 ++ "/"))%string.
  rewrite (path_Clean_relative c (d' ++ "/" ++ d2 ++ "/")
             (rev (list_ascii_of_string d2)
                  ++ "/"%char :: rev (list_ascii_of_string (String c d')) ++ [])).
  - rewrite string_of_rev_rev, app_nil_r.
    change (rev ("/"%char :: ?l)) with (rev l ++ ["/"%char]).
    rewrite rev_involutive, string_of_list_ascii_app,
      string_of_list_ascii_of_string.
    cbn [string_of_list_ascii]. now rewrite append_assoc.
  - exact Hc.
  - change (String c (d' ++ "/" ++ d2 ++ "/"))%string
      with (String c d' ++ String "/" (d2 ++ String "/" ""))%string.
    rewrite cleanLoop_element by exact H1.
    rewrite cleanLoop_element by exact H2. cbn [cleanLoop].
    rewrite !app_nil_r.
    destruct (rev (list_ascii_of_string (String c d'))) eqn:E; [| reflexivity].
    exfalso. apply (rev_chars_nonempty c d' []). now rewrite app_nil_r.
  - intros E. apply app_eq_nil in E as [_ E]. discriminate E.
Qed.

Lemma strings_LastIndex_in_dir (dir : string) :
  strings_LastIndex (dir ++ "/syncthing") "/" = Z.of_nat (String.length dir).
Proof.
  rewrite strings_LastIndex_app.
  change (strings_LastIndex "/syncthing" "/") with 0%Z.
  change (0 <=? 0)%Z with true. cbv iota. lia.
Qed.

Lemma substring_prefix (a b : string) :
  substring 0 (String.length a) (a ++ b) = a.
Proof.
  induction a as [| x a IH]; cbn [String.length append substring].
  - now destruct b.
  - now rewrite IH.
Qed.

Lemma path_Dir_in_dir (dir : string) :
  path_Dir (dir ++ "/syncthing") = path_Clean (dir ++ "/").
Proof.
  unfold path_Dir. rewrite strings_LastIndex_in_dir.
  replace (Z.to_nat (Z.of_nat (String.length dir) + 1))
    with (String.length (dir ++ "/")) by (rewrite append_length; cbn; lia).
  replace (dir ++ "/syncthing")%string with ((dir ++ "/") ++ "syncthing")%string
    by now rewrite append_assoc.
  now rewrite substring_prefix.
Qed.

Lemma strings_Contains_app_byte (a b : string) (c : ascii) :
  strings_Contains (a ++ String c b) c = true.
Proof.
  apply strings_Contains_true.
  assert (0 <= strings_LastIndex (String c b) c)%Z as H.
  { cbn [strings_LastIndex].
    destruct (0 <=? strings_LastIndex b c)%Z eqn:E.
    - apply Z.leb_le in E. lia.
    - rewrite Ascii.eqb_refl. lia. }
  pose proof (strings_LastIndex_range (a ++ String c b) c) as Hr.
  rewrite strings_LastIndex_app in *.
  destruct (0 <=? strings_LastIndex (String c b) c)%Z eqn:E;
    [| apply Z.leb_gt in E; lia].
  destruct Hr; lia.
Qed.

(** X7: the directory test of the zip extractor, by depth.  An entry at
    the top of the archive is taken exactly when it is called
    [syncthing]; an entry [syncthing] in a directory with an ordinary
    name is taken as well; one that lies two such directories deep is
    skipped. *)
Theorem zip_wanted_by_depth :
  (forall f, strings_Contains (zfName f) "/" = false ->
             zipWanted f = String.eqb (zfName f) "syncthing")
  /\ (forall d o, plainName d = true ->
                  zipWanted (mkZipFile (d ++ "/syncthing") o) = true)
  /\ (forall d1 d2 o, plainName d1 = true -> plainName d2 = true ->
                      zipWanted (mkZipFile (d1 ++ "/" ++ d2 ++ "/syncthing") o) = false).
Proof.
  split; [| split].
  - intros f H. unfold zipWanted. rewrite (path_Dir_top _ H). cbn [negb andb].
    change (strings_Contains "." "/") with false. cbn [negb andb].
    destruct (String.eqb_spec (zfName f) "") as [E | E].
    + now rewrite E.
    + now rewrite path_Base_top.
  - intros d o H. unfold zipWanted. cbn [zfName].
    rewrite path_Dir_in_dir, path_Base_in_dir, path_Clean_one by exact H.
    unfold plainName in H. apply andb_prop in H as [_ H].
    now rewrite H.
  - intros d1 d2 o H1 H2. unfold zipWanted. cbn [zfName].
    replace (d1 ++ "/" ++ d2 ++ "/syncthing")%string
      with ((d1 ++ "/" ++ d2) ++ "/syncthing")%string
      by (now rewrite !append_assoc).
    rewrite path_Dir_in_dir.
    replace ((d1 ++ "/" ++ d2) ++ "/")%string with (d1 ++ "/" ++ d2 ++ "/")%string
      by (now rewrite !append_assoc).
    rewrite path_Clean_two by assumption.
    change (d1 ++ "/" ++ d2)%string with (d1 ++ String "/" d2)%string.
    now rewrite strings_Contains_app_byte.
Qed.

Lemma zip_wanted_by_depth_witness :
  zipWanted (mkZipFile "syncthing.exe" (Err io_EOF)) = false
  /\ zipWanted (mkZipFile "syncthing-macos-amd64-v1.23.1/syncthing" (Err io_EOF)) = true
  /\ zipWanted (mkZipFile "syncthing-macos-amd64-v1.23.1/etc/syncthing" (Err io_EOF)) = false.
Proof.
  destruct zip_wanted_by_depth as (H0 & H1 & H2).
  split; [| split].
  - now rewrite H0.
  - apply (H1 "syncthing-macos-amd64-v1.23.1"). reflexivity.
  - apply (H2 "syncthing-macos-amd64-v1.23.1" "etc"); reflexivity.
Defined.

(* ===================================================================== *)
(** * More on the resolver and the driver *)
(* ===================================================================== *)

(** X8: the first asset whose name starts with the prefix of the
    platform decides alone: the assets before it are not fetched, and
    whatever becomes of it, the assets behind it are not tried.  Without
    such an asset the resolver fails with "no asset found" and touches
    nothing. *)
Theorem first_matching_asset_decides (w : world) (rel : release) (files : fs) :
  (forall before a after,
      Assets rel = before ++ a :: after ->
      (forall x, In x before -> strings_HasPrefix (Name x) (assetPrefix w) = false) ->
      strings_HasPrefix (Name a) (assetPrefix w) = true ->
      getReleaseVersion w rel files = resolveAssets w (seedRow rel) [a] files)
  /\ ((forall x, In x (Assets rel) ->
                 strings_HasPrefix (Name x) (assetPrefix w) = false) ->
      getReleaseVersion w rel files = (Err (errorString "no asset found"), files)).
Proof.
  unfold getReleaseVersion. split.
  - intros before a after -> Hb Ha.
    induction before as [| x before IH]; cbn [app resolveAssets].
    + rewrite Ha. now destruct (http_Get w (BrowserDownloadURL a)).
    + rewrite (Hb x (or_introl eq_refl)). apply IH.
      intros y Hy. apply Hb. now right.
  - generalize (Assets rel) as assets.
    induction assets as [| x assets IH]; intros H; [reflexivity |].
    cbn [resolveAssets]. rewrite (H x (or_introl eq_refl)). apply IH.
    intros y Hy. apply H. now right.
Qed.

Lemma first_matching_asset_decides_witness :
  getReleaseVersion quietWorld release_without_assets []
  = (Err (errorString "no asset found"), [])
  /\ getReleaseVersion quietWorld release_three_assets []
     = resolveAssets quietWorld (seedRow release_three_assets)
         [mkAsset "syncthing-linux-amd64-v1.0.0.tar.gz" "https://example.org/tgz"] [].
Proof.
  split.
  - apply (proj2 (first_matching_asset_decides quietWorld release_without_assets [])).
    intros x [<- | []]. reflexivity.
  - apply (proj1 (first_matching_asset_decides quietWorld release_three_assets [])
             [mkAsset "syncthing-source-v1.0.0.tar.gz" "https://example.org/src"]
             (mkAsset "syncthing-linux-amd64-v1.0.0.tar.gz" "https://example.org/tgz")
             [mkAsset "syncthing-linux-amd64-v1.0.0.zip" "https://example.org/zip"]
             eq_refl).
    + intros x [<- | []]. reflexivity.
    + reflexivity.
Defined.

(** X9: a run in which every release is already in the loaded table
    resolves nothing: table and temporary directory stay as they are,
    whatever the world would answer. *)
Theorem resolveAll_all_seen (w : world) (table : list tableRow)
        (releases : list release) (files : fs) :
  (forall rel, In rel releases -> In (TagName rel) (map Version table)) ->
  resolveAll w (seenVersions table) releases table files = (table, files).
Proof.
  intros H. induction releases as [| rel rest IH]; [reflexivity |].
  cbn [resolveAll].
  assert (isSeen (seenVersions table) (TagName rel) = true) as ->.
  { unfold isSeen, seenVersions. apply existsb_exists.
    exists (TagName rel). split; [apply H; now left | apply String.eqb_refl]. }
  apply IH. intros r Hr. apply H. now right.
Qed.

Lemma resolveAll_all_seen_witness :
  resolveAll (servingWorld "gz" (Err zip_ErrFormat) (Err gzip_ErrHeader))
             (seenVersions [mkRow "v1.23.1" "go1.19.5" "2023-01-12"])
             [release_v1_23_1]
             [mkRow "v1.23.1" "go1.19.5" "2023-01-12"] []
  = ([mkRow "v1.23.1" "go1.19.5" "2023-01-12"], []).
Proof.
  apply resolveAll_all_seen. intros rel [<- | []]. left. reflexivity.
Defined.



(** X11: when the existing versions file loads to a table with a row
    whose version or runtime has no dot, no run saves a table, whatever
    releases are listed and whatever the world answers: a run that
    cannot create the versions file ends with the fatal error of the
    creation, and every other run panics when [writeTable] formats the
    table, before a byte is written. *)
Theorem main_never_saves_undotted_row (w : world) (releases : list release)
        (d : disk) (contents : string) (table : list tableRow) (files : fs)
        (r : tableRow) :
  os_Open d = Opened (mkRd contents None) ->
  readTable contents = Ok table -> In r table -> hasDots r = false ->
  main w (Ok releases) d files
  = match os_Create d with
    | Some _ => Returns (Fatal "Creating versions table:")
    | None => Panics "slice bounds out of range"
    end.
Proof.
  intros Hopen Hread Hin Hr. unfold main, readTable_fd. rewrite Hopen.
  cbn [rdErr rdBytes]. rewrite Hread.
  destruct (resolveAll_extends w (seenVersions table) releases table files)
    as (added & Hadd & _).
  destruct (resolveAll w (seenVersions table) releases table files) as [table' files'].
  cbn [fst] in Hadd. subst table'.
  destruct (os_Create d); [reflexivity |].
  unfold writeTable_to, writeTable. rewrite formatRows_without_dots; [reflexivity |].
  destruct (forallb hasDots (table ++ added)) eqn:E; [| reflexivity].
  rewrite forallb_forall in E. rewrite (E r) in Hr; [discriminate |].
  apply in_or_app. now left.
Qed.

Lemma main_never_saves_undotted_row_witness :
  main quietWorld (Ok [release_without_assets])
       (fileWith ("Version,Runtime,Date" ++ str1 byte_LF
                  ++ "v0.14.52,,2018-11-20" ++ str1 byte_LF)) []
  = Panics "slice bounds out of range".
Proof.
  apply (main_never_saves_undotted_row quietWorld [release_without_assets]
           (fileWith ("Version,Runtime,Date" ++ str1 byte_LF
                      ++ "v0.14.52,,2018-11-20" ++ str1 byte_LF))
           ("Version,Runtime,Date" ++ str1 byte_LF
            ++ "v0.14.52,,2018-11-20" ++ str1 byte_LF)
           [mkRow "v0.14.52" "" "2018-11-20"] []
           (mkRow "v0.14.52" "" "2018-11-20")).
  - reflexivity.
  - vm_compute. reflexivity.
  - now left.
  - reflexivity.
Defined.

(* ===================================================================== *)
(** * More on loading a table *)
(* ===================================================================== *)

(** [csv_Read] on a record that the writer wrote, for any setting of
    [FieldsPerRecord]. *)
Lemma csv_Read_written_any (f g : string) (fs : list string) (t : string) (n : nat) :
  noCRLF f = true -> forallb noCRLF (g :: fs) = true -> noCRLF t = true ->
  csv_Read (mkReader (csv_Write (f :: g :: fs) ++ t) n)
  = if 0 <? n
    then if List.length (f :: g :: fs) =? n
         then (Ok (f :: g :: fs), mkReader t n)
         else (Err csv_ErrFieldCount, mkReader t n)
    else (Ok (f :: g :: fs), mkReader t (List.length (f :: g :: fs))).
Proof.
  intros Hf Hfs Ht. rewrite csv_Write_app.
  pose proof (fieldEnd_recordTail (g :: fs) t Hfs Ht) as Hk.
  set (x := (csv_writeField f ++ recordTail (g :: fs) t)%string).
  assert (hasLF x = true) as Hlf
      by (apply hasLF_app_r; now apply fieldEnd_hasLF).
  assert (noCRLF x = true) as Hcr
      by (apply noCRLF_writeField_app; [exact Hf | now apply fieldEnd_noCRLF]).
  assert (x <> "") as Hne by (intros E; now rewrite E in Hlf).
  assert (startsLF x = false) as Hs
      by (apply (startsLF_writeField_field f g)).
  unfold csv_Read. cbn [crInput FieldsPerRecord csv_nextLine].
  rewrite csv_readLine_line, onlyNL_lineOf by assumption.
  assert (recordTurns (f :: g :: fs) <= S (S (String.length x))) as Hfuel.
  { subst x. rewrite append_length. cbn [recordTurns].
    pose proof (fieldTurns_le f). pose proof (recordTurns_le (g :: fs) t).
    cbn [recordTurns] in *. lia. }
  replace (S (S (String.length x)))
    with (recordTurns (f :: g :: fs)
          + (S (S (String.length x)) - recordTurns (f :: g :: fs))) by lia.
  subst x. rewrite parseField_record by assumption. reflexivity.
Qed.

Lemma csvSafe_spec (r : tableRow) :
  csvSafe r = true ->
  noCRLF (Version r) = true /\ forallb noCRLF [Runtime r; Date r] = true.
Proof.
  unfold csvSafe. intros H. apply andb_prop in H as [H H3].
  apply andb_prop in H as [H1 H2]. cbn [forallb]. now rewrite H1, H2, H3.
Qed.

Lemma noCRLF_tableBody_app (rows : list tableRow) (t : string) :
  forallb csvSafe rows = true -> noCRLF t = true ->
  noCRLF (tableBody rows ++ t) = true.
Proof.
  intros Hrows Ht. induction rows as [| r rows IH]; [exact Ht |].
  cbn [forallb] in Hrows. apply andb_prop in Hrows as [Hr Hrows].
  destruct (csvSafe_spec r Hr) as [H1 H2].
  rewrite tableBody_cons, append_assoc. unfold toStrings. rewrite csv_Write_app.
  apply noCRLF_writeField_app; [exact H1 |].
  apply noCRLF_recordTail; [exact H2 | now apply IH].
Qed.

(** The loop of [readTable] over rows that the writer wrote, with any
    input [t] behind them. *)
Lemma readTable_loop_rows (rows : list tableRow) :
  forall (acc : list tableRow) (fuel n : nat) (t : string),
    n = 0 \/ n = 3 ->
    forallb csvSafe rows = true -> noCRLF t = true ->
    readTable_loop (List.length rows + fuel) (mkReader (tableBody rows ++ t) n) acc
    = readTable_loop fuel
        (mkReader t (match rows with [] => n | _ => 3 end))
        (acc ++ map stripRow (filter notHeader rows)).
Proof.
  induction rows as [| r rows IH]; intros acc fuel n t Hn Hrows Ht.
  - cbn. now rewrite app_nil_r.
  - cbn [forallb] in Hrows. apply andb_prop in Hrows as [Hr Hrows].
    destruct (csvSafe_spec r Hr) as [H1 H2].
    rewrite tableBody_cons, append_assoc. unfold toStrings.
    cbn [List.length Nat.add readTable_loop].
    rewrite csv_Read_written_any;
      [| exact H1 | exact H2 | now apply noCRLF_tableBody_app].
    replace (if 0 <? n
             then if List.length [Version r; Runtime r; Date r] =? n
                  then (Ok [Version r; Runtime r; Date r],
                        mkReader (tableBody rows ++ t) n)
                  else (Err csv_ErrFieldCount, mkReader (tableBody rows ++ t) n)
             else (Ok [Version r; Runtime r; Date r],
                   mkReader (tableBody rows ++ t)
                            (List.length [Version r; Runtime r; Date r])))
      with (Ok [Version r; Runtime r; Date r], mkReader (tableBody rows ++ t) 3)
      by (destruct Hn as [-> | ->]; reflexivity).
    cbn [tableHeader hd filter]. unfold notHeader at 1.
    destruct (String.eqb (Version r) "Version").
    + cbn [negb]. rewrite IH by (try assumption; now right).
      now destruct rows.
    + cbn [negb fromStrings map]. rewrite IH by (try assumption; now right).
      rewrite <- app_assoc. now destruct rows.
Qed.

(** X12: load, on any file of three-field records that the writer wrote
    (with or without a header, in any order): the result holds the
    records whose first field is not the word [Version], in the order of
    the file and without the emphasis markers; a record that starts with
    that word is dropped wherever it stands. *)
Theorem readTable_written_rows (rows : list tableRow) :
  forallb csvSafe rows = true ->
  readTable (tableBody rows) = Ok (map stripRow (filter notHeader rows)).
Proof.
  intros Hrows. unfold readTable, csv_NewReader.
  pose proof (tableBody_length rows) as Hlen.
  replace (S (String.length (tableBody rows)))
    with (List.length rows + (S (String.length (tableBody rows)) - List.length rows))
    by lia.
  rewrite <- (append_nil_r (tableBody rows)) at 2.
  rewrite readTable_loop_rows by (try assumption; try reflexivity; now left).
  destruct (S (String.length (tableBody rows)) - List.length rows) as [| k] eqn:E;
    [lia |].
  cbn [app]. now destruct rows.
Qed.

Lemma readTable_written_rows_witness :
  readTable (tableBody [mkRow "**v1.3.0**" "**go1.16**" "2021-03-01";
                        mkRow "Version" "Runtime" "Date";
                        mkRow "v1.2.1" "go1.15.8" "2021-02-01"])
  = Ok [mkRow "v1.3.0" "go1.16" "2021-03-01";
        mkRow "v1.2.1" "go1.15.8" "2021-02-01"].
Proof.
  exact (readTable_written_rows
           [mkRow "**v1.3.0**" "**go1.16**" "2021-03-01";
            mkRow "Version" "Runtime" "Date";
            mkRow "v1.2.1" "go1.15.8" "2021-02-01"] eq_refl).
Defined.

(** X13: the number of fields that load accepts is set by the first
    record of the file.  Behind a first record of three fields, a
    record of two fields, or of four and more, stops load with the
    field count error of the CSV reader.  A first record of two fields
    stops load with "not enough fields", unless it starts with the word
    [Version] and is taken for a header.  A file that is one record of
    four fields or more is loaded: its first three fields make the row
    and the others are dropped. *)
Theorem readTable_field_count_by_place (rows : list tableRow) (g0 g1 : string)
        (gs : list string) (t : string) :
  forallb csvSafe rows = true -> forallb noCRLF (g0 :: g1 :: gs) = true ->
  noCRLF t = true ->
  (rows <> [] -> List.length (g0 :: g1 :: gs) <> 3 ->
   readTable (tableBody rows ++ csv_Write (g0 :: g1 :: gs) ++ t)
   = Err csv_ErrFieldCount)
  /\ (g0 <> "Version" ->
      readTable (csv_Write [g0; g1] ++ t) = Err (errorString "not enough fields"))
  /\ (forall g2 g3 more,
        gs = g2 :: g3 :: more -> g0 <> "Version" ->
        readTable (csv_Write (g0 :: g1 :: gs)) = Ok [stripRow (mkRow g0 g1 g2)]).
Proof.
  intros Hrows Hg Ht. pose proof Hg as Hall. cbn [forallb] in Hg.
  apply andb_prop in Hg as [Hg0 Hgs]. split; [| split].
  - intros Hne Hlen. unfold readTable, csv_NewReader.
    set (rest := (csv_Write (g0 :: g1 :: gs) ++ t)%string).
    assert (List.length rows < String.length (tableBody rows ++ rest)) as Hfuel.
    { rewrite append_length. pose proof (tableBody_length rows).
      subst rest. rewrite append_length. unfold csv_Write.
      rewrite append_length. cbn [str1 String.length]. lia. }
    assert (noCRLF rest = true) as Hrest.
    { subst rest. rewrite csv_Write_app.
      apply noCRLF_writeField_app; [exact Hg0 |]. now apply noCRLF_recordTail. }
    replace (S (String.length (tableBody rows ++ rest)))
      with (List.length rows
            + S (String.length (tableBody rows ++ rest) - List.length rows))
      by lia.
    rewrite readTable_loop_rows by (try assumption; now left).
    destruct rows as [| r rows]; [contradiction |].
    subst rest. cbn [readTable_loop].
    rewrite csv_Read_written_any by assumption.
    cbn [Nat.ltb Nat.leb]. apply Nat.eqb_neq in Hlen. now rewrite Hlen.
  - intros Hg0'. unfold readTable, csv_NewReader. cbn [readTable_loop].
    rewrite csv_Read_written_any;
      [| exact Hg0 | | exact Ht].
    + cbn [Nat.ltb Nat.leb tableHeader hd].
      apply String.eqb_neq in Hg0'. now rewrite Hg0'.
    + cbn [forallb] in *. apply andb_prop in Hgs as [Hg1 _]. now rewrite Hg1.
  - intros g2 g3 more -> Hg0'. unfold readTable, csv_NewReader.
    assert (exists k, String.length (csv_Write (g0 :: g1 :: g2 :: g3 :: more)) = S k)
      as [k Hk].
    { unfold csv_Write. rewrite append_length. cbn [str1 String.length].
      exists (String.length (String.concat "," (map csv_writeField
                (g0 :: g1 :: g2 :: g3 :: more)))). lia. }
    rewrite Hk. cbn [readTable_loop].
    rewrite <- (append_nil_r (csv_Write (g0 :: g1 :: g2 :: g3 :: more))).
    rewrite csv_Read_written_any; [| exact Hg0 | exact Hgs | reflexivity].
    cbn [Nat.ltb Nat.leb tableHeader hd].
    apply String.eqb_neq in Hg0'. rewrite Hg0'.
    cbn [fromStrings app readTable_loop]. reflexivity.
Qed.

Lemma readTable_field_count_by_place_witness :
  readTable (tableBody [mkRow "Version" "Runtime" "Date"]
             ++ csv_Write ["v1.0.0"; "go1.4.2"; "2015-05-03"; "note"] ++ "")
  = Err csv_ErrFieldCount
  /\ readTable (csv_Write ["v1.0.0"; "go1.4.2"] ++ "")
     = Err (errorString "not enough fields")
  /\ readTable (csv_Write ["v1.0.0"; "go1.4.2"; "2015-05-03"; "note"])
     = Ok [mkRow "v1.0.0" "go1.4.2" "2015-05-03"].
Proof.
  destruct (readTable_field_count_by_place [mkRow "Version" "Runtime" "Date"]
              "v1.0.0" "go1.4.2" ["2015-05-03"; "note"] "" eq_refl eq_refl eq_refl)
    as (H1 & _ & H3).
  destruct (readTable_field_count_by_place [] "v1.0.0" "go1.4.2" [] ""
              eq_refl eq_refl eq_refl) as (_ & H2 & _).
  split; [| split].
  - apply H1; [discriminate | cbn; lia].
  - apply H2. discriminate.
  - apply (H3 "2015-05-03" "note" []); [reflexivity | discriminate].
Defined.

(* ===================================================================== *)
(** * More on the formatting pass *)
(* ===================================================================== *)

Lemma rowLess_false_inFileOrder (a b : tableRow) :
  rowLess b a = false -> inFileOrder a b.
Proof.
  rewrite rowLess_false. unfold inFileOrder.
  intros [[E V] | [N D]].
  - split; [| now intros _]. rewrite E. apply ltb_false_cases. now left.
  - split; [exact D | intros E; contradiction].
Qed.

Lemma sort_rows_StronglySorted (rows : list tableRow) :
  StronglySorted inFileOrder (sort_Slice rowLess rows).
Proof.
  pose proof (sort_rows_StronglySorted_less rows) as H.
  induction H as [| a l Hl IH Ha]; constructor; [exact IH |].
  eapply Forall_impl; [| exact Ha]. intros b. apply rowLess_false_inFileOrder.
Qed.

Lemma synMinorOf_Returns (v m : string) :
  synMinorOf v = Returns m -> m = synMinor v.
Proof.
  unfold synMinorOf, slice_to, synMinor.
  destruct ((strings_LastIndex v "." <? 0)
            || (Z.of_nat (String.length v) <? strings_LastIndex v "."))%Z;
    [discriminate | now intros [= <-]].
Qed.

Lemma runMinorOf_Returns (rt m : string) :
  runMinorOf rt = Returns m -> m = runMinor rt.
Proof.
  unfold runMinorOf, runMinor, slice_to.
  destruct (strings_Count rt "." =? 1); [now intros [= <-] |].
  destruct ((strings_LastIndex rt "." <? 0)
            || (Z.of_nat (String.length rt) <? strings_LastIndex rt "."))%Z;
    [discriminate | now intros [= <-]].
Qed.

(** The variables of the loop hold the minor identifiers of the row that
    was formatted last, which is the first of the rows done so far. *)
Lemma boldRows_emphasised (rows : list tableRow) :
  forall (st : minors) (rows' : list tableRow),
    boldRows rows = Returns (st, rows') ->
    prevSynMinor st = match rows with [] => "" | r :: _ => synMinor (Version r) end
    /\ prevRunMinor st = match rows with [] => "" | r :: _ => runMinor (Runtime r) end
    /\ emphasised rows rows'.
Proof.
  induction rows as [| r rest IH]; intros st rows'.
  - cbn. intros [= <- <-]. now repeat split.
  - cbn [boldRows].
    destruct (boldRows rest) as [[st0 rest'] | msg]; [| discriminate].
    destruct (IH st0 rest' eq_refl) as (Hsyn & Hrun & Hrest).
    unfold boldRow.
    destruct (runMinorOf (Runtime r)) as [m | msg] eqn:Em; [| discriminate].
    destruct (synMinorOf (Version r)) as [n | msg] eqn:En; [| discriminate].
    apply runMinorOf_Returns in Em. apply synMinorOf_Returns in En.
    intros [= <- <-]. cbn [prevSynMinor prevRunMinor emphasised Version Runtime Date].
    rewrite Hsyn, Hrun, <- Em, <- En.
    repeat split; try exact Hrest.
    + destruct (String.eqb_spec n (match rest with [] => "" | r0 :: _ => synMinor (Version r0) end));
        cbn [negb]; congruence.
    + destruct (String.eqb_spec m (match rest with [] => "" | r0 :: _ => runMinor (Runtime r0) end));
        cbn [negb]; congruence.
    + now destruct (String.eqb n _).
    + now destruct (String.eqb m _).
Qed.

Lemma emphasised_sameRow (rows : list tableRow) :
  forall rows', emphasised rows rows' -> Forall2 sameRow rows rows'.
Proof.
  induction rows as [| r rest IH]; intros [| r' rest']; cbn [emphasised];
    try tauto; [constructor |].
  intros (Hv & Hr & Hd & Hrest). constructor; [| now apply IH].
  unfold sameRow. rewrite Hv, Hr, Hd. split; [reflexivity |].
  split.
  - destruct (String.eqb (synMinor (Version r)) _); [now left | now right].
  - destruct (String.eqb (runMinor (Runtime r)) _); [now left | now right].
Qed.

(** X14: when the pass returns, the rows it leaves are the given rows in
    another order, row by row with the date unchanged and the version
    and the runtime either unchanged or emphasised: no row is added or
    lost, and down the file the date never grows and among rows of one
    date the version, without its emphasis, never grows. *)
Theorem formatRows_order (rows rows' : list tableRow) :
  formatRows rows = Returns rows' ->
  exists sorted,
    Permutation rows sorted
    /\ StronglySorted inFileOrder sorted
    /\ Forall2 sameRow sorted rows'.
Proof.
  unfold formatRows. intros H.
  destruct (boldRows (sort_Slice rowLess rows)) as [[st l] | msg] eqn:E;
    [| discriminate].
  injection H as <-.
  destruct (boldRows_emphasised _ _ _ E) as (_ & _ & He).
  exists (sort_Slice rowLess rows).
  split; [apply sort_Slice_Permutation |].
  split; [apply sort_rows_StronglySorted | now apply emphasised_sameRow].
Qed.

Lemma formatRows_order_witness :
  exists sorted,
    Permutation [mkRow "v1.2.1" "go1.15.8" "2021-02-01";
                 mkRow "v1.3.0" "go1.16" "2021-03-01"] sorted
    /\ StronglySorted inFileOrder sorted
    /\ Forall2 sameRow sorted [mkRow "**v1.3.0**" "**go1.16**" "2021-03-01";
                               mkRow "**v1.2.1**" "**go1.15.8**" "2021-02-01"].
Proof.
  exact (formatRows_order
           [mkRow "v1.2.1" "go1.15.8" "2021-02-01";
            mkRow "v1.3.0" "go1.16" "2021-03-01"]
           [mkRow "**v1.3.0**" "**go1.16**" "2021-03-01";
            mkRow "**v1.2.1**" "**go1.15.8**" "2021-02-01"] eq_refl).
Defined.

(** X15: the rule of the emphasis.  When the pass returns, a version is
    emphasised exactly when its minor identifier differs from that of
    the row below it in the file (for the last row: when it is not
    empty), and so is a runtime; nothing else of a row is changed. *)
Theorem formatRows_emphasis_rule (rows rows' : list tableRow) :
  formatRows rows = Returns rows' ->
  exists sorted,
    Permutation rows sorted
    /\ StronglySorted inFileOrder sorted
    /\ emphasised sorted rows'.
Proof.
  unfold formatRows. intros H.
  destruct (boldRows (sort_Slice rowLess rows)) as [[st l] | msg] eqn:E;
    [| discriminate].
  injection H as <-.
  destruct (boldRows_emphasised _ _ _ E) as (_ & _ & He).
  exists (sort_Slice rowLess rows).
  split; [apply sort_Slice_Permutation |].
  split; [apply sort_rows_StronglySorted | exact He].
Qed.

Lemma formatRows_emphasis_rule_witness :
  exists sorted,
    Permutation [mkRow "v1.2.1" "go1.15.8" "2021-02-01";
                 mkRow "v1.3.0" "go1.16" "2021-03-01"] sorted
    /\ StronglySorted inFileOrder sorted
    /\ emphasised sorted [mkRow "**v1.3.0**" "**go1.16**" "2021-03-01";
                          mkRow "**v1.2.1**" "**go1.15.8**" "2021-02-01"].
Proof.
  exact (formatRows_emphasis_rule
           [mkRow "v1.2.1" "go1.15.8" "2021-02-01";
            mkRow "v1.3.0" "go1.16" "2021-03-01"]
           [mkRow "**v1.3.0**" "**go1.16**" "2021-03-01";
            mkRow "**v1.2.1**" "**go1.15.8**" "2021-02-01"] eq_refl).
Defined.

(* ===================================================================== *)
(** * What the banner parser returns *)
(* ===================================================================== *)

Lemma rmatch_star (r1 : regex) (pos : nat) (s : string) (cs : captures)
      (k : nat -> string -> captures -> option captures) :
  rmatch (reStar r1) pos s cs k = starIter r1 k (String.length s) pos s cs.
Proof. reflexivity. Qed.

Lemma lookupCap_Some_In (i : nat) (cs : captures) (se : nat * nat) :
  lookupCap i cs = Some se -> In (i, se) cs.
Proof.
  induction cs as [| [j se'] cs IH]; [discriminate |]. cbn [lookupCap].
  destruct (Nat.eqb_spec i j) as [-> | _].
  - intros [= <-]. now left.
  - intros H. right. now apply IH.
Qed.

Lemma lookupCap_In (i : nat) (cs : captures) (se : nat * nat) :
  In (i, se) cs -> exists se', lookupCap i cs = Some se'.
Proof.
  induction cs as [| [j se'] cs IH]; [intros [] |]. cbn [lookupCap].
  destruct (Nat.eqb_spec i j) as [-> | Hij]; [eauto |].
  intros [[= -> _] | H]; [contradiction | now apply IH].
Qed.

Section MatcherSound.
Variable top : regex.
Variable subj : string.

Lemma starIter_sound (r1 : regex)
      (k : nat -> string -> captures -> option captures) (m : captures) :
  (forall (done s : string) (cs : captures)
          (k' : nat -> string -> captures -> option captures),
      subj = (done ++ s)%string -> Forall (capValid top subj) cs ->
      rmatch r1 (String.length done) s cs k' = Some m ->
      handsOver top subj r1 done s cs k' m) ->
  forall (n : nat) (done s : string) (cs : captures),
    subj = (done ++ s)%string -> Forall (capValid top subj) cs ->
    starIter r1 k n (String.length done) s cs = Some m ->
    handsOver top subj (reStar r1) done s cs k m.
Proof.
  intros IH1. induction n as [| n IHn]; intros done s cs Hsubj Hcs Hm.
  - cbn [starIter] in Hm.
    exists EmptyString, s, cs. cbn [String.length append mustCap].
    rewrite Nat.add_0_r. repeat split; try assumption; try constructor.
    + apply incl_refl.
    + intros i [].
  - cbn [starIter] in Hm. fold (starIter r1 k) in Hm.
    destruct (rmatch r1 (String.length done) s cs
                (fun pos' s' cs' =>
                   if String.length done <? pos'
                   then starIter r1 k n pos' s' cs' else None)) as [m' |] eqn:E.
    + injection Hm as ->.
      apply IH1 in E; try assumption.
      destruct E as (pre1 & s1 & cs1 & -> & L1 & V1 & I1 & _ & E).
      destruct (String.length done <? String.length done + String.length pre1);
        [| discriminate].
      rewrite <- append_length in E.
      apply IHn in E; try assumption; [| now rewrite append_assoc].
      destruct E as (pre2 & s2 & cs2 & -> & L2 & V2 & I2 & _ & E).
      exists (pre1 ++ pre2)%string, s2, cs2.
      repeat split; try assumption.
      * now rewrite append_assoc.
      * now constructor.
      * eapply incl_tran; eassumption.
      * intros i [].
      * rewrite append_length in E. now rewrite append_length, Nat.add_assoc.
    + exists EmptyString, s, cs. cbn [String.length append mustCap].
      rewrite Nat.add_0_r. repeat split; try assumption; try constructor.
      * apply incl_refl.
      * intros i [].
Qed.

Lemma rmatch_sound (r : regex) :
  incl (capsOf r) (capsOf top) ->
  forall (done s : string) (cs : captures)
         (k : nat -> string -> captures -> option captures) (m : captures),
    subj = (done ++ s)%string -> Forall (capValid top subj) cs ->
    rmatch r (String.length done) s cs k = Some m ->
    handsOver top subj r done s cs k m.
Proof.
  induction r as [| c | | | r1 IH1 r2 IH2 | r1 IH1 | r1 IH1 | i r1 IH1];
    intros Hcaps done s cs k m Hsubj Hcs Hm.
  - (* reEmpty *)
    exists EmptyString, s, cs. cbn [String.length append mustCap].
    rewrite Nat.add_0_r. repeat split; try assumption; try constructor.
    + apply incl_refl.
    + intros i [].
  - (* reLit *)
    cbn [rmatch] in Hm. destruct s as [| a s]; [discriminate |].
    destruct (Ascii.eqb a c) eqn:E; [| discriminate].
    apply Ascii.eqb_eq in E. subst a.
    exists (str1 c), s, cs. cbn [String.length append str1 mustCap].
    rewrite Nat.add_1_r. repeat split; try assumption; try constructor.
    + apply incl_refl.
    + intros i [].
  - (* reDigit *)
    cbn [rmatch] in Hm. destruct s as [| a s]; [discriminate |].
    destruct (isDigit a) eqn:E; [| discriminate].
    exists (str1 a), s, cs. cbn [String.length append str1 mustCap].
    rewrite Nat.add_1_r. repeat split; try assumption; try (now constructor).
    + apply incl_refl.
    + intros i [].
  - (* reAny *)
    cbn [rmatch] in Hm. destruct s as [| a s]; [discriminate |].
    destruct (Ascii.eqb a byte_LF) eqn:E; [discriminate |].
    exists (str1 a), s, cs. cbn [String.length append str1 mustCap].
    rewrite Nat.add_1_r. repeat split; try assumption; try (now constructor).
    + apply incl_refl.
    + intros i [].
  - (* reCat *)
    cbn [rmatch] in Hm. cbn [capsOf] in Hcaps.
    apply IH1 in Hm; try assumption;
      [| intros x Hx; apply Hcaps, in_or_app; now left].
    destruct Hm as (pre1 & s1 & cs1 & -> & L1 & V1 & I1 & M1 & Hm).
    rewrite <- append_length in Hm.
    apply IH2 in Hm; try assumption;
      [| intros x Hx; apply Hcaps, in_or_app; now right
       | now rewrite append_assoc].
    destruct Hm as (pre2 & s2 & cs2 & -> & L2 & V2 & I2 & M2 & Hm).
    exists (pre1 ++ pre2)%string, s2, cs2.
    repeat split; try assumption.
    + now rewrite append_assoc.
    + now constructor.
    + eapply incl_tran; eassumption.
    + cbn [mustCap]. intros i Hi. apply in_app_or in Hi as [Hi | Hi].
      * destruct (M1 i Hi) as [se Hse]. exists se. now apply I2.
      * now apply M2.
    + rewrite append_length in Hm. now rewrite append_length, Nat.add_assoc.
  - (* reStar *)
    rewrite rmatch_star in Hm. cbn [capsOf] in Hcaps.
    apply (starIter_sound r1 k m) with (n := String.length s); try assumption.
    intros done' s' cs' k' Hs' Hc' Hm'. now apply IH1.
  - (* reQuest *)
    cbn [rmatch] in Hm. cbn [capsOf] in Hcaps.
    destruct (rmatch r1 (String.length done) s cs k) as [m' |] eqn:E.
    + injection Hm as ->. apply IH1 in E; try assumption.
      destruct E as (pre1 & s1 & cs1 & -> & L1 & V1 & I1 & _ & E).
      exists pre1, s1, cs1. repeat split; try assumption.
      * now constructor.
      * intros i [].
    + exists EmptyString, s, cs. cbn [String.length append mustCap].
      rewrite Nat.add_0_r. repeat split; try assumption; try constructor.
      * apply incl_refl.
      * intros i [].
  - (* reCap *)
    cbn [rmatch] in Hm. cbn [capsOf] in Hcaps.
    apply IH1 in Hm; try assumption;
      [| intros x Hx; apply Hcaps; now right].
    destruct Hm as (pre1 & s1 & cs1 & -> & L1 & V1 & I1 & M1 & Hm).
    exists pre1, s1,
      ((i, (String.length done, String.length done + String.length pre1)) :: cs1).
    repeat split; try assumption.
    + now constructor.
    + constructor; [| exact V1].
      exists r1, done, pre1, s1. cbn [fst snd].
      repeat split; try assumption. apply Hcaps. now left.
    + intros x Hx. right. now apply I1.
    + cbn [mustCap]. intros j [<- | Hj]; [eexists; now left |].
      destruct (M1 j Hj) as [se Hse]. exists se. now right.
Qed.

Lemma findFrom_sound (s : string) :
  forall (done : string) (cs : captures),
    subj = (done ++ s)%string ->
    findFrom top (String.length done) s = Some cs ->
    exists cs' se0,
      cs = (0, se0) :: cs'
      /\ Forall (capValid top subj) cs'
      /\ forall i, In i (mustCap top) -> exists se, In (i, se) cs'.
Proof.
  induction s as [| a s IH]; intros done cs Hsubj; cbn [findFrom].
  - destruct (rmatch top (String.length done) "" []
                (fun e _ cs0 => Some ((0, (String.length done, e)) :: cs0)))
      as [m |] eqn:E; [| discriminate].
    intros [= <-].
    apply rmatch_sound in E; try assumption; [| apply incl_refl | constructor].
    destruct E as (pre & s' & cs' & _ & _ & V & _ & M & [= <-]). eauto.
  - destruct (rmatch top (String.length done) (String a s) []
                (fun e _ cs0 => Some ((0, (String.length done, e)) :: cs0)))
      as [m |] eqn:E.
    + intros [= <-].
      apply rmatch_sound in E; try assumption; [| apply incl_refl | constructor].
      destruct E as (pre & s' & cs' & _ & _ & V & _ & M & [= <-]). eauto.
    + intros H. apply (IH (done ++ str1 a)%string).
      * now rewrite append_assoc.
      * rewrite append_length. cbn [str1 String.length].
        now rewrite Nat.add_1_r.
Qed.
End MatcherSound.

(** The text of a group that took part in the match. *)
Lemma group_text (top : regex) (subj : string) (cs : captures) (i : nat) :
  Forall (capValid top subj) cs -> (exists se, In (i, se) cs) ->
  exists ri mid,
    In (i, ri) (capsOf top) /\ lang ri mid
    /\ match lookupCap i cs with
       | Some (b, e) => substring b (e - b) subj
       | None => EmptyString
       end = mid.
Proof.
  intros Hv [se Hse].
  destruct (lookupCap_In _ _ _ Hse) as [[b e] Hl]. rewrite Hl.
  apply lookupCap_Some_In in Hl. rewrite Forall_forall in Hv.
  destruct (Hv _ Hl) as (ri & pre & mid & post & Hin & -> & Hb & He & Hlang).
  cbn [fst snd] in *. exists ri, mid. repeat split; try assumption.
  subst b e. replace (String.length pre + String.length mid - String.length pre)
    with (String.length mid) by lia.
  now rewrite substring_skip, substring_prefix.
Qed.

(** ** The shape of the strings of the three groups *)

Lemma lang_cat_inv (r1 r2 : regex) (s : string) :
  lang (reCat r1 r2) s -> exists a b, s = (a ++ b)%string /\ lang r1 a /\ lang r2 b.
Proof. inversion 1; subst; eauto. Qed.

Lemma lang_lit_inv (c : ascii) (s : string) : lang (reLit c) s -> s = str1 c.
Proof. now inversion 1. Qed.

Lemma lang_empty_inv (s : string) : lang reEmpty s -> s = "".
Proof. now inversion 1. Qed.

Lemma lang_quest_inv (r : regex) (s : string) :
  lang (reQuest r) s -> s = "" \/ lang r s.
Proof. inversion 1; subst; auto. Qed.

Lemma allDigits_app (a b : string) :
  allDigits (a ++ b) = allDigits a && allDigits b.
Proof. unfold allDigits. now rewrite anyByte_app, negb_orb. Qed.

Lemma lang_digit_inv (s : string) :
  lang reDigit s -> String.length s = 1 /\ digits s = true.
Proof.
  inversion 1; subst. split; [reflexivity |].
  unfold digits, allDigits. cbn.
  match goal with Hd : isDigit _ = true |- _ => now rewrite Hd end.
Qed.

Lemma lang_star_digit (s : string) : lang (reStar reDigit) s -> allDigits s = true.
Proof.
  remember (reStar reDigit) as r eqn:Hr. induction 1; try discriminate Hr.
  - reflexivity.
  - injection Hr as ->. rewrite allDigits_app, IHlang2 by reflexivity.
    apply lang_digit_inv in H as [_ H]. unfold digits in H.
    apply andb_prop in H as [_ H]. now rewrite H.
Qed.

Lemma lang_plus_digit (s : string) : lang (rePlus reDigit) s -> digits s = true.
Proof.
  unfold rePlus. intros H. apply lang_cat_inv in H as (a & b & -> & Ha & Hb).
  apply lang_star_digit in Hb. apply lang_digit_inv in Ha as [Hl Ha].
  unfold digits in *. apply andb_prop in Ha as [_ Ha].
  rewrite allDigits_app, Ha, Hb. destruct a; [discriminate Hl | reflexivity].
Qed.

Lemma lang_repeat_digit (n : nat) (s : string) :
  lang (reRepeat n reDigit) s -> String.length s = n /\ allDigits s = true.
Proof.
  revert s. induction n as [| n IH]; intros s H; cbn [reRepeat] in H.
  - apply lang_empty_inv in H. now subst s.
  - apply lang_cat_inv in H as (a & b & -> & Ha & Hb).
    apply lang_digit_inv in Ha as [Hl Ha]. apply IH in Hb as [Hn Hb].
    unfold digits in Ha. apply andb_prop in Ha as [_ Ha].
    rewrite append_length, allDigits_app, Ha, Hb, Hl, Hn. now split.
Qed.

Lemma lang_expVersion (s : string) :
  lang expVersion s ->
  exists d1 d2 d3,
    s = ("v" ++ d1 ++ "." ++ d2 ++ "." ++ d3)%string
    /\ digits d1 = true /\ digits d2 = true /\ digits d3 = true.
Proof.
  unfold expVersion. cbn [reSeq]. intros H.
  apply lang_cat_inv in H as (a1 & s1 & -> & H1 & H).
  apply lang_cat_inv in H as (d1 & s2 & -> & D1 & H).
  apply lang_cat_inv in H as (a2 & s3 & -> & H2 & H).
  apply lang_cat_inv in H as (d2 & s4 & -> & D2 & H).
  apply lang_cat_inv in H as (a3 & s5 & -> & H3 & H).
  apply lang_cat_inv in H as (d3 & s6 & -> & D3 & H).
  apply lang_empty_inv in H. apply lang_lit_inv in H1, H2, H3. subst.
  exists d1, d2, d3. rewrite append_nil_r.
  repeat split; now apply lang_plus_digit.
Qed.

Lemma lang_expRuntime (s : string) :
  lang expRuntime s ->
  exists d1 d2 patch,
    s = ("go" ++ d1 ++ "." ++ d2 ++ patch)%string
    /\ digits d1 = true /\ digits d2 = true
    /\ (patch = "" \/ exists d3, patch = ("." ++ d3)%string /\ digits d3 = true).
Proof.
  unfold expRuntime. cbn [reSeq reString]. intros H.
  apply lang_cat_inv in H as (g & s1 & -> & Hg & H).
  apply lang_cat_inv in Hg as (a1 & g1 & -> & H1 & Hg).
  apply lang_cat_inv in Hg as (a2 & g2 & -> & H2 & Hg).
  apply lang_empty_inv in Hg.
  apply lang_cat_inv in H as (d1 & s2 & -> & D1 & H).
  apply lang_cat_inv in H as (a3 & s3 & -> & H3 & H).
  apply lang_cat_inv in H as (d2 & s4 & -> & D2 & H).
  apply lang_cat_inv in H as (patch & s5 & -> & P & H).
  apply lang_empty_inv in H. apply lang_lit_inv in H1, H2, H3. subst.
  exists d1, d2, patch. rewrite !append_nil_r.
  split; [reflexivity |].
  split; [now apply lang_plus_digit |]. split; [now apply lang_plus_digit |].
  apply lang_quest_inv in P as [-> | P]; [now left | right].
  apply lang_cat_inv in P as (a & d3 & -> & Ha & Hd).
  apply lang_lit_inv in Ha. subst a. exists d3.
  split; [reflexivity | now apply lang_plus_digit].
Qed.

Lemma lang_expDate (s : string) :
  lang expDate s ->
  exists y m d,
    s = (y ++ "-" ++ m ++ "-" ++ d)%string
    /\ String.length y = 4 /\ String.length m = 2 /\ String.length d = 2
    /\ allDigits y = true /\ allDigits m = true /\ allDigits d = true.
Proof.
  unfold expDate. cbn [reSeq]. intros H.
  apply lang_cat_inv in H as (y & s1 & -> & Hy & H).
  apply lang_cat_inv in H as (a1 & s2 & -> & H1 & H).
  apply lang_cat_inv in H as (m & s3 & -> & Hm & H).
  apply lang_cat_inv in H as (a2 & s4 & -> & H2 & H).
  apply lang_cat_inv in H as (d & s5 & -> & Hd & H).
  apply lang_empty_inv in H. apply lang_lit_inv in H1, H2. subst.
  apply lang_repeat_digit in Hy as [Ly Dy], Hm as [Lm Dm], Hd as [Ld Dd].
  exists y, m, d. rewrite append_nil_r. now repeat split.
Qed.

Lemma capsOf_exp :
  capsOf exp = [(1, expVersion); (2, expRuntime); (3, expDate)].
Proof. reflexivity. Qed.

Lemma mustCap_exp : mustCap exp = [1; 2; 3].
Proof. reflexivity. Qed.

(** The fields of a parsed banner are strings of the three groups. *)
Lemma fromVersion_groups (ver : string) (row : tableRow) :
  fromVersion ver = Ok row ->
  lang expVersion (Version row) /\ lang expRuntime (Runtime row)
  /\ lang expDate (Date row).
Proof.
  unfold fromVersion, regexp_FindStringSubmatch.
  destruct (findFrom exp 0 ver) as [cs |] eqn:E; [| discriminate].
  destruct (findFrom_sound exp ver ver EmptyString cs eq_refl E)
    as (cs' & se0 & -> & Hv & Hm).
  rewrite mustCap_exp in Hm.
  cbn [seq map List.length Nat.ltb Nat.leb nth]. intros [= <-].
  cbn [Version Runtime Date].
  destruct (group_text exp ver cs' 1 Hv (Hm 1 (or_introl eq_refl)))
    as (r1 & m1 & I1 & L1 & ->).
  destruct (group_text exp ver cs' 2 Hv (Hm 2 (or_intror (or_introl eq_refl))))
    as (r2 & m2 & I2 & L2 & ->).
  destruct (group_text exp ver cs' 3 Hv
              (Hm 3 (or_intror (or_intror (or_introl eq_refl)))))
    as (r3 & m3 & I3 & L3 & ->).
  rewrite capsOf_exp in I1, I2, I3.
  destruct I1 as [[= <-] | [[=] | [[=] | []]]].
  destruct I2 as [[=] | [[= <-] | [[=] | []]]].
  destruct I3 as [[=] | [[=] | [[= <-] | []]]].
  now repeat split.
Qed.

(** X16: whenever the parser accepts a banner, the version is [v] and
    three dotted numbers, the runtime is [go] and two or three dotted
    numbers, and the date is four, two and two digits with dashes
    between them. *)
Theorem fromVersion_fields_shape (ver : string) (row : tableRow) :
  fromVersion ver = Ok row ->
  (exists d1 d2 d3,
      Version row = ("v" ++ d1 ++ "." ++ d2 ++ "." ++ d3)%string
      /\ digits d1 = true /\ digits d2 = true /\ digits d3 = true)
  /\ (exists d1 d2 patch,
         Runtime row = ("go" ++ d1 ++ "." ++ d2 ++ patch)%string
         /\ digits d1 = true /\ digits d2 = true
         /\ (patch = "" \/ exists d3, patch = ("." ++ d3)%string /\ digits d3 = true))
  /\ (exists y m d,
         Date row = (y ++ "-" ++ m ++ "-" ++ d)%string
         /\ String.length y = 4 /\ String.length m = 2 /\ String.length d = 2
         /\ allDigits y = true /\ allDigits m = true /\ allDigits d = true).
Proof.
  intros H. destruct (fromVersion_groups ver row H) as (Hv & Hr & Hd).
  split; [now apply lang_expVersion |].
  split; [now apply lang_expRuntime | now apply lang_expDate].
Qed.

Lemma fromVersion_fields_shape_witness :
  exists d1 d2 d3,
    "v1.23.1" = ("v" ++ d1 ++ "." ++ d2 ++ "." ++ d3)%string
    /\ digits d1 = true /\ digits d2 = true /\ digits d3 = true.
Proof.
  exact (proj1 (fromVersion_fields_shape sampleBanner
                  (mkRow "v1.23.1" "go1.19.5" "2023-01-12") eq_refl)).
Defined.

(** X17: a row that the parser returns can always be formatted: its
    version and its runtime hold a dot, so a table of such rows never
    makes the save panic. *)
Theorem fromVersion_rows_can_be_saved (vers : list string) (rows : list tableRow) :
  Forall2 (fun ver row => fromVersion ver = Ok row) vers rows ->
  forallb hasDots rows = true /\ exists out, writeTable rows = Returns out.
Proof.
  intros H.
  assert (forallb hasDots rows = true) as Hd.
  { induction H as [| ver row vers rows Hrow _ IH]; [reflexivity |].
    cbn [forallb]. rewrite IH, andb_true_r.
    destruct (fromVersion_groups ver row Hrow) as (Hv & Hr & _).
    apply lang_expVersion in Hv as (d1 & d2 & d3 & Ev & _).
    apply lang_expRuntime in Hr as (e1 & e2 & p & Er & _).
    unfold hasDots. rewrite Ev, Er.
    change ("v" ++ d1 ++ "." ++ d2 ++ "." ++ d3)%string
      with (("v" ++ d1) ++ String "." (d2 ++ "." ++ d3))%string.
    replace ("go" ++ e1 ++ "." ++ e2 ++ p)%string
      with (("go" ++ e1) ++ String "." (e2 ++ p))%string
      by (cbn [append]; reflexivity).
    now rewrite !strings_Contains_app_byte. }
  split; [exact Hd |]. unfold writeTable.
  destruct (formatRows_with_dots rows Hd) as [rows' ->]. eauto.
Qed.

Lemma fromVersion_rows_can_be_saved_witness :
  exists out, writeTable [mkRow "v1.23.1" "go1.19.5" "2023-01-12";
                          mkRow "v0.14.52" "go1.11.2" "2018-11-20"] = Returns out.
Proof.
  refine (proj2 (fromVersion_rows_can_be_saved [sampleBanner; olderBanner] _ _)).
  repeat constructor.
Defined.

(* ===================================================================== *)
(** * The listing of the releases *)
(* ===================================================================== *)

Lemma lexGt_asym (a : list Z) :
  forall b, lexGt a b = true -> lexGt b a = false.
Proof.
  induction a as [| x a IH]; intros [| y b]; cbn [lexGt]; try discriminate.
  intros H. apply orb_true_iff in H as [H | H].
  - apply Z.ltb_lt in H.
    replace (x <? y)%Z with false by (symmetry; apply Z.ltb_ge; lia).
    replace (y =? x)%Z with false by (symmetry; apply Z.eqb_neq; lia).
    reflexivity.
  - apply andb_prop in H as [E H]. apply Z.eqb_eq in E. subst y.
    rewrite Z.ltb_irrefl, (IH _ H). now rewrite andb_false_r.
Qed.

Lemma lexGt_false_trans (a : list Z) :
  forall b c,
    List.length a = List.length b -> List.length b = List.length c ->
    lexGt b a = false -> lexGt c b = false -> lexGt c a = false.
Proof.
  induction a as [| x a IH]; intros [| y b] [| z c]; cbn [List.length lexGt];
    try discriminate; try reflexivity.
  intros La Lb H1 H2.
  apply orb_false_elim in H1 as [H1 H1']. apply orb_false_elim in H2 as [H2 H2'].
  apply Z.ltb_ge in H1, H2.
  apply orb_false_intro; [apply Z.ltb_ge; lia |].
  destruct (Z.eqb_spec z x) as [-> | Hzx]; [| reflexivity].
  assert (y = x) as -> by lia.
  rewrite Z.eqb_refl in H1', H2'. cbn [andb] in *.
  apply (IH b c); congruence.
Qed.

Lemma publishedAfter_asym (a b : listed) :
  publishedAfter a b = true -> publishedAfter b a = false.
Proof. apply lexGt_asym. Qed.

Lemma newestFirst_trans (a b c : listed) :
  newestFirst a b -> newestFirst b c -> newestFirst a c.
Proof.
  unfold newestFirst, time_After. intros H1 H2.
  now apply (lexGt_false_trans _ (time_key (PublishedAt b))).
Qed.

Lemma sort_listed_StronglySorted (l : list listed) :
  StronglySorted newestFirst (sort_Slice publishedAfter l).
Proof.
  apply Sorted_StronglySorted.
  - intros a b c. apply newestFirst_trans.
  - apply (sort_Slice_Sorted listed publishedAfter publishedAfter_asym).
Qed.

(** The loop over pages that the listing hands out one after the other. *)
Lemma getReleases_loop_leads (ListReleases : lister) (pages : list (list listed * nat)) :
  forall (page to fuel : nat) (releases : list listed),
    leads ListReleases page pages to ->
    getReleases_loop (List.length pages + fuel) ListReleases page releases
    = getReleases_loop fuel ListReleases to
        (releases ++ stable (map fst pages)).
Proof.
  unfold stable.
  induction pages as [| [rels next] pages IH]; intros page to fuel releases.
  - cbn. intros ->. now rewrite app_nil_r.
  - cbn [leads]. intros (Hp & Hn & Hrest).
    cbn [List.length Nat.add getReleases_loop]. rewrite Hp.
    apply Nat.eqb_neq in Hn. rewrite Hn.
    rewrite (IH _ _ _ _ Hrest). cbn [map fst concat].
    now rewrite filter_app, app_assoc.
Qed.

Lemma stable_no_prerelease (pages : list (list listed)) (rel : listed) :
  In rel (stable pages) -> Prerelease rel = false.
Proof.
  unfold stable. intros H. apply filter_In in H as [_ H].
  now apply negb_true_iff in H.
Qed.

(** X18: when the pages of the listing follow one another up to a page
    without a next page, [getReleases] asks for each of them once and
    returns the releases of all these pages that are no prereleases,
    each as often as the pages hold it, ordered so that no release
    stands behind one that was published before it. *)
Theorem getReleases_stable_newest_first (ListReleases : lister)
        (pages : list (list listed * nat)) (last : nat) (rels : list listed)
        (fuel : nat) :
  leads ListReleases 0 pages last ->
  ListReleases last = Ok (rels, 0) ->
  List.length pages < fuel ->
  exists releases,
    getReleases fuel ListReleases = Some (Ok releases)
    /\ Permutation (stable (map fst pages ++ [rels])) releases
    /\ StronglySorted newestFirst releases
    /\ Forall (fun rel => Prerelease rel = false) releases.
Proof.
  intros Hl Hlast Hfuel. unfold getReleases.
  replace fuel with (List.length pages + S (fuel - S (List.length pages))) by lia.
  rewrite (getReleases_loop_leads _ _ _ _ _ _ Hl).
  cbn [getReleases_loop app]. rewrite Hlast. cbn [Nat.eqb].
  assert (stable (map fst pages) ++ filter (fun rel => negb (Prerelease rel)) rels
          = stable (map fst pages ++ [rels])) as ->.
  { unfold stable. rewrite concat_app, filter_app. cbn [concat].
    now rewrite app_nil_r. }
  eexists. split; [reflexivity |].
  split; [apply sort_Slice_Permutation |].
  split; [apply sort_listed_StronglySorted |].
  apply Forall_forall. intros rel Hrel.
  apply (stable_no_prerelease (map fst pages ++ [rels])).
  eapply Permutation_in; [| exact Hrel].
  apply Permutation_sym, sort_Slice_Permutation.
Qed.

Lemma getReleases_stable_newest_first_witness :
  exists releases,
    getReleases 5 twoPages = Some (Ok releases)
    /\ Permutation [listed_v1_0_0; listed_v0_14_52; listed_v1_23_1] releases
    /\ StronglySorted newestFirst releases
    /\ Forall (fun rel => Prerelease rel = false) releases.
Proof.
  apply (getReleases_stable_newest_first twoPages
           [([listed_v1_0_0; listed_v1_23_1_rc; listed_v0_14_52], 2)]
           2 [listed_v1_23_1] 5).
  - cbn. repeat split. discriminate.
  - reflexivity.
  - cbn. lia.
Defined.

(** X19: an error of any request ends the listing with that error: the
    releases of the pages before it are not returned, and no page behind
    it is asked for. *)
Theorem getReleases_request_error (ListReleases : lister)
        (pages : list (list listed * nat)) (failing : nat) (e : error)
        (fuel : nat) :
  leads ListReleases 0 pages failing ->
  ListReleases failing = Err e ->
  List.length pages < fuel ->
  getReleases fuel ListReleases = Some (Err e)
  /\ forall other : lister,
       (forall page, In page (0 :: map snd pages) -> other page = ListReleases page) ->
       getReleases fuel other = Some (Err e).
Proof.
  assert (forall L : lister,
             leads L 0 pages failing -> L failing = Err e ->
             List.length pages < fuel -> getReleases fuel L = Some (Err e)) as Hone.
  { intros L Hl Hf Hfuel. unfold getReleases.
    replace fuel with (List.length pages + S (fuel - S (List.length pages))) by lia.
    rewrite (getReleases_loop_leads _ _ _ _ _ _ Hl).
    cbn [getReleases_loop]. now rewrite Hf. }
  intros Hl Hf Hfuel. split; [now apply Hone |].
  intros other Hsame.
  assert (forall (ps : list (list listed * nat)) (page : nat),
             (forall q, In q (page :: map snd ps) -> other q = ListReleases q) ->
             leads ListReleases page ps failing ->
             leads other page ps failing /\ other failing = ListReleases failing)
    as Hcopy.
  { induction ps as [| [rels next] ps IH]; intros page Hq.
    - cbn. intros <-. split; [reflexivity |]. apply Hq. now left.
    - cbn [leads map snd]. intros (Hp & Hn & Hrest).
      destruct (IH next) as [Hl' Hf']; [| exact Hrest |].
      + intros q Hin. apply Hq. now right.
      + rewrite (Hq page (or_introl eq_refl)). now repeat split. }
  destruct (Hcopy pages 0 Hsame Hl) as [Hl' Hf'].
  apply Hone; [exact Hl' | congruence | exact Hfuel].
Qed.

Lemma getReleases_request_error_witness :
  getReleases 5 brokenSecondPage = Some (Err (pkgError "github" "502 Bad Gateway")).
Proof.
  refine (proj1 (getReleases_request_error brokenSecondPage
                   [([listed_v1_0_0; listed_v1_23_1_rc; listed_v0_14_52], 2)]
                   2 (pkgError "github" "502 Bad Gateway") 5 _ _ _)).
  - cbn. repeat split. discriminate.
  - reflexivity.
  - cbn. lia.
Defined.
